(** * SMARTCODE server: presence registry, broadcast routing, snippet store
      and code execution service

    A shallow embedding of [src/server.js].  Every handler of the server is
    a Rocq function over an explicit state; what the handler obtains from
    its environment (the clock, [uuidv4], the outcome of the spawned
    process) is an argument of the function.

    Conventions.
    - A JavaScript string is a [string]; a character is one code unit, so
      the model covers the code units below 256.
    - A request body and an event payload are objects whose fields, when
      present, are text, as in the data model; a field that may be missing
      is an [option string] and [None] is JavaScript's [undefined].
    - The object literals [extensions] and [commands] are looked up by
      key as JavaScript does it: a key that is none of their own finds the
      member of that name every object inherits ([constructor],
      [toString], ...), if there is one.
    - [__dirname] is an absolute, normalised path: it ends in a separator
      only when it is a root.
    - [Date.now()] is a time value, at most 8.64e15 milliseconds.
    - [sharedCodes] is only read and written by key, so it is a [gmap].
      [pairSessions], [studyGroups] and [globalStudyGroups] are iterated
      ([forEach], [entries]) in insertion order, so they are association
      lists with the [Map] operations written out.
    - The files of the host are a [gset] of paths.  [temp] is a
      directory the server may write to, and a path the server writes is a
      regular file or does not exist; of the ways a write can fail, the
      limit of the host on the length of a file name is modelled.
    - The call handlers touch none of the registries above: they are
      functions of the call table [videoCalls] and of the sockets.  The
      ids of their payloads are text.  The relays of [offer], [answer] and
      [ice-candidate], which keep no state, are left out. *)

From stdpp Require Import base option list strings gmap pretty.
From Stdlib Require Import Ascii.

Open Scope string_scope.
Open Scope list_scope.

(** ** JavaScript values and truthiness *)

(** [x || d] for a possibly missing string: [undefined] and the empty
    string are falsy. *)
Definition truthy (x : option string) : bool :=
  match x with
  | Some s => negb (String.eqb s "")
  | None => false
  end.

Definition or_default (x : option string) (d : string) : string :=
  match x with
  | Some s => if String.eqb s "" then d else s
  | None => d
  end.

(** [a || b] on two strings. *)
Definition str_or (a b : string) : string :=
  if String.eqb a "" then b else a.

(** ** [Map]: insertion-ordered association lists *)

Section JsMap.
Context {V : Type}.

Fixpoint map_get (k : string) (m : list (string * V)) : option V :=
  match m with
  | [] => None
  | (k', v) :: m' => if String.eqb k k' then Some v else map_get k m'
  end.

Definition map_has (k : string) (m : list (string * V)) : bool :=
  match map_get k m with Some _ => true | None => false end.

(** [set] overwrites the value of a present key where it stands and
    appends a new key at the end. *)
Fixpoint map_set (k : string) (v : V) (m : list (string * V))
  : list (string * V) :=
  match m with
  | [] => [(k, v)]
  | (k', v') :: m' =>
      if String.eqb k k' then (k, v) :: m' else (k', v') :: map_set k v m'
  end.

Fixpoint map_delete (k : string) (m : list (string * V))
  : list (string * V) :=
  match m with
  | [] => []
  | (k', v') :: m' =>
      if String.eqb k k' then m' else (k', v') :: map_delete k m'
  end.

End JsMap.

(** ** The regular expression of [extractJavaClassName] *)

(** [\s] without the [u] flag, on code units below 256: tab, line feed,
    vertical tab, form feed, carriage return, space, no-break space. *)
Definition is_space (c : ascii) : bool :=
  let n := nat_of_ascii c in
  (((9 <=? n) && (n <=? 13)) || (n =? 32) || (n =? 160))%nat.

(** [\w] is [[A-Za-z0-9_]]. *)
Definition is_word (c : ascii) : bool :=
  let n := nat_of_ascii c in
  (((48 <=? n) && (n <=? 57)) || ((65 <=? n) && (n <=? 90))
   || (n =? 95) || ((97 <=? n) && (n <=? 122)))%nat.

(** [strip_prefix p s] is the rest of [s] after the literal [p]. *)
Fixpoint strip_prefix (p s : string) : option string :=
  match p with
  | EmptyString => Some s
  | String a p' =>
      match s with
      | EmptyString => None
      | String b s' => if Ascii.eqb a b then strip_prefix p' s' else None
      end
  end.

Fixpoint take_while (f : ascii -> bool) (s : string) : string :=
  match s with
  | EmptyString => EmptyString
  | String c s' => if f c then String c (take_while f s') else EmptyString
  end.

Fixpoint drop_while (f : ascii -> bool) (s : string) : string :=
  match s with
  | EmptyString => EmptyString
  | String c s' => if f c then drop_while f s' else s
  end.

(** A greedy [X+] over a character class: the longest run, which must not
    be empty.  What follows each [+] of the pattern starts with a
    character outside the class, so backtracking into a shorter run never
    yields a match the longest run does not. *)
Definition class_plus (f : ascii -> bool) (s : string)
  : option (string * string) :=
  match take_while f s with
  | EmptyString => None
  | run => Some (run, drop_while f s)
  end.

(** [/public\s+class\s+(\w+)/] tried at the start of [s]; the result is
    capture group 1. *)
Definition match_here (s : string) : option string :=
  r1 ← strip_prefix "public" s;
  '(_, r2) ← class_plus is_space r1;
  r3 ← strip_prefix "class" r2;
  '(_, r4) ← class_plus is_space r3;
  '(w, _) ← class_plus is_word r4;
  Some w.

(** [code.match(re)]: the match at the leftmost position that has one. *)
Fixpoint regex_match (s : string) : option string :=
  match match_here s with
  | Some w => Some w
  | None =>
      match s with
      | EmptyString => None
      | String _ s' => regex_match s'
      end
  end.

Definition extractJavaClassName (code : string) : string :=
  match regex_match code with
  | Some w => w
  | None => "Main"
  end.

(** *** What the pattern means

    The declarative reading of the pattern, against which the matcher
    above is checked. *)

Fixpoint string_forall (f : ascii → bool) (s : string) : bool :=
  match s with
  | EmptyString => true
  | String c s' => f c && string_forall f s'
  end.

(** [s] does not go on with a character of the class [f]. *)
Definition class_ends (f : ascii → bool) (s : string) : bool :=
  match s with
  | EmptyString => true
  | String c _ => negb (f c)
  end.

(** [s] starts with [public], white space, [class], white space and the
    word [w], taken to its end. *)
Definition declares_here (s w : string) : Prop :=
  ∃ ws1 ws2 rest,
    s = "public" +:+ ws1 +:+ "class" +:+ ws2 +:+ w +:+ rest
    ∧ ws1 ≠ "" ∧ string_forall is_space ws1 = true
    ∧ ws2 ≠ "" ∧ string_forall is_space ws2 = true
    ∧ w ≠ "" ∧ string_forall is_word w = true
    ∧ class_ends is_word rest = true.

(** [w] is the class name of the first [public class] declaration of
    [code]: no declaration starts further left. *)
Definition first_public_class (code w : string) : Prop :=
  ∃ before decl,
    code = before +:+ decl ∧ declares_here decl w
    ∧ ∀ before' decl' w',
        code = before' +:+ decl' →
        String.length before' < String.length before →
        ¬ declares_here decl' w'.

Definition no_public_class (code : string) : Prop :=
  ∀ before decl w, code = before +:+ decl → ¬ declares_here decl w.

(** ** File system *)

(** The paths that exist.  [unlinkSync] throws when the path does not
    exist and [writeFileSync] when the name of the file is too long; the
    handlers catch some of what is thrown, so an exception is a value. *)
Definition Fs := gset string.

Inductive result (A : Type) : Type :=
  | Ok (a : A)
  | Throw (msg : string).
Arguments Ok {A} a.
Arguments Throw {A} msg.

(** Computations on the file system that may throw; the state reached
    before the throw is kept. *)
Definition FsM (A : Type) : Type := Fs → Fs * result A.

Definition fs_ret {A} (a : A) : FsM A := λ fs, (fs, Ok a).

(** [throw] *)
Definition fs_throw {A} (e : string) : FsM A := λ fs, (fs, Throw e).

Definition fs_bind {A B} (m : FsM A) (k : A → FsM B) : FsM B :=
  λ fs, match m fs with
        | (fs', Ok a) => k a fs'
        | (fs', Throw e) => (fs', Throw e)
        end.

Notation "x ←ᶠ m ;; k" := (fs_bind m (λ x, k))
  (at level 100, m at next level, right associativity).
Notation "m ;;ᶠ k" := (fs_bind m (λ _, k))
  (at level 100, right associativity).

(** [try { m } catch (e) { console.log(...) }] *)
Definition try_catch (m : FsM unit) : FsM unit :=
  λ fs, match m fs with
        | (fs', _) => (fs', Ok tt)
        end.

Definition existsSync (p : string) : FsM bool :=
  λ fs, (fs, Ok (bool_decide (p ∈ fs))).

Definition mkdirSync (p : string) : FsM unit :=
  λ fs, if bool_decide (p ∈ fs)
        then (fs, Throw "EEXIST")
        else ({[p]} ∪ fs, Ok tt).

Definition unlinkSync (p : string) : FsM unit :=
  λ fs, if bool_decide (p ∈ fs)
        then (fs ∖ {[p]}, Ok tt)
        else (fs, Throw "ENOENT").

Definition fs_when (b : bool) (m : FsM unit) : FsM unit :=
  if b then m else fs_ret tt.

(** ** Responses of the HTTP handlers *)

Record Snippet := {
  sn_code : option string;
  sn_language : option string;
  sn_title : string;
  sn_createdAt : N
}.

Record GroupInfo := {
  gi_id : string;
  gi_name : string;
  gi_userCount : nat;
  gi_createdAt : N
}.

Inductive Body :=
  | BError (error : string)
  | BRun (success : bool) (output : string) (error : bool)
  | BShared (codeId shareUrl : string)
  | BSnippet (s : Snippet)
  | BGroups (groups : list GroupInfo)
  | BGroupCreated (groupId name : string).

Record Response := { status : nat; body : Body }.

(** [res.json(b)] and [res.status(n).json(b)] *)
Definition res_json (b : Body) : Response := {| status := 200; body := b |}.
Definition res_status_json (n : nat) (b : Body) : Response :=
  {| status := n; body := b |}.

Definition newline : string := String (ascii_of_nat 10) "".
Definition dquote : string := String (ascii_of_nat 34) "".

(** ** Temp workspace and the [/api/run] handler *)

Record TempFile := {
  filePath : string;
  fileName : string;
  className : option string
}.

(** What the exec callback receives: [error] is [null] or an [Error] with
    a [message]. *)
Record ExecArgs := {
  cb_error : option string;
  cb_stdout : string;
  cb_stderr : string
}.

(** How the spawned shell ended: its exit code ([None] when a signal
    killed it, as the 10 s timeout does) and what it wrote. *)
Record Process := {
  exit_code : option Z;
  proc_stdout : string;
  proc_stderr : string
}.

Inductive Stream := Stdout | Stderr.

Definition stream_name (stream : Stream) : string :=
  match stream with
  | Stdout => "stdout"
  | Stderr => "stderr"
  end.

(** How a call of [child_process.exec] ends.
    - [Ended p]: the shell ran to its end, or the timeout killed it, and
      neither of its outputs passed [maxBuffer] (1 MiB, no option of the
      call changes it).
    - [Overflowed stream stdout stderr]: the output on [stream] passed
      [maxBuffer]; [exec] kills the shell and hands over what it has
      collected, the overflowing stream cut at the limit.
    - [SpawnFailed message]: the shell could not be started; nothing was
      written.
    A run whose output passes [maxBuffer] is an [Overflowed] and no
    [Ended], whatever its exit code would have been. *)
Inductive Outcome :=
  | Ended (p : Process)
  | Overflowed (stream : Stream) (stdout stderr : string)
  | SpawnFailed (message : string).

Coercion Ended : Process >-> Outcome.

(** What [exec] passes to its callback.  [error] is [null] exactly when
    the shell ended with exit code 0 within [maxBuffer].  When the shell
    ended otherwise, [error.message] is
    [Command failed: <command>\n<stderr>]; when an output passed
    [maxBuffer] it is [<stream> maxBuffer length exceeded]; when the shell
    could not be started it is the message of the system error. *)
Definition exec_callback (command : string) (o : Outcome) : ExecArgs :=
  match o with
  | Ended p =>
      {| cb_error :=
           match exit_code p with
           | Some 0%Z => None
           | _ => Some ("Command failed: " +:+ command +:+ newline
                        +:+ proc_stderr p)
           end;
         cb_stdout := proc_stdout p;
         cb_stderr := proc_stderr p |}
  | Overflowed stream stdout stderr =>
      {| cb_error :=
           Some (stream_name stream +:+ " maxBuffer length exceeded");
         cb_stdout := stdout;
         cb_stderr := stderr |}
  | SpawnFailed message =>
      {| cb_error := Some message; cb_stdout := ""; cb_stderr := "" |}
  end.

(** [Date.now()]: a time value, a number of milliseconds that is at most
    8.64e15. *)
Definition MAX_TIME : N := 8640000000000000.

Record Time := {
  time_ms : N;
  time_ok : (time_ms <=? MAX_TIME)%N = true
}.

Definition clock_ok (n : N) : (N.min n MAX_TIME <=? MAX_TIME)%N = true :=
  proj2 (N.leb_le (N.min n MAX_TIME) MAX_TIME) (N.le_min_r n MAX_TIME).

(** A number of milliseconds read as a time value. *)
Definition clock (n : N) : Time :=
  {| time_ms := N.min n MAX_TIME; time_ok := clock_ok n |}.

Coercion clock : N >-> Time.
Bind Scope N_scope with Time.

(** [`${Date.now()}`] *)
Global Instance pretty_Time : Pretty Time := λ t, pretty (time_ms t).

(** The length of a name in bytes (UTF-8): a code unit below 128 is one
    byte, one from 128 to 255 is two. *)
Definition utf8_bytes (c : ascii) : nat :=
  if (nat_of_ascii c <? 128)%nat then 1%nat else 2%nat.

Fixpoint byte_length (s : string) : nat :=
  match s with
  | EmptyString => 0%nat
  | String c s' => (utf8_bytes c + byte_length s')%nat
  end.

(** The longest file name the host takes, in bytes: 255 on the file
    systems of Linux, macOS and Windows. *)
Definition NAME_MAX : nat := 255.

(** The methods every object inherits from [Object.prototype]. *)
Definition prototype_methods : list string :=
  ["hasOwnProperty"; "isPrototypeOf"; "propertyIsEnumerable";
   "toLocaleString"; "toString"; "valueOf"; "__defineGetter__";
   "__defineSetter__"; "__lookupGetter__"; "__lookupSetter__"].

(** What the lookup [literal[key]] finds when [key] is no key of the
    object literal itself: the member of that name inherited from
    [Object.prototype], here as the text a template literal shows for it.
    Every such member is an object or a function, hence truthy. *)
Definition inherited (key : string) : option string :=
  if String.eqb key "__proto__" then Some "[object Object]"
  else if String.eqb key "constructor" then
    Some "function Object() { [native code] }"
  else if bool_decide (key ∈ prototype_methods) then
    Some ("function " +:+ key +:+ "() { [native code] }")
  else None.

Inductive RunStep :=
  | Respond (r : Response)
  | Exec (command : string) (tf : TempFile).

(** The keys of the object literal [commands]. *)
Definition supported_languages : list string :=
  ["python"; "javascript"; "java"; "cpp"].

Section Exec.
(** [__dirname] and [process.platform === "win32"] *)
Variable dirname : string.
Variable win32 : bool.

Definition path_sep : ascii := if win32 then "\"%char else "/"%char.

(** [d] ends in a separator. *)
Fixpoint ends_with_sep (d : string) : bool :=
  match d with
  | EmptyString => false
  | String c d' =>
      match d' with
      | EmptyString => Ascii.eqb c path_sep
      | String _ _ => ends_with_sep d'
      end
  end.

(** [path.join(d, f)] for a normalised [d] and a file name [f]: an empty
    [d] is left out and a root keeps its one separator. *)
Definition path_join (d f : string) : string :=
  if String.eqb d "" then f
  else if ends_with_sep d then d +:+ f
  else d +:+ String path_sep f.

(** The part of [p] before its last separator, if it has one. *)
Fixpoint before_last_sep (p : string) : option string :=
  match p with
  | EmptyString => None
  | String c p' =>
      match before_last_sep p' with
      | Some d => Some (String c d)
      | None => if Ascii.eqb c path_sep then Some EmptyString else None
      end
  end.

(** [path.dirname(p)] for a [p] that does not end in a separator. *)
Definition path_dirname (p : string) : string :=
  match before_last_sep p with
  | Some EmptyString => String path_sep ""
  | Some d => d
  | None => "."
  end.

(** The part of [p] after its last separator: the name of the file. *)
Fixpoint path_basename (p : string) : string :=
  match p with
  | EmptyString => EmptyString
  | String c p' =>
      match before_last_sep p' with
      | Some _ => path_basename p'
      | None => if Ascii.eqb c path_sep then p' else p
      end
  end.

(** [fs.writeFileSync(p, code)]: the host refuses a file name that is
    longer than [NAME_MAX]. *)
Definition writeFileSync (p : string) : FsM unit :=
  λ fs, if (NAME_MAX <? byte_length (path_basename p))%nat
        then (fs, Throw "ENAMETOOLONG")
        else ({[p]} ∪ fs, Ok tt).

Definition tempDir : string := path_join dirname "temp".

(** The files once [createTempFile] has made sure of the directory
    [temp]. *)
Definition with_tempDir (fs : Fs) : Fs :=
  if bool_decide (tempDir ∈ fs) then fs else {[tempDir]} ∪ fs.

(** [extensions[language]], as the text the template literal of the file
    name shows for it. *)
Definition extensions (language : string) : option string :=
  if String.eqb language "python" then Some ".py"
  else if String.eqb language "javascript" then Some ".js"
  else if String.eqb language "java" then Some ".java"
  else if String.eqb language "cpp" then Some ".cpp"
  else inherited language.

Definition createTempFile (code language : string) (now : Time)
  : FsM TempFile :=
  present ←ᶠ existsSync tempDir;;
  fs_when (negb present) (mkdirSync tempDir);;ᶠ
  let fileName :=
    "temp_" +:+ pretty now +:+ or_default (extensions language) ".txt" in
  let filePath := path_join tempDir fileName in
  if String.eqb language "java" then
    let className := str_or (extractJavaClassName code) "Main" in
    let javaFileName := className +:+ ".java" in
    let javaFilePath := path_join tempDir javaFileName in
    writeFileSync javaFilePath;;ᶠ
    fs_ret {| filePath := javaFilePath; fileName := javaFileName;
              className := Some className |}
  else
    writeFileSync filePath;;ᶠ
    fs_ret {| filePath := filePath; fileName := fileName;
              className := None |}.

(** [`${x}`] of a possibly undefined [x] *)
Definition interpolate (x : option string) : string :=
  default "undefined" x.

(** What [commands[language]] finds: a command line of the object
    literal, or a member inherited from [Object.prototype], which is
    truthy and no string. *)
Inductive Command :=
  | Shell (command : string)
  | Member.

(** [commands[language]] *)
Definition commands (tf : TempFile) (language : string) : option Command :=
  let quoted s := dquote +:+ s +:+ dquote in
  let cd := "cd " +:+ quoted (path_dirname (filePath tf)) +:+ " && " in
  if String.eqb language "python" then
    Some (Shell ((if win32 then "python " else "python3 ")
                 +:+ quoted (filePath tf)))
  else if String.eqb language "javascript" then
    Some (Shell ("node " +:+ quoted (filePath tf)))
  else if String.eqb language "java" then
    Some (Shell (cd +:+ "javac " +:+ quoted (fileName tf) +:+ " && java "
                 +:+ interpolate (className tf)))
  else if String.eqb language "cpp" then
    Some (Shell (cd +:+ "g++ " +:+ quoted (fileName tf)
                 +:+ (if win32 then " -o output.exe && output.exe"
                      else " -o output && ./output")))
  else (λ _, Member) <$> inherited language.

(** The handler up to the call of [exec].  [exec] throws a [TypeError]
    when its command is no string. *)
Definition run_start (code language : option string) (now : Time)
  : FsM RunStep :=
  if negb (truthy code) || negb (truthy language) then
    fs_ret (Respond (res_status_json 400
                       (BError "Code and language are required")))
  else
    let code := default "" code in
    let language := default "" language in
    tf ←ᶠ createTempFile code language now;;
    match commands tf language with
    | None =>
        fs_ret (Respond (res_status_json 400
                           (BError "Unsupported language")))
    | Some (Shell command) => fs_ret (Exec command tf)
    | Some Member => fs_throw "ERR_INVALID_ARG_TYPE"
    end.

(** The removal of one artifact: [if (fs.existsSync(p)) fs.unlinkSync(p)] *)
Definition unlink_if_exists (p : string) : FsM unit :=
  present ←ᶠ existsSync p;;
  fs_when present (unlinkSync p).

Definition cleanup (language : string) (tf : TempFile) : FsM unit :=
  try_catch (
    unlinkSync (filePath tf);;ᶠ
    fs_when (String.eqb language "cpp")
      (unlink_if_exists (path_join (path_dirname (filePath tf)) "output"));;ᶠ
    fs_when (String.eqb language "java")
      (unlink_if_exists
         (path_join (path_dirname (filePath tf))
                    (interpolate (className tf) +:+ ".class")))).

(** The callback given to [exec]. *)
Definition run_callback (language : string) (tf : TempFile) (a : ExecArgs)
  : FsM Response :=
  cleanup language tf;;ᶠ
  match cb_error a with
  | Some message =>
      fs_ret (res_json (BRun false (str_or (cb_stderr a) message) true))
  | None =>
      fs_ret (res_json
                (BRun true
                   (str_or (cb_stdout a)
                      "Program executed successfully (no output)")
                   false))
  end.

(** One request from arrival to response.  [p] is how the call of [exec]
    ends and [toolchain] is what happened to the files while it ran (the
    artifacts of the compiler, other requests).  A handler that throws
    sends no response of its own. *)
Definition run (code language : option string) (now : Time)
    (p : Outcome) (toolchain : Fs → Fs) : FsM Response :=
  step ←ᶠ run_start code language now;;
  match step with
  | Respond r => fs_ret r
  | Exec command tf =>
      λ fs, run_callback (default "" language) tf
              (exec_callback command p) (toolchain fs)
  end.
End Exec.

(** ** Snippet store: [/api/share] *)

(** [POST /api/share]; [uuid] is what [uuidv4()] returns and [now] is
    [new Date()]. *)
Definition share (code language title : option string) (uuid : string)
    (now : N) (sharedCodes : gmap string Snippet)
  : gmap string Snippet * Response :=
  let codeId := uuid in
  (<[codeId := {| sn_code := code; sn_language := language;
                  sn_title := or_default title "Untitled";
                  sn_createdAt := now |}]> sharedCodes,
   res_json (BShared codeId ("/share/" +:+ codeId))).

(** [GET /api/share/:codeId] *)
Definition get_share (codeId : string) (sharedCodes : gmap string Snippet)
  : Response :=
  match sharedCodes !! codeId with
  | Some sharedCode => res_json (BSnippet sharedCode)
  | None => res_status_json 404 (BError "Shared code not found")
  end.

(** ** Presence registry *)

Record Session := {
  s_code : option string;
  s_language : string;
  s_users : list string
}.

Record User := { u_id : string; u_name : string }.

Record Message := {
  m_id : string;
  m_text : option string;
  m_username : string;
  m_timestamp : N
}.

Record Group := {
  g_id : string;
  g_name : string;
  g_createdAt : N;
  g_users : list User;
  g_code : option string;
  g_language : string;
  g_messages : list Message;
  g_questions : list Message
}.

(** *** The socket.io server *)

(** [sockets] are the connected socket ids, [issued] every id given to a
    connection so far (an id is never given twice), [rooms] the pairs
    (room, socket id) in the order of joining. *)
Record Io := {
  sockets : list string;
  issued : list string;
  rooms : list (string * string)
}.

Inductive Payload :=
  | PSessionState (code : option string) (language : string)
  | PSocketId (id : string)
  | PCodeUpdate (code language : option string)
  | PGroupState (code : option string) (language : string)
      (messages questions : list Message) (users : list User)
      (groupName : string)
  | PUser (u : User)
  | PGroupUpdated (id : string) (userCount : nat)
  | PMessage (m : Message)
  | PGroupId (id : string).

(** One event delivered to one socket. *)
Record Emit := { e_to : string; e_event : string; e_payload : Payload }.

Definition room_sockets (room : string) (io : Io) : list string :=
  (filter (λ p, p.1 = room) (rooms io)).*2.

Definition deliver (event : string) (payload : Payload) (to : list string)
  : list Emit :=
  (λ r, {| e_to := r; e_event := event; e_payload := payload |}) <$> to.

(** [socket.emit(event, payload)] *)
Definition socket_emit (sid event : string) (payload : Payload)
  : list Emit :=
  deliver event payload [sid].

(** [socket.to(room).emit(event, payload)]: the room without the socket *)
Definition socket_to_emit (io : Io) (sid room event : string)
    (payload : Payload) : list Emit :=
  deliver event payload (filter (λ r, r ≠ sid) (room_sockets room io)).

(** [io.to(room).emit(event, payload)]: the whole room *)
Definition io_to_emit (io : Io) (room event : string) (payload : Payload)
  : list Emit :=
  deliver event payload (room_sockets room io).

(** [io.emit(event, payload)]: every connected socket *)
Definition io_emit (io : Io) (event : string) (payload : Payload)
  : list Emit :=
  deliver event payload (sockets io).

(** [socket.join(room)] *)
Definition socket_join (sid room : string) (io : Io) : Io :=
  {| sockets := sockets io;
     issued := issued io;
     rooms := if bool_decide ((room, sid) ∈ rooms io) then rooms io
              else rooms io ++ [(room, sid)] |}.

(** A new connection: the socket starts in the room named by its id. *)
Definition io_connect (sid : string) (io : Io) : Io :=
  {| sockets := sockets io ++ [sid];
     issued := issued io ++ [sid];
     rooms := rooms io ++ [(sid, sid)] |}.

(** The socket has left every room when its [disconnect] handler runs. *)
Definition io_disconnect (sid : string) (io : Io) : Io :=
  {| sockets := filter (λ r, r ≠ sid) (sockets io);
     issued := issued io;
     rooms := filter (λ p, p.2 ≠ sid) (rooms io) |}.

(** *** Server state *)

(** Both study-group maps hold references to group objects; [groups] is
    the store of these objects and a reference is an index into it. *)
Record State := {
  sharedCodes : gmap string Snippet;
  pairSessions : list (string * Session);
  groups : list Group;
  studyGroups : list (string * nat);
  globalStudyGroups : list (string * nat);
  io : Io
}.

Definition init : State :=
  {| sharedCodes := ∅; pairSessions := []; groups := [];
     studyGroups := []; globalStudyGroups := [];
     io := {| sockets := []; issued := []; rooms := [] |} |}.

Definition with_sharedCodes (x : gmap string Snippet) (s : State) : State :=
  {| sharedCodes := x; pairSessions := pairSessions s; groups := groups s;
     studyGroups := studyGroups s;
     globalStudyGroups := globalStudyGroups s; io := io s |}.

Definition with_pairSessions (x : list (string * Session)) (s : State)
  : State :=
  {| sharedCodes := sharedCodes s; pairSessions := x; groups := groups s;
     studyGroups := studyGroups s;
     globalStudyGroups := globalStudyGroups s; io := io s |}.

Definition with_groups (x : list Group) (s : State) : State :=
  {| sharedCodes := sharedCodes s; pairSessions := pairSessions s;
     groups := x; studyGroups := studyGroups s;
     globalStudyGroups := globalStudyGroups s; io := io s |}.

Definition with_studyGroups (x : list (string * nat)) (s : State) : State :=
  {| sharedCodes := sharedCodes s; pairSessions := pairSessions s;
     groups := groups s; studyGroups := x;
     globalStudyGroups := globalStudyGroups s; io := io s |}.

Definition with_globalStudyGroups (x : list (string * nat)) (s : State)
  : State :=
  {| sharedCodes := sharedCodes s; pairSessions := pairSessions s;
     groups := groups s; studyGroups := studyGroups s;
     globalStudyGroups := x; io := io s |}.

Definition with_io (x : Io) (s : State) : State :=
  {| sharedCodes := sharedCodes s; pairSessions := pairSessions s;
     groups := groups s; studyGroups := studyGroups s;
     globalStudyGroups := globalStudyGroups s; io := x |}.

(** Field updates of the objects held by the registries. *)
Definition session_with_users (u : list string) (x : Session) : Session :=
  {| s_code := s_code x; s_language := s_language x; s_users := u |}.

Definition group_with_users (u : list User) (g : Group) : Group :=
  {| g_id := g_id g; g_name := g_name g; g_createdAt := g_createdAt g;
     g_users := u; g_code := g_code g; g_language := g_language g;
     g_messages := g_messages g; g_questions := g_questions g |}.

Definition group_with_document (code : option string) (language : string)
    (g : Group) : Group :=
  {| g_id := g_id g; g_name := g_name g; g_createdAt := g_createdAt g;
     g_users := g_users g; g_code := code; g_language := language;
     g_messages := g_messages g; g_questions := g_questions g |}.

Definition group_with_messages (m : list Message) (g : Group) : Group :=
  {| g_id := g_id g; g_name := g_name g; g_createdAt := g_createdAt g;
     g_users := g_users g; g_code := g_code g; g_language := g_language g;
     g_messages := m; g_questions := g_questions g |}.

Definition group_with_questions (q : list Message) (g : Group) : Group :=
  {| g_id := g_id g; g_name := g_name g; g_createdAt := g_createdAt g;
     g_users := g_users g; g_code := g_code g; g_language := g_language g;
     g_messages := g_messages g; g_questions := q |}.

Definition default_session : Session :=
  {| s_code := Some ("// Welcome to pair programming!" +:+ newline
                     +:+ "// Start coding together...");
     s_language := "javascript";
     s_users := [] |}.

Definition new_group (groupId name : string) (now : N) : Group :=
  {| g_id := groupId; g_name := name; g_createdAt := now; g_users := [];
     g_code := Some ("// Welcome to the study group!" +:+ newline
                     +:+ "// Collaborate and learn together...");
     g_language := "javascript"; g_messages := []; g_questions := [] |}.

(** The group object a study-group id stands for in the live registry. *)
Definition live_group (groupId : string) (s : State) : option Group :=
  ref ← map_get groupId (studyGroups s);
  groups s !! ref.

(** *** HTTP handlers of the group directory *)

(** [GET /api/groups] *)
Definition list_groups (s : State) : list GroupInfo :=
  omap (λ '(id, ref),
          group ← groups s !! ref;
          Some {| gi_id := id; gi_name := g_name group;
                  gi_userCount := length (g_users group);
                  gi_createdAt := g_createdAt group |})
       (globalStudyGroups s).

Definition api_groups (s : State) : Response :=
  res_json (BGroups (list_groups s)).

(** [POST /api/groups]; [uuid] is what [uuidv4()] returns. *)
Definition create_group (name : option string) (uuid : string) (now : N)
    (s : State) : State * Response :=
  let groupId := String.substring 0 8 uuid in
  let newGroup :=
    new_group groupId (or_default name ("Study Group " +:+ groupId)) now in
  let ref := length (groups s) in
  let s := with_groups (groups s ++ [newGroup]) s in
  let s := with_globalStudyGroups
             (map_set groupId ref (globalStudyGroups s)) s in
  let s := with_studyGroups (map_set groupId ref (studyGroups s)) s in
  (s, res_json (BGroupCreated groupId (g_name newGroup))).

(** *** Socket handlers *)

(** [l.findIndex(f)], [None] for [-1] *)
Fixpoint findIndex {A} (f : A → bool) (l : list A) : option nat :=
  match l with
  | [] => None
  | x :: l' => if f x then Some 0 else S <$> findIndex f l'
  end.

(** [l.indexOf(x)] *)
Definition indexOf (x : string) (l : list string) : option nat :=
  findIndex (String.eqb x) l.

(** [l.splice(i, 1)] *)
Definition splice1 {A} (i : nat) (l : list A) : list A := delete i l.

Definition join_pair_session (sid sessionId : string) (s : State)
  : State * list Emit :=
  let s := with_io (socket_join sid sessionId (io s)) s in
  let s :=
    if negb (map_has sessionId (pairSessions s)) then
      with_pairSessions
        (map_set sessionId default_session (pairSessions s)) s
    else s in
  match map_get sessionId (pairSessions s) with
  | None => (s, [])
  | Some session =>
      let session := session_with_users (s_users session ++ [sid]) session in
      let s := with_pairSessions
                 (map_set sessionId session (pairSessions s)) s in
      (s,
       socket_emit sid "session-state"
         (PSessionState (s_code session) (s_language session))
       ++ socket_to_emit (io s) sid sessionId "user-joined" (PSocketId sid))
  end.

Definition code_change (sid sessionId : string) (code language : option string)
    (s : State) : State * list Emit :=
  match map_get sessionId (pairSessions s) with
  | Some session =>
      let session :=
        {| s_code := code;
           s_language := or_default language (s_language session);
           s_users := s_users session |} in
      (with_pairSessions (map_set sessionId session (pairSessions s)) s,
       socket_to_emit (io s) sid sessionId "code-update"
         (PCodeUpdate code language))
  | None => (s, [])
  end.

Definition join_study_group (sid groupId : string) (now : N) (s : State)
  : State * list Emit :=
  let s := with_io (socket_join sid groupId (io s)) s in
  let '(s, ref) :=
    match map_get groupId (globalStudyGroups s) with
    | Some ref =>
        (if negb (map_has groupId (studyGroups s)) then
           with_studyGroups (map_set groupId ref (studyGroups s)) s
         else s, ref)
    | None =>
        let ref := length (groups s) in
        let group := new_group groupId ("Study Group " +:+ groupId) now in
        let s := with_groups (groups s ++ [group]) s in
        let s := with_globalStudyGroups
                   (map_set groupId ref (globalStudyGroups s)) s in
        let s := with_studyGroups (map_set groupId ref (studyGroups s)) s in
        (s, ref)
    end in
  match groups s !! ref with
  | None => (s, [])
  | Some group =>
      let user :=
        {| u_id := sid;
           u_name := "User" +:+ pretty (length (g_users group) + 1) |} in
      let group := group_with_users (g_users group ++ [user]) group in
      let s := with_groups (<[ref := group]> (groups s)) s in
      (s,
       socket_emit sid "group-state"
         (PGroupState (g_code group) (g_language group) (g_messages group)
            (g_questions group) (g_users group) (g_name group))
       ++ socket_to_emit (io s) sid groupId "user-joined-group"
            (PUser {| u_id := sid;
                      u_name := "User" +:+ pretty (length (g_users group)) |})
       ++ io_emit (io s) "group-updated"
            (PGroupUpdated groupId (length (g_users group))))
  end.

Definition group_code_change (sid groupId : string)
    (code language : option string) (s : State) : State * list Emit :=
  match map_get groupId (studyGroups s) with
  | Some ref =>
      match groups s !! ref with
      | None => (s, [])
      | Some group =>
          let group :=
            group_with_document code
              (or_default language (g_language group)) group in
          (with_groups (<[ref := group]> (groups s)) s,
           socket_to_emit (io s) sid groupId "group-code-update"
             (PCodeUpdate code language))
      end
  | None => (s, [])
  end.

Definition send_message (sid groupId : string)
    (message username : option string) (uuid : string) (now : N) (s : State)
  : State * list Emit :=
  match map_get groupId (studyGroups s) with
  | Some ref =>
      match groups s !! ref with
      | None => (s, [])
      | Some group =>
          let msgData :=
            {| m_id := uuid; m_text := message;
               m_username := or_default username "Anonymous";
               m_timestamp := now |} in
          let group :=
            group_with_messages (g_messages group ++ [msgData]) group in
          (with_groups (<[ref := group]> (groups s)) s,
           io_to_emit (io s) groupId "new-message" (PMessage msgData))
      end
  | None => (s, [])
  end.

Definition add_question (sid groupId : string)
    (question username : option string) (uuid : string) (now : N) (s : State)
  : State * list Emit :=
  match map_get groupId (studyGroups s) with
  | Some ref =>
      match groups s !! ref with
      | None => (s, [])
      | Some group =>
          let questionData :=
            {| m_id := uuid; m_text := question;
               m_username := or_default username "Anonymous";
               m_timestamp := now |} in
          let group :=
            group_with_questions (g_questions group ++ [questionData]) group in
          (with_groups (<[ref := group]> (groups s)) s,
           io_to_emit (io s) groupId "new-question" (PMessage questionData))
      end
  | None => (s, [])
  end.

(** The callback of [pairSessions.forEach] in the disconnect handler. *)
Definition disconnect_session (sid : string) (acc : State * list Emit)
    (entry : string * Session) : State * list Emit :=
  let '(s, out) := acc in
  let '(sessionId, _) := entry in
  match map_get sessionId (pairSessions s) with
  | None => acc
  | Some session =>
      match indexOf sid (s_users session) with
      | None => acc
      | Some userIndex =>
          let session :=
            session_with_users (splice1 userIndex (s_users session)) session in
          (with_pairSessions (map_set sessionId session (pairSessions s)) s,
           out ++ socket_to_emit (io s) sid sessionId "user-left"
                    (PSocketId sid))
      end
  end.

(** The callback of [studyGroups.forEach] in the disconnect handler. *)
Definition disconnect_group (sid : string) (acc : State * list Emit)
    (entry : string * nat) : State * list Emit :=
  let '(s, out) := acc in
  let '(groupId, ref) := entry in
  match groups s !! ref with
  | None => acc
  | Some group =>
      match findIndex (λ user, String.eqb (u_id user) sid) (g_users group) with
      | None => acc
      | Some userIndex =>
          match g_users group !! userIndex with
          | None => acc
          | Some user =>
              let group :=
                group_with_users (splice1 userIndex (g_users group)) group in
              let s := with_groups (<[ref := group]> (groups s)) s in
              let out :=
                out
                ++ socket_to_emit (io s) sid groupId "user-left-group"
                     (PUser user)
                ++ io_emit (io s) "group-updated"
                     (PGroupUpdated groupId (length (g_users group))) in
              if Nat.eqb (length (g_users group)) 0 then
                let s := with_globalStudyGroups
                           (map_delete groupId (globalStudyGroups s)) s in
                let s := with_studyGroups
                           (map_delete groupId (studyGroups s)) s in
                (s, out ++ io_emit (io s) "group-removed" (PGroupId groupId))
              else (s, out)
          end
      end
  end.

(** The disconnect handler.  Each [forEach] visits the entries present
    when it starts: its callback adds no entry and deletes none but the
    one it is visiting. *)
Definition disconnect (sid : string) (s : State) : State * list Emit :=
  let s := with_io (io_disconnect sid (io s)) s in
  let acc := foldl (disconnect_session sid) (s, []) (pairSessions s) in
  foldl (disconnect_group sid) acc (studyGroups acc.1).

(** *** Runs of the server *)

Inductive Event :=
  | EConnect (sid : string)
  | EJoinPairSession (sid sessionId : string)
  | ECodeChange (sid sessionId : string) (code language : option string)
  | EJoinStudyGroup (sid groupId : string) (now : N)
  | EGroupCodeChange (sid groupId : string) (code language : option string)
  | ESendMessage (sid groupId : string) (message username : option string)
      (uuid : string) (now : N)
  | EAddQuestion (sid groupId : string) (question username : option string)
      (uuid : string) (now : N)
  | EDisconnect (sid : string)
  | ECreateGroup (name : option string) (uuid : string) (now : N)
  | EShare (code language title : option string) (uuid : string) (now : N).

Definition handle (e : Event) (s : State) : State :=
  match e with
  | EConnect sid => with_io (io_connect sid (io s)) s
  | EJoinPairSession sid sessionId => (join_pair_session sid sessionId s).1
  | ECodeChange sid sessionId code language =>
      (code_change sid sessionId code language s).1
  | EJoinStudyGroup sid groupId now => (join_study_group sid groupId now s).1
  | EGroupCodeChange sid groupId code language =>
      (group_code_change sid groupId code language s).1
  | ESendMessage sid groupId message username uuid now =>
      (send_message sid groupId message username uuid now s).1
  | EAddQuestion sid groupId question username uuid now =>
      (add_question sid groupId question username uuid now s).1
  | EDisconnect sid => (disconnect sid s).1
  | ECreateGroup name uuid now => (create_group name uuid now s).1
  | EShare code language title uuid now =>
      with_sharedCodes
        (share code language title uuid now (sharedCodes s)).1 s
  end.

(** What the environment guarantees when an event arrives: a new
    connection has an id never issued before, a socket event comes from a
    connected socket, and [uuidv4] does not repeat a snippet id. *)
Definition enabled (e : Event) (s : State) : Prop :=
  match e with
  | EConnect sid => sid ∉ issued (io s)
  | EJoinPairSession sid _ | ECodeChange sid _ _ _
  | EJoinStudyGroup sid _ _ | EGroupCodeChange sid _ _ _
  | ESendMessage sid _ _ _ _ _ | EAddQuestion sid _ _ _ _ _
  | EDisconnect sid => sid ∈ sockets (io s)
  | ECreateGroup _ _ _ => True
  | EShare _ _ _ uuid _ => sharedCodes s !! uuid = None
  end.

(** [execution tr s]: the events [tr], oldest first, lead from the start
    of the process to [s]. *)
Inductive execution : list Event → State → Prop :=
  | exec_init : execution [] init
  | exec_step tr s e :
      execution tr s → enabled e s → execution (tr ++ [e]) (handle e s).

(** [run_events tr s]: the state after the events [tr] from [s]. *)
Definition run_events (tr : list Event) (s : State) : State :=
  foldl (λ s e, handle e s) s tr.

(** *** What a socket receives *)

(** The payloads of the events named [event] that [out] delivers to the
    socket [sid], in order. *)
Definition received (sid event : string) (out : list Emit) : list Payload :=
  e_payload <$>
    filter (λ e, e_to e = sid ∧ e_event e = event) out.

(** [e] is a [code-change] for the pair session [sessionId]. *)
Definition changes_session (sessionId : string) (e : Event) : bool :=
  match e with
  | ECodeChange _ id _ _ => String.eqb id sessionId
  | _ => false
  end.

(** The document of a pair session. *)
Definition session_document (sessionId : string) (s : State)
  : option (option string * string) :=
  (λ session, (s_code session, s_language session))
    <$> map_get sessionId (pairSessions s).

(** *** The shape of the states the server reaches *)

(** The two study-group maps hold the same references under the same ids,
    each reference under one id and to an object of the store. *)
Record directory_wf (s : State) : Prop := {
  wf_same : studyGroups s = globalStudyGroups s;
  wf_keys : NoDup (studyGroups s).*1;
  wf_refs : NoDup (studyGroups s).*2;
  wf_bound : ∀ k r, (k, r) ∈ studyGroups s → r < length (groups s)
}.

(** Every member of a room was issued its id by the server and, while it
    is connected, is in the socket.io room of that name. *)
Record members_wf (s : State) : Prop := {
  wf_sockets : ∀ sid, sid ∈ sockets (io s) → sid ∈ issued (io s);
  wf_session_users :
    ∀ k session u,
      map_get k (pairSessions s) = Some session → u ∈ s_users session →
      u ∈ issued (io s) ∧ (u ∈ sockets (io s) → (k, u) ∈ rooms (io s));
  wf_group_users :
    ∀ k r g u,
      (k, r) ∈ studyGroups s → groups s !! r = Some g → u ∈ g_users g →
      u_id u ∈ issued (io s)
      ∧ (u_id u ∈ sockets (io s) → (k, u_id u) ∈ rooms (io s))
}.

#[global] Instance enabled_dec e s : Decision (enabled e s).
Proof. destruct e; simpl; apply _. Defined.

(** [valid_from tr s]: each event of [tr] is enabled when it arrives. *)
Fixpoint valid_from (tr : list Event) (s : State) : bool :=
  match tr with
  | [] => true
  | e :: tr' => bool_decide (enabled e s) && valid_from tr' (handle e s)
  end.

(** ** The [/api/analyze] handler *)

(** [\d] is [[0-9]]. *)
Definition is_digit (c : ascii) : bool :=
  let n := nat_of_ascii c in
  ((48 <=? n) && (n <=? 57))%nat.

(** The two forms of an ASCII letter; under the [i] flag, without [u], no
    character beyond ASCII matches an ASCII letter. *)
Definition ascii_upper (c : ascii) : ascii :=
  let n := nat_of_ascii c in
  if ((97 <=? n) && (n <=? 122))%nat then ascii_of_nat (n - 32) else c.

(** [strip_prefix] under the [i] flag. *)
Fixpoint strip_prefix_ci (p s : string) : option string :=
  match p with
  | EmptyString => Some s
  | String a p' =>
      match s with
      | EmptyString => None
      | String b s' =>
          if Ascii.eqb (ascii_upper a) (ascii_upper b)
          then strip_prefix_ci p' s' else None
      end
  end.

(** [s.match(re)] for a pattern given by its matcher at one position: the
    match at the leftmost position that has one. *)
Fixpoint search_first (here : string → option string) (s : string)
  : option string :=
  match here s with
  | Some w => Some w
  | None =>
      match s with
      | EmptyString => None
      | String _ s' => search_first here s'
      end
  end.

(** [/(line (\d+))/i] at the start of [s]; the result is group 2. *)
Definition line_here (s : string) : option string :=
  r ← strip_prefix_ci "line " s;
  '(digits, _) ← class_plus is_digit r;
  Some digits.

(** [/:(\d+):/] at the start of [s]; the result is group 1.  The digits
    must run up to the closing colon, so only the longest run can match. *)
Definition colon_here (s : string) : option string :=
  r ← strip_prefix ":" s;
  '(digits, r') ← class_plus is_digit r;
  _ ← strip_prefix ":" r';
  Some digits.

(** [errMsg.match(/(line (\d+))/i) || errMsg.match(/:(\d+):/)] followed by
    [lineMatch[2] || lineMatch[1]]: group 2 of the first pattern is a run
    of digits, hence truthy, and the second pattern has no group 2. *)
Definition line_number (errMsg : string) : option string :=
  match search_first line_here errMsg with
  | Some digits => Some digits
  | None => search_first colon_here errMsg
  end.

Definition line_info (errMsg : string) : string :=
  match line_number errMsg with
  | Some digits => " (line " +:+ digits +:+ ")"
  | None => ""
  end.

(** [s.trim()]: the white space stripped is that of [\s]. *)
Fixpoint trim_end (s : string) : string :=
  match s with
  | EmptyString => EmptyString
  | String c s' =>
      match trim_end s' with
      | EmptyString => if is_space c then EmptyString else String c EmptyString
      | t => String c t
      end
  end.

Definition trim (s : string) : string := trim_end (drop_while is_space s).

(** What [/api/analyze] answers: [{error}] with a status, or
    [{success, output}]. *)
Inductive AnalyzeResponse :=
  | AError (status : nat) (error : string)
  | AResult (success : bool) (output : string).

Inductive AnalyzeStep :=
  | ARespond (r : AnalyzeResponse)
  | AExec (command : string) (tf : TempFile).

Section Analyze.
Variable dirname : string.
Variable win32 : bool.

(** The handler up to the call of [exec].  The [readFileSync] between the
    two only feeds [console.log] and is left out. *)
Definition analyze_start (code language : option string) (now : Time)
  : FsM AnalyzeStep :=
  if negb (truthy code) || negb (truthy language) then
    fs_ret (ARespond (AError 400 "Code and language are required"))
  else
    let code := default "" code in
    let language := default "" language in
    tf ←ᶠ createTempFile dirname win32 code language now;;
    if String.eqb language "javascript" then
      fs_ret (AExec ("node " +:+ dquote +:+ filePath tf +:+ dquote) tf)
    else if String.eqb language "python" then
      fs_ret (AExec ("python " +:+ dquote +:+ filePath tf +:+ dquote) tf)
    else
      unlinkSync (filePath tf);;ᶠ
      fs_ret (ARespond
                (AError 400
                   "Analysis only supported for JavaScript and Python")).

(** The callback given to [exec]. *)
Definition analyze_callback (tf : TempFile) (a : ExecArgs)
  : FsM AnalyzeResponse :=
  try_catch (unlinkSync (filePath tf));;ᶠ
  if negb (String.eqb (cb_stderr a) "")
     && negb (String.eqb (trim (cb_stderr a)) "") then
    let errMsg := cb_stderr a in
    fs_ret (AResult false ("Error" +:+ line_info errMsg +:+ ": " +:+ errMsg))
  else
    match cb_error a with
    | Some errMsg =>
        fs_ret (AResult false
                  ("Error" +:+ line_info errMsg +:+ ": " +:+ errMsg))
    | None => fs_ret (AResult true "Code is valid!")
    end.

(** One request from arrival to response, as [run]. *)
Definition analyze (code language : option string) (now : Time)
    (p : Outcome) (toolchain : Fs → Fs) : FsM AnalyzeResponse :=
  step ←ᶠ analyze_start code language now;;
  match step with
  | ARespond r => fs_ret r
  | AExec command tf =>
      λ fs, analyze_callback tf (exec_callback command p) (toolchain fs)
  end.
End Analyze.

(** *** What the line patterns mean *)

Fixpoint string_upper (s : string) : string :=
  match s with
  | EmptyString => EmptyString
  | String c s' => String (ascii_upper c) (string_upper s')
  end.

(** [s] starts with [line ] in any letter case and the number [d], taken
    to its end. *)
Definition line_mark (s d : string) : Prop :=
  ∃ word rest,
    s = word +:+ d +:+ rest ∧ string_upper word = "LINE "
    ∧ d ≠ "" ∧ string_forall is_digit d = true
    ∧ class_ends is_digit rest = true.

(** [s] starts with the number [d] between two colons. *)
Definition colon_mark (s d : string) : Prop :=
  ∃ rest,
    s = ":" +:+ d +:+ ":" +:+ rest
    ∧ d ≠ "" ∧ string_forall is_digit d = true.

(** [d] is what the pattern [mark] finds at the leftmost place of [s]
    where it finds anything. *)
Definition leftmost (mark : string → string → Prop) (s d : string) : Prop :=
  ∃ before from,
    s = before +:+ from ∧ mark from d
    ∧ ∀ before' from' d',
        s = before' +:+ from' →
        String.length before' < String.length before →
        ¬ mark from' d'.

Definition nowhere (mark : string → string → Prop) (s : string) : Prop :=
  ∀ before from d, s = before +:+ from → ¬ mark from d.

(** A file name: no character of it is the path separator. *)
Definition plain_name (win32 : bool) (f : string) : bool :=
  string_forall (λ c, negb (Ascii.eqb c (path_sep win32))) f.

(** ** What an event emits *)

(** The events the handler of [e] emits in the state [s]. *)
Definition emits (e : Event) (s : State) : list Emit :=
  match e with
  | EJoinPairSession sid sessionId => (join_pair_session sid sessionId s).2
  | ECodeChange sid sessionId code language =>
      (code_change sid sessionId code language s).2
  | EJoinStudyGroup sid groupId now => (join_study_group sid groupId now s).2
  | EGroupCodeChange sid groupId code language =>
      (group_code_change sid groupId code language s).2
  | ESendMessage sid groupId message username uuid now =>
      (send_message sid groupId message username uuid now s).2
  | EAddQuestion sid groupId question username uuid now =>
      (add_question sid groupId question username uuid now s).2
  | EDisconnect sid => (disconnect sid s).2
  | EConnect _ | ECreateGroup _ _ _ | EShare _ _ _ _ _ => []
  end.

(** What the disconnect handler makes of one member list: the first entry
    of the socket is spliced out. *)
Definition leave_session_users (sid : string) (users : list string)
  : list string :=
  match indexOf sid users with
  | Some userIndex => splice1 userIndex users
  | None => users
  end.

Definition leave_group_users (sid : string) (users : list User)
  : list User :=
  match findIndex (λ user, String.eqb (u_id user) sid) users with
  | Some userIndex => splice1 userIndex users
  | None => users
  end.

(** A pair session once the disconnect handler has visited it. *)
Definition leave_session (sid : string) (session : Session) : Session :=
  session_with_users (leave_session_users sid (s_users session)) session.

(** A study group once the disconnect handler has visited it. *)
Definition leave_group (sid : string) (group : Group) : Group :=
  group_with_users (leave_group_users sid (g_users group)) group.

(** The sockets are in their own rooms and the rooms hold connected
    sockets only. *)
Record io_wf (io : Io) : Prop := {
  wf_own_room : ∀ sid, sid ∈ sockets io → (sid, sid) ∈ rooms io;
  wf_rooms_connected : ∀ room sid, (room, sid) ∈ rooms io → sid ∈ sockets io
}.

(** ** What stays of a group object *)

(** [g'] is [g] some events later: the same id, name and creation time,
    and logs that have [g]'s as their beginning. *)
Definition group_kept (g g' : Group) : Prop :=
  g_id g' = g_id g ∧ g_name g' = g_name g
  ∧ g_createdAt g' = g_createdAt g
  ∧ g_messages g `prefix_of` g_messages g'
  ∧ g_questions g `prefix_of` g_questions g'.

Definition objects_kept (s s' : State) : Prop :=
  ∀ ref g, groups s !! ref = Some g →
           ∃ g', groups s' !! ref = Some g' ∧ group_kept g g'.

(** ** Call signalling *)

Record Call := {
  c_caller : string;
  c_recipient : string;
  c_status : string
}.

Inductive CallPayload :=
  | PCallInitiated (callerId : string)
  | PCallAnswered (answererId : string)
  | PCallRejected (message : string)
  | PCallEnded (callerId : string).

Record CallEmit := {
  ce_to : string;
  ce_event : string;
  ce_payload : CallPayload
}.

Definition call_deliver (event : string) (payload : CallPayload)
    (to : list string) : list CallEmit :=
  (λ r, {| ce_to := r; ce_event := event; ce_payload := payload |}) <$> to.

(** [socket.broadcast.emit]: every connected socket but the sender *)
Definition broadcast_emit (io : Io) (sid event : string)
    (payload : CallPayload) : list CallEmit :=
  call_deliver event payload (filter (λ r, r ≠ sid) (sockets io)).

(** [hay.includes(needle)] *)
Fixpoint includes (needle hay : string) : bool :=
  match strip_prefix needle hay with
  | Some _ => true
  | None =>
      match hay with
      | EmptyString => false
      | String _ hay' => includes needle hay'
      end
  end.

(** [l.find(f)] *)
Fixpoint find_first {A} (f : A → bool) (l : list A) : option A :=
  match l with
  | [] => None
  | x :: l' => if f x then Some x else find_first f l'
  end.

Definition initiate_call (sid recipientId : string)
    (videoCalls : list (string * Call)) (io : Io)
  : list (string * Call) * list CallEmit :=
  let caller := sid in
  let callId := caller +:+ "-" +:+ recipientId in
  (map_set callId
     {| c_caller := caller; c_recipient := recipientId;
        c_status := "pending" |} videoCalls,
   call_deliver "call-initiated" (PCallInitiated caller)
     (room_sockets recipientId io)).

Definition call_answered (sid callerId : string) (io : Io) : list CallEmit :=
  call_deliver "call-answered" (PCallAnswered sid) (room_sockets callerId io).

Definition call_rejected (callerId : string) (io : Io) : list CallEmit :=
  call_deliver "call-rejected" (PCallRejected "Call was rejected")
    (room_sockets callerId io).

Definition end_call (sid : string) (videoCalls : list (string * Call))
    (io : Io) : list (string * Call) * list CallEmit :=
  let caller := sid in
  let out := broadcast_emit io sid "call-ended" (PCallEnded caller) in
  match find_first (includes caller) videoCalls.*1 with
  | Some callId =>
      (if String.eqb callId "" then videoCalls
       else map_delete callId videoCalls, out)
  | None => (videoCalls, out)
  end.

(** * Properties *)

(** ** Strings and the class-name pattern *)

Lemma str_or_nonempty a b : a ≠ "" → str_or a b = a.
Proof.
  intros Ha. unfold str_or.
  destruct (String.eqb_spec a ""); [contradiction | reflexivity].
Qed.

Lemma append_cons c (a b : string) : String c a +:+ b = String c (a +:+ b).
Proof. reflexivity. Qed.

Lemma append_nil (b : string) : "" +:+ b = b.
Proof. reflexivity. Qed.

Lemma append_assoc (a b c : string) : (a +:+ b) +:+ c = a +:+ (b +:+ c).
Proof.
  induction a as [|x a IH]; [reflexivity |].
  rewrite !append_cons. by f_equal.
Qed.

Lemma strip_prefix_Some p s r : strip_prefix p s = Some r ↔ s = p +:+ r.
Proof.
  revert s. induction p as [|a p IH]; intros s; simpl.
  - rewrite append_nil. split; congruence.
  - rewrite append_cons. destruct s as [|b s]; [split; discriminate |].
    destruct (Ascii.eqb_spec a b) as [->|Hne].
    + rewrite IH. split; congruence.
    + split; [discriminate | congruence].
Qed.

Lemma take_drop_while f s : s = take_while f s +:+ drop_while f s.
Proof.
  induction s as [|c s IH]; simpl; [reflexivity |].
  destruct (f c); [rewrite append_cons; by f_equal | reflexivity].
Qed.

Lemma take_while_forall f s : string_forall f (take_while f s) = true.
Proof.
  induction s as [|c s IH]; simpl; [reflexivity |].
  destruct (f c) eqn:Hc; simpl; [by rewrite Hc | reflexivity].
Qed.

Lemma drop_while_ends f s : class_ends f (drop_while f s) = true.
Proof.
  induction s as [|c s IH]; simpl; [reflexivity |].
  destruct (f c) eqn:Hc; simpl; [assumption | by rewrite Hc].
Qed.

(** A run of the class followed by something outside it is the longest
    run. *)
Lemma take_while_app f run rest :
  string_forall f run = true → class_ends f rest = true →
  take_while f (run +:+ rest) = run ∧ drop_while f (run +:+ rest) = rest.
Proof.
  intros Hrun Hrest. induction run as [|c run IH].
  - rewrite append_nil.
    destruct rest as [|c rest]; simpl in *; [done |].
    apply negb_true_iff in Hrest. by rewrite Hrest.
  - rewrite append_cons. simpl in *.
    apply andb_true_iff in Hrun as [Hc Hrun]. rewrite Hc.
    destruct (IH Hrun) as [-> ->]. done.
Qed.

Lemma class_plus_Some f s run rest :
  class_plus f s = Some (run, rest) ↔
  s = run +:+ rest ∧ run ≠ "" ∧ string_forall f run = true
  ∧ class_ends f rest = true.
Proof.
  unfold class_plus. split.
  - intros H.
    destruct (take_while f s) as [|c t] eqn:Ht; [discriminate |].
    injection H as <- <-. rewrite <- Ht.
    split; [apply take_drop_while |].
    split; [rewrite Ht; discriminate |].
    split; [apply take_while_forall | apply drop_while_ends].
  - intros (-> & Hne & Hrun & Hrest).
    destruct (take_while_app f run rest Hrun Hrest) as [-> ->].
    destruct run; [contradiction | reflexivity].
Qed.

Lemma class_ends_app f (a b : string) :
  a ≠ "" → class_ends f a = true → class_ends f (a +:+ b) = true.
Proof. destruct a; [contradiction | done]. Qed.

Lemma word_not_space w :
  w ≠ "" → string_forall is_word w = true → class_ends is_space w = true.
Proof.
  destruct w as [|c w]; [contradiction |]. simpl. intros _ H.
  apply andb_true_iff in H as [H _]. revert H.
  unfold is_word, is_space. generalize (nat_of_ascii c). intros n H.
  apply negb_true_iff.
  repeat (apply orb_true_iff in H as [H|H]);
    repeat (apply andb_true_iff in H as [? H]);
    repeat match goal with
           | H : (_ <=? _)%nat = true |- _ => apply Nat.leb_le in H
           | H : (_ =? _)%nat = true |- _ => apply Nat.eqb_eq in H
           end;
    repeat (apply orb_false_iff; split);
    try apply andb_false_iff;
    rewrite ?Nat.leb_gt, ?Nat.eqb_neq; lia.
Qed.

Lemma match_here_spec s w : match_here s = Some w ↔ declares_here s w.
Proof.
  unfold match_here, declares_here. split.
  - intros H.
    apply bind_Some in H as (r1 & H1 & H).
    apply bind_Some in H as ([ws1 r2] & H2 & H).
    apply bind_Some in H as (r3 & H3 & H).
    apply bind_Some in H as ([ws2 r4] & H4 & H).
    apply bind_Some in H as ([w' rest] & H5 & H).
    injection H as ->.
    apply strip_prefix_Some in H1, H3.
    apply class_plus_Some in H2 as (E2 & ? & ? & _).
    apply class_plus_Some in H4 as (E4 & ? & ? & _).
    apply class_plus_Some in H5 as (E5 & ? & ? & ?).
    exists ws1, ws2, rest. subst. done.
  - intros (ws1 & ws2 & rest & -> & Hn1 & Hs1 & Hn2 & Hs2 & Hnw & Hw & Hend).
    apply bind_Some. eexists. split; [by apply strip_prefix_Some |].
    apply bind_Some. exists (ws1, "class" +:+ ws2 +:+ w +:+ rest).
    split; [by apply class_plus_Some |].
    apply bind_Some. eexists. split; [by apply strip_prefix_Some |].
    apply bind_Some. exists (ws2, w +:+ rest). split.
    { apply class_plus_Some. repeat split; try done.
      apply class_ends_app; [done | by apply word_not_space]. }
    apply bind_Some. exists (w, rest).
    split; [by apply class_plus_Some | done].
Qed.

Lemma declares_here_nonempty s w : declares_here s w → w ≠ "".
Proof. intros (? & ? & ? & ? & ? & ? & ? & ? & ? & ? & ?). done. Qed.

Lemma regex_match_unfold s :
  regex_match s =
  match match_here s with
  | Some w => Some w
  | None =>
      match s with
      | EmptyString => None
      | String _ s' => regex_match s'
      end
  end.
Proof. by destruct s. Qed.

Lemma regex_match_None s : regex_match s = None → no_public_class s.
Proof.
  induction s as [|c s IH]; rewrite regex_match_unfold;
    destruct (match_here _) as [w0|] eqn:Hhere; try discriminate;
    intros Hm before decl w Heq Hdecl.
  - destruct before; [|discriminate]. rewrite append_nil in Heq. subst decl.
    apply match_here_spec in Hdecl. congruence.
  - destruct before as [|c' before].
    + rewrite append_nil in Heq. subst decl.
      apply match_here_spec in Hdecl. congruence.
    + rewrite append_cons in Heq. injection Heq as -> ->.
      by apply (IH Hm before decl w).
Qed.

Lemma regex_match_Some s w : regex_match s = Some w → first_public_class s w.
Proof.
  revert w. induction s as [|c s IH]; intros w; rewrite regex_match_unfold;
    destruct (match_here _) as [w0|] eqn:Hhere; try discriminate.
  - intros [= ->]. exists "", (String c s). repeat split.
    + by apply match_here_spec.
    + simpl. lia.
  - intros Hm. destruct (IH w Hm) as (before & decl & -> & Hdecl & Hmin).
    exists (String c before), decl. repeat split; [done |].
    intros before' decl' w' Heq Hlen Hd.
    destruct before' as [|c' before'].
    + rewrite append_nil in Heq. subst decl'.
      apply match_here_spec in Hd. congruence.
    + rewrite !append_cons in Heq. injection Heq as <- Heq.
      apply (Hmin before' decl' w' Heq); [simpl in Hlen; lia | done].
Qed.

Lemma extractJavaClassName_nonempty code : extractJavaClassName code ≠ "".
Proof.
  unfold extractJavaClassName.
  destruct (regex_match code) as [w|] eqn:Hm; [|done].
  apply regex_match_Some in Hm as (? & ? & _ & Hd & _).
  by apply declares_here_nonempty in Hd.
Qed.

(** The name [extractJavaClassName] returns, read off the source text. *)
Lemma extractJavaClassName_spec code :
  (first_public_class code (extractJavaClassName code))
  ∨ (no_public_class code ∧ extractJavaClassName code = "Main").
Proof.
  unfold extractJavaClassName.
  destruct (regex_match code) as [w|] eqn:Hm.
  - left. by apply regex_match_Some.
  - right. split; [by apply regex_match_None | done].
Qed.

Lemma append_eq_length (a b c d : string) :
  a +:+ b = c +:+ d → String.length a = String.length c → a = c ∧ b = d.
Proof.
  revert c. induction a as [|x a IH]; intros [|y c] Heq Hlen;
    try discriminate.
  - by rewrite !append_nil in Heq.
  - rewrite !append_cons in Heq. injection Heq as -> Heq.
    simpl in Hlen. destruct (IH c Heq) as [-> ->]; [lia | done].
Qed.

(** The first declaration names one class. *)
Lemma first_public_class_unique code w w' :
  first_public_class code w → first_public_class code w' → w = w'.
Proof.
  intros (b & d & E & Hd & Hmin) (b' & d' & E' & Hd' & Hmin').
  assert (String.length b = String.length b') as Hlen.
  { destruct (Nat.lt_total (String.length b) (String.length b'))
      as [Hlt|[Heq|Hgt]]; [|done|].
    - destruct (Hmin' b d w E Hlt Hd).
    - destruct (Hmin b' d' w' E' Hgt Hd'). }
  destruct (append_eq_length b d b' d') as [_ ->]; [congruence | done |].
  apply match_here_spec in Hd, Hd'. congruence.
Qed.

(** ** Temp workspace and execution *)

Lemma string_forall_app f (a b : string) :
  string_forall f (a +:+ b) = string_forall f a && string_forall f b.
Proof.
  induction a as [|c a IH]; [done |].
  rewrite append_cons. simpl. by rewrite IH, andb_assoc.
Qed.

Lemma string_forall_impl (f g : ascii → bool) s :
  (∀ c, f c = true → g c = true) →
  string_forall f s = true → string_forall g s = true.
Proof.
  intros Hfg. induction s as [|c s IH]; [done |]. simpl.
  intros [Hc Hs]%andb_true_iff. by rewrite (Hfg c Hc), IH.
Qed.

Lemma first_public_class_word code w :
  first_public_class code w → string_forall is_word w = true.
Proof.
  intros (_ & _ & _ & (? & ? & ? & _ & _ & _ & _ & _ & _ & Hw & _) & _).
  exact Hw.
Qed.

Lemma extractJavaClassName_word code :
  string_forall is_word (extractJavaClassName code) = true.
Proof.
  destruct (extractJavaClassName_spec code) as [Hfirst|[_ ->]]; [|done].
  by eapply first_public_class_word.
Qed.

Lemma pretty_N_go_digits x s :
  string_forall is_digit s = true →
  string_forall is_digit (pretty_N_go x s) = true.
Proof.
  revert s. induction (N.lt_wf_0 x) as [x _ IH]; intros s Hs.
  destruct (decide (x = 0%N)) as [->|Hx]; [by rewrite pretty_N_go_0 |].
  rewrite pretty_N_go_step by lia.
  apply IH; [apply N.div_lt; lia |]. simpl. rewrite Hs, andb_true_r.
  unfold pretty_N_char. by repeat case_match.
Qed.

Lemma pretty_N_digits (n : N) : string_forall is_digit (pretty n) = true.
Proof.
  unfold pretty, pretty_N. case_decide; [done |].
  by apply pretty_N_go_digits.
Qed.

Lemma pretty_Time_digits (now : Time) :
  string_forall is_digit (pretty now) = true.
Proof. apply pretty_N_digits. Qed.

(** *** Time values and the length of names *)

Lemma time_ms_inj (t t' : Time) : time_ms t = time_ms t' → t = t'.
Proof.
  destruct t as [n Hn], t' as [n' Hn']. simpl. intros ->.
  f_equal. apply (proof_irrel Hn Hn').
Qed.

Global Instance pretty_Time_inj : Inj (=@{Time}) (=) pretty.
Proof.
  intros t t' Heq. apply time_ms_inj. by apply (inj (pretty (A := N))).
Qed.

Lemma byte_length_app (a b : string) :
  byte_length (a +:+ b) = (byte_length a + byte_length b)%nat.
Proof.
  induction a as [|c a IH]; [done |].
  rewrite append_cons. simpl. rewrite IH. lia.
Qed.

Lemma pretty_N_go_bytes (k : nat) :
  ∀ x s,
    (x < 10 ^ N.of_nat k)%N →
    (byte_length (pretty_N_go x s) ≤ k + byte_length s)%nat.
Proof.
  induction k as [|k IH]; intros x s Hx.
  - assert (x = 0%N) as -> by (simpl in Hx; lia).
    rewrite pretty_N_go_0. lia.
  - destruct (decide (x = 0%N)) as [->|Hx0];
      [rewrite pretty_N_go_0; lia |].
    rewrite pretty_N_go_step by lia.
    etrans; [apply IH |].
    + rewrite Nat2N.inj_succ, N.pow_succ_r' in Hx.
      apply N.Div0.div_lt_upper_bound. lia.
    + simpl.
      assert (utf8_bytes (pretty_N_char (x `mod` 10)) = 1%nat) as ->
        by (unfold pretty_N_char; by repeat case_match).
      lia.
Qed.

(** A time value has at most 16 digits. *)
Lemma pretty_Time_bytes (now : Time) : (byte_length (pretty now) ≤ 16)%nat.
Proof.
  change (pretty now) with (pretty (time_ms now)).
  pose proof (time_ok now) as Hok. apply N.leb_le in Hok.
  unfold MAX_TIME in Hok. unfold pretty, pretty_N.
  case_decide; [simpl; lia |].
  pose proof (pretty_N_go_bytes 16 (time_ms now) "") as Hbytes.
  simpl in Hbytes. apply Hbytes.
  change (10 ^ N.of_nat 16)%N with 10000000000000000%N. lia.
Qed.

(** What the template literal shows for [extensions[language] || '.txt']
    holds no separator, does not begin with a digit and is short. *)
Lemma extension_facts win32 language :
  plain_name win32 (or_default (extensions language) ".txt") = true
  ∧ class_ends is_digit (or_default (extensions language) ".txt") = true
  ∧ (byte_length (or_default (extensions language) ".txt") <=? 51)%nat
    = true.
Proof.
  unfold extensions, inherited.
  repeat match goal with
         | |- context [String.eqb ?a ?b] => destruct (String.eqb a b)
         end; try by destruct win32.
  case_bool_decide as Hin; [|by destruct win32].
  unfold prototype_methods in Hin.
  repeat (apply elem_of_cons in Hin as [->|Hin]; [by destruct win32 |]).
  by apply elem_of_nil in Hin.
Qed.

Lemma not_sep_of_class win32 (f : ascii → bool) :
  f "/"%char = false → f "\"%char = false →
  ∀ c, f c = true → negb (Ascii.eqb c (path_sep win32)) = true.
Proof.
  intros H1 H2 c Hc. apply negb_true_iff, Ascii.eqb_neq. intros ->.
  unfold path_sep in Hc. destruct win32; congruence.
Qed.

Lemma temp_file_name_plain win32 language (now : Time) :
  plain_name win32
    ("temp_" +:+ pretty now +:+ or_default (extensions language) ".txt")
  = true.
Proof.
  unfold plain_name. rewrite !string_forall_app.
  pose proof (extension_facts win32 language) as (He & _ & _).
  unfold plain_name in He. rewrite He, andb_true_r.
  apply andb_true_iff. split; [by destruct win32 |].
  eapply string_forall_impl; [|apply pretty_Time_digits].
  by apply not_sep_of_class.
Qed.

(** The name of a file in a language other than Java fits whatever the
    time and the language are. *)
Lemma temp_file_name_fits language (now : Time) :
  (byte_length
     ("temp_" +:+ pretty now +:+ or_default (extensions language) ".txt")
   ≤ NAME_MAX)%nat.
Proof.
  rewrite !byte_length_app.
  pose proof (pretty_Time_bytes now) as Hnow.
  pose proof (extension_facts false language) as (_ & _ & He).
  apply Nat.leb_le in He. unfold NAME_MAX.
  change (byte_length "temp_") with 5%nat. lia.
Qed.

Lemma java_file_name_plain win32 code :
  plain_name win32 (extractJavaClassName code +:+ ".java") = true.
Proof.
  unfold plain_name. rewrite string_forall_app.
  apply andb_true_iff. split; [|by destruct win32].
  eapply string_forall_impl; [|apply (extractJavaClassName_word code)].
  by apply not_sep_of_class.
Qed.

(** *** Paths *)

Lemma before_last_sep_plain win32 f :
  plain_name win32 f = true → before_last_sep win32 f = None.
Proof.
  unfold plain_name. induction f as [|c f IH]; [done |]. simpl.
  intros [Hc Hf]%andb_true_iff. rewrite (IH Hf).
  apply negb_true_iff in Hc. by rewrite Hc.
Qed.

Lemma before_last_sep_join win32 d f :
  plain_name win32 f = true →
  before_last_sep win32 (d +:+ String (path_sep win32) f) = Some d.
Proof.
  intros Hf. induction d as [|c d IH].
  - rewrite append_nil. simpl.
    by rewrite (before_last_sep_plain win32 f Hf), Ascii.eqb_refl.
  - rewrite append_cons. simpl. by rewrite IH.
Qed.

Lemma path_basename_join win32 d f :
  plain_name win32 f = true →
  path_basename win32 (d +:+ String (path_sep win32) f) = f.
Proof.
  intros Hf. induction d as [|c d IH].
  - rewrite append_nil. simpl.
    by rewrite (before_last_sep_plain win32 f Hf), Ascii.eqb_refl.
  - rewrite append_cons. simpl. by rewrite before_last_sep_join.
Qed.

Lemma ends_with_sep_app win32 (d e : string) :
  e ≠ "" → ends_with_sep win32 (d +:+ e) = ends_with_sep win32 e.
Proof.
  intros He. induction d as [|c d IH]; [done |].
  rewrite append_cons. destruct (d +:+ e) as [|c' r] eqn:E.
  - destruct d; [by rewrite append_nil in E | by rewrite append_cons in E].
  - exact IH.
Qed.

(** A directory that is no root: [path.join] puts a separator after it. *)
Lemma path_join_dir win32 d f :
  d ≠ "" → ends_with_sep win32 d = false →
  path_join win32 d f = d +:+ String (path_sep win32) f.
Proof.
  intros Hd Hsep. unfold path_join. rewrite Hsep.
  by destruct (String.eqb_spec d "").
Qed.

Lemma path_join_inj win32 d f f' :
  path_join win32 d f = path_join win32 d f' → f = f'.
Proof.
  unfold path_join. destruct (String.eqb d ""); [done |].
  destruct (ends_with_sep win32 d); intros Heq%String.app_inj;
    [done | by injection Heq].
Qed.

Lemma path_dirname_join win32 d f :
  d ≠ "" → ends_with_sep win32 d = false → plain_name win32 f = true →
  path_dirname win32 (path_join win32 d f) = d.
Proof.
  intros Hd Hsep Hf. rewrite path_join_dir by done.
  unfold path_dirname. rewrite before_last_sep_join by done.
  by destruct d.
Qed.

Lemma tempDir_shape dirname win32 :
  ∃ d, tempDir dirname win32 = d +:+ "temp".
Proof.
  unfold tempDir, path_join.
  destruct (String.eqb dirname ""); [by exists "" |].
  destruct (ends_with_sep win32 dirname); [by exists dirname |].
  exists (dirname +:+ String (path_sep win32) "").
  by rewrite append_assoc, append_cons, append_nil.
Qed.

Lemma tempDir_nonempty dirname win32 : tempDir dirname win32 ≠ "".
Proof.
  destruct (tempDir_shape dirname win32) as [d ->]. by destruct d.
Qed.

Lemma tempDir_no_sep dirname win32 :
  ends_with_sep win32 (tempDir dirname win32) = false.
Proof.
  destruct (tempDir_shape dirname win32) as [d ->].
  rewrite ends_with_sep_app by done. by destruct win32.
Qed.

Section ExecFacts.
Variable dirname : string.
Variable win32 : bool.

Local Abbreviation tempDir := (tempDir dirname win32).
Local Abbreviation with_tempDir := (with_tempDir dirname win32).
Local Abbreviation path_join := (path_join win32).
Local Abbreviation path_dirname := (path_dirname win32).
Local Abbreviation writeFileSync := (writeFileSync win32).
Local Abbreviation createTempFile := (createTempFile dirname win32).
Local Abbreviation commands := (commands win32).
Local Abbreviation run_start := (run_start dirname win32).
Local Abbreviation cleanup := (cleanup win32).
Local Abbreviation run_callback := (run_callback win32).
Local Abbreviation run := (run dirname win32).

Lemma path_dirname_temp f :
  plain_name win32 f = true → path_dirname (path_join tempDir f) = tempDir.
Proof.
  intros Hf. apply path_dirname_join;
    [apply tempDir_nonempty | apply tempDir_no_sep | done].
Qed.

(** [writeFileSync] of a file in [temp] succeeds exactly when the name
    fits. *)
Lemma writeFileSync_temp f fs :
  plain_name win32 f = true →
  writeFileSync (path_join tempDir f) fs
  = if (NAME_MAX <? byte_length f)%nat
    then (fs, Throw "ENAMETOOLONG")
    else ({[path_join tempDir f]} ∪ fs, Ok tt).
Proof.
  intros Hf. unfold writeFileSync.
  rewrite (path_join_dir win32 tempDir f)
    by (apply tempDir_nonempty || apply tempDir_no_sep).
  by rewrite path_basename_join.
Qed.

Lemma createTempFile_java code now fs :
  (byte_length (extractJavaClassName code +:+ ".java") ≤ NAME_MAX)%nat →
  createTempFile code "java" now fs =
  ({[path_join tempDir (extractJavaClassName code +:+ ".java")]}
     ∪ with_tempDir fs,
   Ok {| filePath :=
           path_join tempDir (extractJavaClassName code +:+ ".java");
         fileName := extractJavaClassName code +:+ ".java";
         className := Some (extractJavaClassName code) |}).
Proof.
  intros Hfits.
  unfold createTempFile, with_tempDir, fs_bind, existsSync, mkdirSync,
    fs_when, fs_ret.
  rewrite (str_or_nonempty _ _ (extractJavaClassName_nonempty code)).
  apply Nat.ltb_ge in Hfits.
  destruct (bool_decide (tempDir ∈ fs)) eqn:Hdir; simpl; rewrite ?Hdir;
    by rewrite writeFileSync_temp, Hfits by apply java_file_name_plain.
Qed.

Lemma createTempFile_java_long code now fs :
  (NAME_MAX < byte_length (extractJavaClassName code +:+ ".java"))%nat →
  createTempFile code "java" now fs
  = (with_tempDir fs, Throw "ENAMETOOLONG").
Proof.
  intros Hlong.
  unfold createTempFile, with_tempDir, fs_bind, existsSync, mkdirSync,
    fs_when, fs_ret.
  rewrite (str_or_nonempty _ _ (extractJavaClassName_nonempty code)).
  apply Nat.ltb_lt in Hlong.
  destruct (bool_decide (tempDir ∈ fs)) eqn:Hdir; simpl; rewrite ?Hdir;
    by rewrite writeFileSync_temp, Hlong by apply java_file_name_plain.
Qed.

Lemma createTempFile_other code language now fs :
  language ≠ "java" →
  createTempFile code language now fs =
  ({[path_join tempDir
       ("temp_" +:+ pretty now +:+ or_default (extensions language) ".txt")]}
     ∪ with_tempDir fs,
   Ok {| filePath :=
           path_join tempDir
             ("temp_" +:+ pretty now
              +:+ or_default (extensions language) ".txt");
         fileName :=
           "temp_" +:+ pretty now
           +:+ or_default (extensions language) ".txt";
         className := None |}).
Proof.
  intros Hl.
  unfold createTempFile, with_tempDir, fs_bind, existsSync, mkdirSync,
    fs_when, fs_ret.
  destruct (String.eqb_spec language "java"); [done |].
  pose proof (temp_file_name_fits language now) as Hfits.
  apply Nat.ltb_ge in Hfits.
  destruct (bool_decide (tempDir ∈ fs)) eqn:Hdir; simpl; rewrite ?Hdir;
    by rewrite writeFileSync_temp, Hfits by apply temp_file_name_plain.
Qed.

(** [createTempFile] returns a file it has written or throws. *)
Lemma createTempFile_cases code language now fs :
  (∃ fs' tf,
     createTempFile code language now fs = (fs', Ok tf)
     ∧ filePath tf ∈ fs')
  ∨ ∃ fs' e, createTempFile code language now fs = (fs', Throw e).
Proof.
  destruct (decide (language = "java")) as [->|Hl].
  - destruct (Nat.le_gt_cases
                (byte_length (extractJavaClassName code +:+ ".java"))
                NAME_MAX) as [Hfits|Hlong].
    + left. rewrite createTempFile_java by done. eexists _, _.
      split; [done |]. set_solver.
    + right. rewrite createTempFile_java_long by done. by eexists _, _.
  - left. rewrite createTempFile_other by done. eexists _, _.
    split; [done |]. set_solver.
Qed.

Lemma createTempFile_ok code language now fs :
  (language = "java" →
   (byte_length (extractJavaClassName code +:+ ".java") ≤ NAME_MAX)%nat) →
  ∃ fs' tf,
    createTempFile code language now fs = (fs', Ok tf)
    ∧ filePath tf ∈ fs'.
Proof.
  intros Hfits. destruct (decide (language = "java")) as [->|Hl].
  - rewrite createTempFile_java by auto. eexists _, _. split; [done |].
    set_solver.
  - rewrite createTempFile_other by done. eexists _, _. split; [done |].
    set_solver.
Qed.

Lemma commands_supported tf language :
  language ∈ supported_languages →
  ∃ command, commands tf language = Some (Shell command).
Proof.
  unfold supported_languages. rewrite !elem_of_cons, elem_of_nil.
  intros [->|[->|[->|[->|[]]]]]; unfold commands; simpl; eauto.
Qed.

Lemma commands_unsupported tf language :
  language ∉ supported_languages →
  commands tf language = (λ _, Member) <$> inherited language.
Proof.
  unfold supported_languages. rewrite !elem_of_cons, elem_of_nil.
  intros Hl. unfold commands.
  repeat match goal with
         | |- context [String.eqb ?a ?b] =>
             destruct (String.eqb_spec a b); [tauto |]
         end.
  done.
Qed.

Lemma extensions_unsupported language :
  language ∉ supported_languages → extensions language = inherited language.
Proof.
  unfold supported_languages. rewrite !elem_of_cons, elem_of_nil.
  intros Hl. unfold extensions.
  repeat match goal with
         | |- context [String.eqb ?a ?b] =>
             destruct (String.eqb_spec a b); [tauto |]
         end.
  done.
Qed.

Lemma truthy_Some x : truthy (Some x) = true ↔ x ≠ "".
Proof.
  simpl. destruct (String.eqb_spec x ""); simpl; split; congruence.
Qed.

Lemma cleanup_ok language tf fs : (cleanup language tf fs).2 = Ok tt.
Proof. unfold cleanup, try_catch. by destruct (fs_bind _ _ fs). Qed.

(** What the callback answers depends on the arguments of the callback
    alone: nothing that happens during the cleanup reaches it. *)
Lemma run_callback_response language tf a fs :
  (run_callback language tf a fs).2 =
  Ok (res_json
        match cb_error a with
        | Some message => BRun false (str_or (cb_stderr a) message) true
        | None =>
            BRun true
              (str_or (cb_stdout a)
                 "Program executed successfully (no output)") false
        end).
Proof.
  unfold run_callback, fs_bind.
  pose proof (cleanup_ok language tf fs) as H.
  destruct (cleanup language tf fs) as [fs' r]. simpl in H. subst r.
  by destruct (cb_error a).
Qed.

Lemma run_start_supported code language now fs :
  code ≠ "" → language ∈ supported_languages →
  (language = "java" →
   (byte_length (extractJavaClassName code +:+ ".java") ≤ NAME_MAX)%nat) →
  ∃ fs' tf command,
    createTempFile code language now fs = (fs', Ok tf)
    ∧ commands tf language = Some (Shell command)
    ∧ run_start (Some code) (Some language) now fs
      = (fs', Ok (Exec command tf)).
Proof.
  intros Hc Hl Hfits.
  destruct (createTempFile_ok code language now fs Hfits)
    as (fs' & tf & E & _).
  destruct (commands_supported tf language Hl) as [command Hcmd].
  exists fs', tf, command. repeat split; [done.. |].
  unfold run_start.
  assert (language ≠ "") as Hl'.
  { intros ->. revert Hl. unfold supported_languages.
    rewrite !elem_of_cons, elem_of_nil. naive_solver. }
  apply truthy_Some in Hc, Hl'. rewrite Hc, Hl'. simpl.
  unfold fs_bind. rewrite E, Hcmd. done.
Qed.

Lemma run_unsupported code language now p toolchain fs :
  code ≠ "" → language ≠ "" → language ∉ supported_languages →
  inherited language = None →
  run (Some code) (Some language) now p toolchain fs =
  ({[path_join tempDir ("temp_" +:+ pretty now +:+ ".txt")]}
     ∪ with_tempDir fs,
   Ok (res_status_json 400 (BError "Unsupported language"))).
Proof.
  intros Hc Hl Hun Hown. unfold run, run_start.
  apply truthy_Some in Hc, Hl. rewrite Hc, Hl. simpl.
  unfold fs_bind at 1 2. rewrite createTempFile_other.
  - rewrite commands_unsupported, extensions_unsupported, Hown by done.
    done.
  - intros ->. apply Hun. unfold supported_languages. set_solver.
Qed.

(** A request in a language that names an inherited member: the file is
    written, [exec] throws, and the file stays. *)
Lemma run_inherited code language text now p toolchain fs :
  code ≠ "" → language ∉ supported_languages →
  inherited language = Some text →
  run (Some code) (Some language) now p toolchain fs =
  ({[path_join tempDir
       ("temp_" +:+ pretty now +:+ or_default (Some text) ".txt")]}
     ∪ with_tempDir fs,
   Throw "ERR_INVALID_ARG_TYPE").
Proof.
  intros Hc Hun Hin. unfold run, run_start.
  assert (language ≠ "") as Hl by (by intros ->).
  apply truthy_Some in Hc, Hl. rewrite Hc, Hl. simpl.
  unfold fs_bind at 1 2. rewrite createTempFile_other.
  - rewrite commands_unsupported, extensions_unsupported, Hin by done.
    done.
  - intros ->. apply Hun. unfold supported_languages. set_solver.
Qed.
End ExecFacts.

Lemma unlink_if_exists_eq p fs :
  unlink_if_exists p fs = (fs ∖ {[p]}, Ok tt).
Proof.
  unfold unlink_if_exists, fs_bind, existsSync, fs_when, unlinkSync, fs_ret.
  case_bool_decide as Hp; simpl.
  - by rewrite bool_decide_eq_true_2.
  - f_equal. set_solver.
Qed.

(** After the callback the source file is gone, whether [unlinkSync]
    removed it or threw because it was gone already. *)
Lemma cleanup_removes_source win32 language tf fs :
  (filePath tf ∉ (cleanup win32 language tf fs).1)
  ∧ ((cleanup win32 language tf fs).1 ⊆ fs).
Proof.
  unfold cleanup, try_catch, fs_bind, unlinkSync.
  case_bool_decide as Hp; simpl; [|by split].
  unfold fs_when.
  destruct (String.eqb language "cpp"), (String.eqb language "java");
    rewrite ?unlink_if_exists_eq; unfold fs_ret; simpl;
    rewrite ?unlink_if_exists_eq; simpl; set_solver.
Qed.

(** C1, as the code has it.  The result of an execute request over a
    supported language, whose source file the host takes, follows the
    error of [exec] alone.  [exec] reports an error when the exit code is
    not 0, when a signal killed the shell (as the timeout does), when an
    output passed [maxBuffer] and when the shell could not be started; the
    result is then a failure whose output is the standard-error text when
    that is not empty and otherwise the message of the error.  When the
    shell ends with exit code 0 within [maxBuffer] the result is a success
    carrying the standard output, or the placeholder when there is none,
    whatever was written to standard error. *)
Theorem run_result_follows_exec_error dirname win32 code language now o
    toolchain fs :
  code ≠ "" → language ∈ supported_languages →
  (language = "java" →
   (byte_length (extractJavaClassName code +:+ ".java") ≤ NAME_MAX)%nat) →
  ∃ command,
    (∃ fs' tf,
       run_start dirname win32 (Some code) (Some language) now fs
       = (fs', Ok (Exec command tf)))
    ∧ (run dirname win32 (Some code) (Some language) now o toolchain fs).2
      = Ok (res_json
              match o with
              | Ended p =>
                  if decide (exit_code p = Some 0%Z) then
                    BRun true
                      (if decide (proc_stdout p = "")
                       then "Program executed successfully (no output)"
                       else proc_stdout p)
                      false
                  else
                    BRun false
                      (if decide (proc_stderr p = "")
                       then "Command failed: " +:+ command +:+ newline
                       else proc_stderr p)
                      true
              | Overflowed stream stdout stderr =>
                  BRun false
                    (if decide (stderr = "")
                     then stream_name stream +:+ " maxBuffer length exceeded"
                     else stderr)
                    true
              | SpawnFailed message => BRun false message true
              end).
Proof.
  intros Hc Hl Hfits.
  destruct (run_start_supported dirname win32 code language now fs Hc Hl
              Hfits) as (fs' & tf & command & _ & _ & Hstart).
  exists command. split; [by eauto |].
  unfold run, fs_bind. rewrite Hstart, run_callback_response.
  destruct o as [p|stream stdout stderr|message]; unfold exec_callback,
    str_or; simpl.
  - destruct (exit_code p) as [[| |]|]; simpl;
      repeat match goal with
             | |- context [String.eqb ?a ?b] => destruct (String.eqb_spec a b)
             | |- context [decide ?P] => destruct (decide P)
             end;
      try done;
      match goal with E : proc_stderr p = "" |- _ => by rewrite E end.
  - destruct (String.eqb_spec stderr ""), (decide (stderr = "")); done.
  - done.
Qed.

Lemma run_result_follows_exec_error_witness :
  ∃ command,
    (∃ fs' tf,
       run_start "/app" false (Some "import sys; sys.exit(3)") (Some "python")
         1700000000000 ∅
       = (fs', Ok (Exec command tf)))
    ∧ (run "/app" false (Some "import sys; sys.exit(3)") (Some "python")
         1700000000000
         {| exit_code := Some 3%Z; proc_stdout := "partial";
            proc_stderr := "" |}
         id ∅).2
      = Ok (res_json
              (BRun false ("Command failed: " +:+ command +:+ newline) true)).
Proof.
  apply (run_result_follows_exec_error "/app" false
           "import sys; sys.exit(3)" "python" 1700000000000%N
           (Ended {| exit_code := Some 3%Z; proc_stdout := "partial";
                     proc_stderr := "" |}) id ∅).
  - discriminate.
  - unfold supported_languages. apply elem_of_cons. by left.
  - discriminate.
Defined.

(** A program that exits with code 0 after it has written more than
    [maxBuffer] is reported as a failure. *)
Example output_beyond_maxBuffer_is_failure :
  (run "/app" false (Some "print('x' * 2000000)") (Some "python")
     1700000000000 (Overflowed Stdout "xxxx" "") id ∅).2
  = Ok (res_json (BRun false "stdout maxBuffer length exceeded" true)).
Proof. by vm_compute. Qed.

(** C1 as the specification words it fails: a Python program that writes
    a warning to standard error and exits with code 0 is reported as a
    success, with its standard output. *)
Lemma stderr_text_with_exit_0_is_success :
  let p := {| exit_code := Some 0%Z; proc_stdout := "done";
              proc_stderr := "DeprecationWarning: old call" |} in
  proc_stderr p ≠ ""
  ∧ (run "/app" false (Some "import warnings") (Some "python")
       1700000000000 p id ∅).2
    = Ok (res_json (BRun true "done" false)).
Proof. split; [discriminate | by vm_compute]. Qed.

(** C2 at the input on which the code departs from it: a request in a
    language outside [commands] is answered with 400 after
    [createTempFile] has written the source file, and the file stays. *)
Theorem unsupported_language_leaves_source_file :
  let result :=
    run "/app" false (Some "puts 1") (Some "ruby") 1700000000000
      {| exit_code := Some 0%Z; proc_stdout := ""; proc_stderr := "" |}
      id ∅ in
  result.2 = Ok (res_status_json 400 (BError "Unsupported language"))
  ∧ "/app/temp/temp_1700000000000.txt" ∈ result.1.
Proof.
  simpl. rewrite run_unsupported.
  - split; [done |]. apply elem_of_union_l, elem_of_singleton.
    by vm_compute.
  - discriminate.
  - discriminate.
  - unfold supported_languages. rewrite !elem_of_cons, elem_of_nil.
    intros [?|[?|[?|[?|[]]]]]; discriminate.
  - reflexivity.
Qed.

(** The same for a language that names a member every object inherits:
    the file name takes the text of the member, [exec] is handed a
    function and throws, and the file stays. *)
Example inherited_language_leaves_source_file :
  let result :=
    run "/app" false (Some "puts 1") (Some "constructor") 1700000000000
      {| exit_code := Some 0%Z; proc_stdout := ""; proc_stderr := "" |}
      id ∅ in
  result.2 = Throw "ERR_INVALID_ARG_TYPE"
  ∧ bool_decide
      ("/app/temp/temp_1700000000000function Object() { [native code] }"
       ∈ result.1) = true.
Proof. by vm_compute. Qed.

(** The part of C2 the code keeps: for a supported language the source
    file is gone after the callback and the response is the one the
    outcome of the process determines, whatever the files were. *)
Lemma run_supported_removes_source dirname win32 code language now p
    toolchain fs :
  code ≠ "" → language ∈ supported_languages →
  (language = "java" →
   (byte_length (extractJavaClassName code +:+ ".java") ≤ NAME_MAX)%nat) →
  ∃ fs' command tf,
    run_start dirname win32 (Some code) (Some language) now fs
    = (fs', Ok (Exec command tf))
    ∧ filePath tf ∈ fs'
    ∧ filePath tf
      ∉ (run dirname win32 (Some code) (Some language) now p toolchain fs).1.
Proof.
  intros Hc Hl Hfits.
  destruct (run_start_supported dirname win32 code language now fs Hc Hl
              Hfits) as (fs' & tf & command & Hcreate & _ & Hstart).
  exists fs', command, tf. split; [done |]. split.
  - destruct (createTempFile_ok dirname win32 code language now fs Hfits)
      as (? & ? & E & ?). congruence.
  - unfold run, fs_bind. rewrite Hstart. unfold run_callback, fs_bind.
    pose proof (cleanup_removes_source win32 language tf (toolchain fs'))
      as [Hgone _].
    pose proof (cleanup_ok win32 language tf (toolchain fs')) as Hok.
    simpl. destruct (cleanup _ _ _ _) as [fs'' r]. simpl in *. subst r.
    by destruct (cb_error _).
Qed.

(** On win32 the compiler writes [output.exe]; the cleanup looks for
    [output] and the binary stays. *)
Example cpp_binary_stays_on_win32 :
  bool_decide
    ("C:\app\temp\output.exe"
     ∈ (run "C:\app" true (Some "int main(){}") (Some "cpp") 1700000000000
          {| exit_code := Some 0%Z; proc_stdout := ""; proc_stderr := "" |}
          (λ fs, {["C:\app\temp\output.exe"]} ∪ fs) ∅).1)
  = true.
Proof. by vm_compute. Qed.

(** The server at the root of the file system: [temp] is [/temp]. *)
Example temp_dir_at_the_root :
  tempDir "/" false = "/temp"
  ∧ (run_start "/" false (Some "print(1)") (Some "python") 1700000000000
       ∅).2
    = Ok (Exec ("python3 " +:+ dquote +:+ "/temp/temp_1700000000000.py"
                +:+ dquote)
            {| filePath := "/temp/temp_1700000000000.py";
               fileName := "temp_1700000000000.py"; className := None |}).
Proof. by vm_compute. Qed.



Example java_hello_command :
  (run_start "/app" false (Some "import java.util.*; public class Hello { }")
     (Some "java") 1700000000000 ∅).2
  = Ok (Exec ("cd " +:+ dquote +:+ "/app/temp" +:+ dquote +:+ " && javac "
              +:+ dquote +:+ "Hello.java" +:+ dquote +:+ " && java Hello")
          {| filePath := "/app/temp/Hello.java"; fileName := "Hello.java";
             className := Some "Hello" |}).
Proof. by vm_compute. Qed.

Example java_without_public_class :
  (run_start "/app" false (Some "class Foo { }") (Some "java")
     1700000000000 ∅).2
  = Ok (Exec ("cd " +:+ dquote +:+ "/app/temp" +:+ dquote +:+ " && javac "
              +:+ dquote +:+ "Main.java" +:+ dquote +:+ " && java Main")
          {| filePath := "/app/temp/Main.java"; fileName := "Main.java";
             className := Some "Main" |}).
Proof. by vm_compute. Qed.

(** A class name of 251 letters: [C.java] has 256 bytes, the write throws
    and only the directory [temp] has been made. *)
Example java_long_class_name_throws :
  let C := String.string_of_list_ascii (replicate 251 "A"%char) in
  extractJavaClassName ("public class " +:+ C +:+ " { }") = C
  ∧ (run_start "/app" false (Some ("public class " +:+ C +:+ " { }"))
       (Some "java") 1700000000000 ∅).2
    = Throw "ENAMETOOLONG".
Proof. by vm_compute. Qed.

(** ** Snippet store *)

(** C10.  [share] validates nothing and has no failing path: whatever the
    fields of the request, missing ones included, it answers 200 with the
    id [uuidv4] gave and the URL of that id, and under that id it stores
    the snippet with the code and language as they came ([None] for a
    missing field), leaving every other id as it was. *)
Theorem share_never_fails code language title uuid now
    (m : gmap string Snippet) :
  (share code language title uuid now m).2
  = {| status := 200; body := BShared uuid ("/share/" +:+ uuid) |}
  ∧ (share code language title uuid now m).1 !! uuid
    = Some {| sn_code := code; sn_language := language;
              sn_title := or_default title "Untitled";
              sn_createdAt := now |}
  ∧ ∀ id, id ≠ uuid →
      (share code language title uuid now m).1 !! id = m !! id.
Proof.
  unfold share. simpl. split; [done |]. split.
  - apply lookup_insert_eq.
  - intros id Hid. by apply lookup_insert_ne.
Qed.

Lemma share_never_fails_witness :
  (share None None None "0b1f" 1700000000000 ∅).2
  = {| status := 200; body := BShared "0b1f" "/share/0b1f" |}
  ∧ (share None None None "0b1f" 1700000000000 ∅).1 !! "0b1f"
    = Some {| sn_code := None; sn_language := None; sn_title := "Untitled";
              sn_createdAt := 1700000000000 |}
  ∧ (share None None None "0b1f" 1700000000000 ∅).1 !! "77aa" = None.
Proof.
  destruct (share_never_fails None None None "0b1f" 1700000000000 ∅)
    as (Hres & Hstored & Hothers).
  split; [exact Hres |]. split; [exact Hstored |].
  rewrite (Hothers "77aa"); [reflexivity | discriminate].
Defined.

(** ** Frames of the handlers *)

(** A property of the state that every step of a [forEach] keeps is kept
    by the whole loop. *)
Lemma foldl_keeps {A} (P : State → Prop)
    (f : State * list Emit → A → State * list Emit) :
  (∀ acc x, P acc.1 → P (f acc x).1) →
  ∀ l acc, P acc.1 → P (foldl f acc l).1.
Proof.
  intros Hf l. induction l as [|x l IH]; intros acc Hacc; simpl; [done |].
  apply IH, Hf, Hacc.
Qed.

Ltac handler_cases :=
  repeat (simpl in *; case_match); simpl in *; simplify_eq; try done.

Lemma disconnect_session_frame sid acc entry :
  let s' := (disconnect_session sid acc entry).1 in
  sharedCodes s' = sharedCodes acc.1 ∧ groups s' = groups acc.1
  ∧ studyGroups s' = studyGroups acc.1
  ∧ globalStudyGroups s' = globalStudyGroups acc.1 ∧ io s' = io acc.1.
Proof. unfold disconnect_session. destruct acc, entry. handler_cases. Qed.

Lemma disconnect_group_frame sid acc entry :
  let s' := (disconnect_group sid acc entry).1 in
  sharedCodes s' = sharedCodes acc.1 ∧ pairSessions s' = pairSessions acc.1
  ∧ io s' = io acc.1.
Proof. unfold disconnect_group. destruct acc, entry. handler_cases. Qed.

Lemma disconnect_sharedCodes sid s :
  sharedCodes (disconnect sid s).1 = sharedCodes s.
Proof.
  unfold disconnect.
  apply (foldl_keeps (λ s', sharedCodes s' = sharedCodes s)).
  { intros acc x <-. apply disconnect_group_frame. }
  apply (foldl_keeps (λ s', sharedCodes s' = sharedCodes s));
    [|reflexivity].
  intros acc x <-. apply disconnect_session_frame.
Qed.

Lemma handle_sharedCodes e s :
  sharedCodes (handle e s) =
  match e with
  | EShare code language title uuid now =>
      (share code language title uuid now (sharedCodes s)).1
  | _ => sharedCodes s
  end.
Proof.
  destruct e; try reflexivity; simpl.
  - unfold join_pair_session. handler_cases.
  - unfold code_change. handler_cases.
  - unfold join_study_group. handler_cases.
  - unfold group_code_change. handler_cases.
  - unfold send_message. handler_cases.
  - unfold add_question. handler_cases.
  - apply disconnect_sharedCodes.
Qed.

(** The store holds the snippets of the share requests so far, each under
    the id its request was given. *)
Lemma sharedCodes_execution tr s :
  execution tr s →
  (∀ code language title uuid now,
     EShare code language title uuid now ∈ tr →
     sharedCodes s !! uuid
     = Some {| sn_code := code; sn_language := language;
               sn_title := or_default title "Untitled";
               sn_createdAt := now |})
  ∧ (∀ codeId, is_Some (sharedCodes s !! codeId) →
       ∃ code language title now,
         EShare code language title codeId now ∈ tr).
Proof.
  induction 1 as [|tr s e Hexec [IH1 IH2] Hen].
  - split.
    + intros ????? Hin. by apply elem_of_nil in Hin.
    + intros codeId [? Hl]. simpl in Hl. by rewrite lookup_empty in Hl.
  - rewrite handle_sharedCodes. split.
    + intros code language title uuid now Hin.
      apply elem_of_app in Hin as [Hin|Hin].
      * specialize (IH1 _ _ _ _ _ Hin).
        destruct e; try done. simpl in *.
        rewrite lookup_insert_ne; [done | congruence].
      * apply list_elem_of_singleton in Hin as <-. simpl.
        apply lookup_insert_eq.
    + intros codeId Hsome.
      destruct e;
        try (destruct (IH2 codeId Hsome) as (c & l & t & n & Hin);
             exists c, l, t, n; apply elem_of_app; by left).
      simpl in *. destruct (decide (uuid = codeId)) as [->|Hne].
      * eexists _, _, _, _. apply elem_of_app. right.
        apply list_elem_of_singleton. reflexivity.
      * rewrite lookup_insert_ne in Hsome by done.
        destruct (IH2 codeId Hsome) as (c & l & t & n & Hin).
        exists c, l, t, n. apply elem_of_app. by left.
Qed.

(** C9.  In every state the server reaches, the snippet of a share
    request is retrieved under the id the share answered with, with the
    code and language of the request and its title, ['Untitled'] standing
    for a missing or empty one; an id no share request answered with is
    answered 404 with a JSON error body. *)
Theorem share_then_retrieve tr s :
  execution tr s →
  (∀ code language title uuid now,
     EShare code language title uuid now ∈ tr →
     body (share code language title uuid now ∅).2
     = BShared uuid ("/share/" +:+ uuid)
     ∧ get_share uuid (sharedCodes s)
       = {| status := 200;
            body := BSnippet {| sn_code := code; sn_language := language;
                                sn_title := or_default title "Untitled";
                                sn_createdAt := now |} |})
  ∧ (∀ codeId,
       (∀ code language title now,
          EShare code language title codeId now ∉ tr) →
       get_share codeId (sharedCodes s)
       = {| status := 404; body := BError "Shared code not found" |}).
Proof.
  intros Hexec. destruct (sharedCodes_execution tr s Hexec) as [H1 H2].
  split.
  - intros code language title uuid now Hin. split; [done |].
    unfold get_share. by rewrite (H1 _ _ _ _ _ Hin).
  - intros codeId Hnot. unfold get_share.
    destruct (sharedCodes s !! codeId) as [sn|] eqn:Hl; [|done].
    destruct (H2 codeId) as (c & l & t & n & Hin); [by eexists |].
    by destruct (Hnot c l t n).
Qed.

Lemma execution_extend tr0 s tr :
  execution tr0 s → valid_from tr s = true →
  execution (tr0 ++ tr) (run_events tr s).
Proof.
  revert tr0 s. induction tr as [|e tr IH]; intros tr0 s Hexec Hvalid.
  - by rewrite app_nil_r.
  - simpl in Hvalid. apply andb_true_iff in Hvalid as [He Hvalid].
    apply bool_decide_eq_true in He.
    replace (tr0 ++ e :: tr) with ((tr0 ++ [e]) ++ tr)
      by by rewrite <- app_assoc.
    apply IH; [by apply exec_step | done].
Qed.

(** A trace whose events are enabled one after the other is an
    execution. *)
Lemma execution_run_events tr :
  valid_from tr init = true → execution tr (run_events tr init).
Proof. apply (execution_extend [] init tr), exec_init. Qed.

Lemma share_then_retrieve_witness :
  let s := run_events
             [EShare (Some "print(1)") (Some "python") None "0b1f"
                1700000000000] init in
  get_share "0b1f" (sharedCodes s)
  = {| status := 200;
       body := BSnippet {| sn_code := Some "print(1)";
                           sn_language := Some "python";
                           sn_title := "Untitled";
                           sn_createdAt := 1700000000000 |} |}
  ∧ get_share "77aa" (sharedCodes s)
    = {| status := 404; body := BError "Shared code not found" |}.
Proof.
  destruct (share_then_retrieve
              [EShare (Some "print(1)") (Some "python") None "0b1f"
                 1700000000000]
              (run_events
                 [EShare (Some "print(1)") (Some "python") None "0b1f"
                    1700000000000] init)) as [Hshared Hunknown].
  { apply execution_run_events. vm_compute. reflexivity. }
  split.
  - apply (Hshared (Some "print(1)") (Some "python") None "0b1f"
             1700000000000%N).
    apply elem_of_cons. left. reflexivity.
  - apply Hunknown. intros code language title now Hin.
    apply elem_of_cons in Hin as [Heq|Hin]; [discriminate |].
    by apply elem_of_nil in Hin.
Defined.

(** ** Insertion-ordered maps *)

Section JsMapFacts.
Context {V : Type}.
Implicit Types (m : list (string * V)) (k : string) (v : V).

Lemma map_get_set_eq k v m : map_get k (map_set k v m) = Some v.
Proof.
  induction m as [|[k' v'] m IH]; simpl.
  - by rewrite String.eqb_refl.
  - destruct (String.eqb_spec k k') as [->|Hne]; simpl.
    + by rewrite String.eqb_refl.
    + by destruct (String.eqb_spec k k').
Qed.

Lemma map_get_set_ne k k' v m :
  k ≠ k' → map_get k' (map_set k v m) = map_get k' m.
Proof.
  intros Hne. induction m as [|[k0 v0] m IH]; simpl.
  - by destruct (String.eqb_spec k' k); [congruence |].
  - destruct (String.eqb_spec k k0) as [->|Hne0]; simpl.
    + by destruct (String.eqb_spec k' k0); [congruence |].
    + by rewrite IH.
Qed.

Lemma map_has_get k m : map_has k m = true ↔ is_Some (map_get k m).
Proof.
  unfold map_has. destruct (map_get k m); split; try done.
Qed.

Lemma map_has_false k m : map_has k m = false ↔ map_get k m = None.
Proof. unfold map_has. by destruct (map_get k m). Qed.

Lemma map_get_Some_elem k v m : map_get k m = Some v → (k, v) ∈ m.
Proof.
  induction m as [|[k' v'] m IH]; simpl; [done |].
  destruct (String.eqb_spec k k') as [->|Hne].
  - intros [= ->]. apply elem_of_cons. by left.
  - intros H. apply elem_of_cons. right. by apply IH.
Qed.

Lemma map_get_None_keys k m : map_get k m = None ↔ k ∉ m.*1.
Proof.
  induction m as [|[k' v'] m IH]; simpl.
  - split; [intros _; apply not_elem_of_nil | done].
  - rewrite not_elem_of_cons.
    destruct (String.eqb_spec k k') as [->|Hne]; [naive_solver |].
    rewrite IH. naive_solver.
Qed.

Lemma map_delete_sublist k m : sublist (map_delete k m) m.
Proof.
  induction m as [|[k' v'] m IH]; simpl; [done |].
  destruct (String.eqb k k'); [by apply sublist_cons | by apply sublist_skip].
Qed.

Lemma map_get_delete_None k k' m :
  map_get k' m = None → map_get k' (map_delete k m) = None.
Proof.
  rewrite !map_get_None_keys. intros Hk Hin. apply Hk.
  eapply elem_of_sublist; [done |].
  apply fmap_sublist, map_delete_sublist.
Qed.

Lemma map_get_delete_eq k m :
  NoDup m.*1 → map_get k (map_delete k m) = None.
Proof.
  induction m as [|[k' v'] m IH]; simpl; intros Hnd; [done |].
  apply NoDup_cons in Hnd as [Hk' Hnd].
  destruct (String.eqb_spec k k') as [->|Hne]; simpl.
  - by apply map_get_None_keys.
  - destruct (String.eqb_spec k k'); [done | by apply IH].
Qed.

Lemma map_delete_NoDup k m : NoDup m.*1 → NoDup (map_delete k m).*1.
Proof.
  intros Hnd. eapply sublist_NoDup; [done |].
  apply fmap_sublist, map_delete_sublist.
Qed.

Lemma map_set_keys k v m :
  (map_set k v m).*1 = if map_has k m then m.*1 else m.*1 ++ [k].
Proof.
  unfold map_has. induction m as [|[k' v'] m IH]; [done |].
  simpl map_set. simpl map_get.
  destruct (String.eqb_spec k k') as [->|Hne]; [done |].
  rewrite !fmap_cons, IH. by destruct (map_get k m).
Qed.

Lemma map_set_NoDup k v m : NoDup m.*1 → NoDup (map_set k v m).*1.
Proof.
  intros Hnd. rewrite map_set_keys.
  destruct (map_has k m) eqn:Hhas; [done |].
  apply NoDup_app. split; [done |]. split; [|apply NoDup_singleton].
  intros x Hx ->%list_elem_of_singleton.
  by apply map_has_false, map_get_None_keys in Hhas.
Qed.

Lemma elem_of_map_set k v m k' v' :
  (k', v') ∈ map_set k v m → (k' = k ∧ v' = v) ∨ (k', v') ∈ m.
Proof.
  induction m as [|[k0 v0] m IH]; simpl.
  - intros [= -> ->]%list_elem_of_singleton. by left.
  - destruct (String.eqb_spec k k0) as [->|Hne].
    + intros [[= -> ->]|Hin]%elem_of_cons; [by left |].
      right. apply elem_of_cons. by right.
    + intros [[= -> ->]|Hin]%elem_of_cons.
      * right. apply elem_of_cons. by left.
      * destruct (IH Hin) as [?|?]; [by left |].
        right. apply elem_of_cons. by right.
Qed.

Lemma map_set_values_NoDup k v m :
  NoDup m.*2 → v ∉ m.*2 → NoDup (map_set k v m).*2.
Proof.
  induction m as [|[k0 v0] m IH]; intros Hnd Hv.
  - apply NoDup_singleton.
  - rewrite fmap_cons in Hnd, Hv. simpl in Hnd, Hv.
    apply NoDup_cons in Hnd as [Hv0 Hnd].
    apply not_elem_of_cons in Hv as [Hne Hv].
    simpl. destruct (String.eqb k k0); rewrite fmap_cons; simpl.
    + by apply NoDup_cons.
    + apply NoDup_cons. split; [|by apply IH].
      intros ([k1 v1] & Heq & Hin)%list_elem_of_fmap. simpl in Heq. subst v1.
      apply elem_of_map_set in Hin as [[_ ->]|Hin]; [done |].
      apply Hv0. apply list_elem_of_fmap. by exists (k1, v0).
Qed.
End JsMapFacts.

(** ** Events that name an unknown room *)

(** C7.  A [code-change] for a session id that is not in [pairSessions],
    and a [group-code-change], [send-message] or [add-question] for a group
    id that is not in [studyGroups], does nothing: the handler has no
    throwing step, it emits no event and the state after it is the state
    before it. *)
Theorem unknown_id_is_silent_noop s sid id code language text username uuid
    now :
  (map_has id (pairSessions s) = false →
   code_change sid id code language s = (s, []))
  ∧ (map_has id (studyGroups s) = false →
     group_code_change sid id code language s = (s, [])
     ∧ send_message sid id text username uuid now s = (s, [])
     ∧ add_question sid id text username uuid now s = (s, [])).
Proof.
  split.
  - intros H%map_has_false. unfold code_change. by rewrite H.
  - intros H%map_has_false.
    unfold group_code_change, send_message, add_question. by rewrite H.
Qed.

Lemma unknown_id_is_silent_noop_witness :
  let s := run_events [EConnect "a"; EJoinPairSession "a" "room";
                       EJoinStudyGroup "a" "g" 1700000000000] init in
  code_change "a" "no-such-room" (Some "x = 1") (Some "python") s = (s, [])
  ∧ group_code_change "a" "no-such-room" (Some "x = 1") (Some "python") s
    = (s, [])
  ∧ send_message "a" "no-such-room" (Some "hello") (Some "ann") "0b1f"
      1700000000001 s = (s, [])
  ∧ add_question "a" "no-such-room" (Some "hello") (Some "ann") "0b1f"
      1700000000001 s = (s, []).
Proof.
  set (s := run_events [EConnect "a"; EJoinPairSession "a" "room";
                        EJoinStudyGroup "a" "g" 1700000000000] init).
  destruct (unknown_id_is_silent_noop s "a" "no-such-room" (Some "x = 1")
              (Some "python") (Some "hello") (Some "ann") "0b1f"
              1700000000001) as [Hpair Hgroup].
  split; [apply Hpair; reflexivity |].
  destruct Hgroup as (Hedit & Hchat & Hquestion); [reflexivity |].
  split; [exact Hedit |]. split; [|exact Hquestion].
  exact Hchat.
Defined.

(** ** Pair sessions and their document *)

Lemma received_deliver_other sid event event' payload to :
  event' ≠ event → received sid event (deliver event' payload to) = [].
Proof.
  intros Hne. unfold received, deliver.
  induction to as [|r to IH]; [done |].
  rewrite fmap_cons, filter_cons_False; [done |]. simpl. naive_solver.
Qed.

Lemma received_cons_hit sid event payload out :
  received sid event
    ({| e_to := sid; e_event := event; e_payload := payload |} :: out)
  = payload :: received sid event out.
Proof. unfold received. by rewrite filter_cons_True. Qed.

Lemma join_pair_session_new s sid sessionId :
  map_get sessionId (pairSessions s) = None →
  received sid "session-state" (join_pair_session sid sessionId s).2
  = [PSessionState (s_code default_session) (s_language default_session)]
  ∧ session_document sessionId (join_pair_session sid sessionId s).1
    = Some (s_code default_session, s_language default_session).
Proof.
  intros Hget. unfold join_pair_session. simpl.
  rewrite (proj2 (map_has_false _ _) Hget). simpl.
  rewrite map_get_set_eq. simpl. split.
  - rewrite received_cons_hit. unfold socket_to_emit.
    by rewrite received_deliver_other.
  - unfold session_document. simpl. by rewrite map_get_set_eq.
Qed.

Lemma join_pair_session_existing s sid sessionId session :
  map_get sessionId (pairSessions s) = Some session →
  received sid "session-state" (join_pair_session sid sessionId s).2
  = [PSessionState (s_code session) (s_language session)]
  ∧ session_document sessionId (join_pair_session sid sessionId s).1
    = session_document sessionId s.
Proof.
  intros Hget. unfold join_pair_session. simpl.
  assert (map_has sessionId (pairSessions s) = true) as ->
    by (apply map_has_get; by eexists).
  simpl. rewrite Hget. simpl. split.
  - rewrite received_cons_hit. unfold socket_to_emit.
    by rewrite received_deliver_other.
  - unfold session_document. simpl. by rewrite map_get_set_eq, Hget.
Qed.

Lemma join_pair_session_other s sid sessionId id :
  sessionId ≠ id →
  session_document id (join_pair_session sid sessionId s).1
  = session_document id s.
Proof.
  intros Hne. unfold join_pair_session, session_document. simpl.
  destruct (map_has sessionId (pairSessions s)); simpl;
    destruct (map_get sessionId _) eqn:Hget; simpl;
    by rewrite ?map_get_set_ne by done.
Qed.

Lemma disconnect_session_document sid acc entry id :
  session_document id (disconnect_session sid acc entry).1
  = session_document id acc.1.
Proof.
  unfold disconnect_session, session_document.
  destruct acc as [s out], entry as [k x]. simpl.
  destruct (map_get k (pairSessions s)) as [session|] eqn:Hget; [|done].
  destruct (indexOf sid (s_users session)); [|done]. simpl.
  destruct (decide (k = id)) as [->|Hne].
  - by rewrite map_get_set_eq, Hget.
  - by rewrite map_get_set_ne.
Qed.

Lemma disconnect_document sid s id :
  session_document id (disconnect sid s).1 = session_document id s.
Proof.
  unfold disconnect.
  apply (foldl_keeps (λ s', session_document id s' = session_document id s)).
  { intros acc x <-. unfold session_document.
    by destruct (disconnect_group_frame sid acc x) as (_ & -> & _). }
  apply (foldl_keeps (λ s', session_document id s' = session_document id s));
    [|reflexivity].
  intros acc x <-. apply disconnect_session_document.
Qed.

Lemma handle_session_document e s id :
  changes_session id e = false →
  is_Some (session_document id s) →
  session_document id (handle e s) = session_document id s.
Proof.
  intros Hch Hsome. destruct e; simpl in *; try reflexivity.
  - destruct (decide (sessionId = id)) as [->|Hne].
    + unfold session_document in Hsome.
      destruct (map_get id (pairSessions s)) as [session|] eqn:Hget;
        [|by destruct Hsome].
      by apply (join_pair_session_existing s sid id session).
    + by apply join_pair_session_other.
  - apply String.eqb_neq in Hch.
    unfold code_change, session_document.
    destruct (map_get sessionId (pairSessions s)); [|done]. simpl.
    by rewrite map_get_set_ne.
  - unfold join_study_group, session_document. handler_cases.
  - unfold group_code_change, session_document. handler_cases.
  - unfold send_message, session_document. handler_cases.
  - unfold add_question, session_document. handler_cases.
  - apply disconnect_document.
Qed.

Lemma run_events_session_document tr s id :
  forallb (λ e, negb (changes_session id e)) tr = true →
  is_Some (session_document id s) →
  session_document id (run_events tr s) = session_document id s.
Proof.
  revert s. induction tr as [|e tr IH]; intros s Hno Hsome; [done |].
  simpl in Hno. apply andb_true_iff in Hno as [He Hno].
  apply negb_true_iff in He. simpl.
  rewrite IH; [by apply handle_session_document | done |].
  by rewrite handle_session_document.
Qed.

(** C5.  Joining a pair session id that is not in the registry creates the
    session with the welcome document and sends it to the joiner; joining
    an id that is there sends the document the session holds and leaves it
    as it is.  So after a [code-change] on an existing session, whatever
    else happens short of another [code-change] on it, a joiner is sent the
    code that was written. *)
Theorem pair_session_join_document s sid sessionId :
  (map_get sessionId (pairSessions s) = None →
   received sid "session-state" (join_pair_session sid sessionId s).2
   = [PSessionState
        (Some ("// Welcome to pair programming!" +:+ newline
               +:+ "// Start coding together..."))
        "javascript"]
   ∧ session_document sessionId (join_pair_session sid sessionId s).1
     = Some (Some ("// Welcome to pair programming!" +:+ newline
                   +:+ "// Start coding together..."),
             "javascript"))
  ∧ (∀ session,
       map_get sessionId (pairSessions s) = Some session →
       received sid "session-state" (join_pair_session sid sessionId s).2
       = [PSessionState (s_code session) (s_language session)]
       ∧ session_document sessionId (join_pair_session sid sessionId s).1
         = session_document sessionId s
       ∧ ∀ writer code language tr,
           forallb (λ e, negb (changes_session sessionId e)) tr = true →
           received sid "session-state"
             (join_pair_session sid sessionId
                (run_events tr
                   (code_change writer sessionId code language s).1)).2
           = [PSessionState code (or_default language (s_language session))]).
Proof.
  split; [apply join_pair_session_new |].
  intros session Hget.
  destruct (join_pair_session_existing s sid sessionId session Hget)
    as [Hrecv Hdoc].
  repeat split; [done.. |].
  intros writer code language tr Hno.
  set (s1 := (code_change writer sessionId code language s).1).
  assert (session_document sessionId s1
          = Some (code, or_default language (s_language session))) as Hdoc1.
  { unfold s1, code_change, session_document. rewrite Hget. simpl.
    by rewrite map_get_set_eq. }
  assert (session_document sessionId (run_events tr s1)
          = Some (code, or_default language (s_language session))) as Hdoc2.
  { rewrite run_events_session_document; [done.. |]. by rewrite Hdoc1. }
  unfold session_document in Hdoc2.
  destruct (map_get sessionId (pairSessions (run_events tr s1)))
    as [session'|] eqn:Hget'; [|done].
  injection Hdoc2 as <- <-.
  by apply join_pair_session_existing.
Qed.

(** ** The directory of study groups *)

Lemma directory_wf_init : directory_wf init.
Proof.
  split; simpl; try done; try apply NoDup_nil_2.
  intros k r Hin. by apply elem_of_nil in Hin.
Qed.

(** A step that leaves both maps and the size of the store alone. *)
Lemma directory_wf_same_maps s s' :
  studyGroups s' = studyGroups s →
  globalStudyGroups s' = globalStudyGroups s →
  length (groups s') = length (groups s) →
  directory_wf s → directory_wf s'.
Proof.
  intros E1 E2 E3 [? ? ? ?]. split; rewrite ?E1, ?E2, ?E3; done.
Qed.

(** A step that allocates a group object and binds an id to it in both
    maps. *)
Lemma directory_wf_alloc s s' groupId :
  studyGroups s' = map_set groupId (length (groups s)) (studyGroups s) →
  globalStudyGroups s'
  = map_set groupId (length (groups s)) (globalStudyGroups s) →
  length (groups s') = S (length (groups s)) →
  directory_wf s → directory_wf s'.
Proof.
  intros E1 E2 E3 [Hsame Hkeys Hrefs Hbound].
  split; rewrite ?E1, ?E2, ?E3.
  - by rewrite Hsame.
  - by apply map_set_NoDup.
  - apply map_set_values_NoDup; [done |].
    intros ([k r] & Heq & Hin)%list_elem_of_fmap. simpl in Heq. subst r.
    pose proof (Hbound _ _ Hin). lia.
  - intros k r [[_ ->]|Hin]%elem_of_map_set; [lia |].
    pose proof (Hbound _ _ Hin). lia.
Qed.

(** A step that deletes an id from both maps. *)
Lemma directory_wf_delete s s' groupId :
  studyGroups s' = map_delete groupId (studyGroups s) →
  globalStudyGroups s' = map_delete groupId (globalStudyGroups s) →
  length (groups s') = length (groups s) →
  directory_wf s → directory_wf s'.
Proof.
  intros E1 E2 E3 [Hsame Hkeys Hrefs Hbound].
  split; rewrite ?E1, ?E2, ?E3.
  - by rewrite Hsame.
  - by apply map_delete_NoDup.
  - eapply sublist_NoDup; [done |]. apply fmap_sublist, map_delete_sublist.
  - intros k r Hin. apply (Hbound k).
    eapply elem_of_sublist; [done | apply map_delete_sublist].
Qed.

Lemma join_pair_session_frame sid sessionId s :
  let s' := (join_pair_session sid sessionId s).1 in
  groups s' = groups s ∧ studyGroups s' = studyGroups s
  ∧ globalStudyGroups s' = globalStudyGroups s
  ∧ io s' = socket_join sid sessionId (io s).
Proof. unfold join_pair_session. handler_cases. Qed.

Lemma code_change_frame sid sessionId code language s :
  let s' := (code_change sid sessionId code language s).1 in
  groups s' = groups s ∧ studyGroups s' = studyGroups s
  ∧ globalStudyGroups s' = globalStudyGroups s ∧ io s' = io s.
Proof. unfold code_change. handler_cases. Qed.

Lemma group_code_change_frame sid groupId code language s :
  let s' := (group_code_change sid groupId code language s).1 in
  pairSessions s' = pairSessions s ∧ studyGroups s' = studyGroups s
  ∧ globalStudyGroups s' = globalStudyGroups s ∧ io s' = io s
  ∧ length (groups s') = length (groups s).
Proof.
  unfold group_code_change. handler_cases. by rewrite length_insert.
Qed.

Lemma send_message_frame sid groupId text username uuid now s :
  let s' := (send_message sid groupId text username uuid now s).1 in
  pairSessions s' = pairSessions s ∧ studyGroups s' = studyGroups s
  ∧ globalStudyGroups s' = globalStudyGroups s ∧ io s' = io s
  ∧ length (groups s') = length (groups s).
Proof. unfold send_message. handler_cases. by rewrite length_insert. Qed.

Lemma add_question_frame sid groupId text username uuid now s :
  let s' := (add_question sid groupId text username uuid now s).1 in
  pairSessions s' = pairSessions s ∧ studyGroups s' = studyGroups s
  ∧ globalStudyGroups s' = globalStudyGroups s ∧ io s' = io s
  ∧ length (groups s') = length (groups s).
Proof. unfold add_question. handler_cases. by rewrite length_insert. Qed.

(** What [join-study-group] does to the registry: in a well-formed state
    the id is either known to both maps, and its group gains the user, or
    known to neither, and a new group with the user as its only member is
    bound to it in both. *)
Lemma join_study_group_cases sid groupId now s :
  directory_wf s →
  let s' := (join_study_group sid groupId now s).1 in
  pairSessions s' = pairSessions s ∧ sharedCodes s' = sharedCodes s
  ∧ io s' = socket_join sid groupId (io s)
  ∧ ((∃ ref group,
        map_get groupId (studyGroups s) = Some ref
        ∧ groups s !! ref = Some group
        ∧ studyGroups s' = studyGroups s
        ∧ globalStudyGroups s' = globalStudyGroups s
        ∧ groups s'
          = <[ref :=
                group_with_users
                  (g_users group
                   ++ [{| u_id := sid;
                          u_name :=
                            "User" +:+ pretty (length (g_users group) + 1) |}])
                  group]> (groups s))
     ∨ (map_get groupId (studyGroups s) = None
        ∧ studyGroups s'
          = map_set groupId (length (groups s)) (studyGroups s)
        ∧ globalStudyGroups s'
          = map_set groupId (length (groups s)) (globalStudyGroups s)
        ∧ groups s'
          = groups s
            ++ [group_with_users [{| u_id := sid; u_name := "User1" |}]
                  (new_group groupId ("Study Group " +:+ groupId) now)])).
Proof.
  intros [Hsame Hkeys Hrefs Hbound]. unfold join_study_group. simpl.
  rewrite <- Hsame.
  destruct (map_get groupId (studyGroups s)) as [ref|] eqn:Hget.
  - assert (map_has groupId (studyGroups s) = true) as ->
      by (apply map_has_get; by eexists).
    simpl.
    assert (ref < length (groups s)) as Hlt
      by by apply (Hbound groupId), map_get_Some_elem.
    destruct (lookup_lt_is_Some_2 _ _ Hlt) as [group Hgroup].
    rewrite Hgroup. simpl. repeat split; [done.. |].
    left. exists ref, group. by rewrite <- Hsame.
  - simpl. rewrite lookup_app_r by done.
    rewrite Nat.sub_diag. simpl. repeat split; [done.. |].
    right. repeat split; [done.. |].
    rewrite insert_app_r_alt by done. by rewrite Nat.sub_diag.
Qed.

Lemma join_study_group_directory sid groupId now s :
  directory_wf s → directory_wf (join_study_group sid groupId now s).1.
Proof.
  intros Hwf.
  destruct (join_study_group_cases sid groupId now s Hwf)
    as (_ & _ & _ & [(ref & group & _ & _ & E1 & E2 & E3)|(_ & E1 & E2 & E3)]).
  - apply (directory_wf_same_maps s); [done.. | | done].
    by rewrite E3, length_insert.
  - apply (directory_wf_alloc s _ groupId); [done.. | | done].
    rewrite E3, length_app. simpl. lia.
Qed.

Lemma create_group_directory name uuid now s :
  directory_wf s → directory_wf (create_group name uuid now s).1.
Proof.
  intros Hwf. unfold create_group. simpl.
  apply (directory_wf_alloc s _ (String.substring 0 8 uuid)); simpl;
    [done.. | | done].
  rewrite length_app. simpl. lia.
Qed.

Lemma disconnect_group_directory sid acc entry :
  directory_wf acc.1 → directory_wf (disconnect_group sid acc entry).1.
Proof.
  destruct acc as [s out], entry as [groupId ref]. simpl. intros Hwf.
  unfold disconnect_group.
  destruct (groups s !! ref) as [group|]; [|done].
  destruct (findIndex _ _) as [userIndex|]; [|done].
  destruct (g_users group !! userIndex) as [user|]; [|done].
  simpl. destruct (Nat.eqb _ 0); simpl.
  - apply (directory_wf_delete s _ groupId); simpl;
      [done.. | by rewrite length_insert | done].
  - apply (directory_wf_same_maps s); simpl;
      [done.. | by rewrite length_insert | done].
Qed.

Lemma disconnect_directory sid s :
  directory_wf s → directory_wf (disconnect sid s).1.
Proof.
  intros Hwf. unfold disconnect.
  apply (foldl_keeps directory_wf);
    [intros; by apply disconnect_group_directory |].
  apply (foldl_keeps directory_wf); [|by destruct Hwf].
  intros acc x Hacc.
  destruct (disconnect_session_frame sid acc x) as (_ & E1 & E2 & E3 & _).
  apply (directory_wf_same_maps acc.1); by rewrite ?E1.
Qed.

Lemma handle_directory e s : directory_wf s → directory_wf (handle e s).
Proof.
  intros Hwf. destruct e; simpl.
  - by destruct Hwf.
  - destruct (join_pair_session_frame sid sessionId s) as (E1 & E2 & E3 & _).
    apply (directory_wf_same_maps s); by rewrite ?E1.
  - destruct (code_change_frame sid sessionId code language s)
      as (E1 & E2 & E3 & _).
    apply (directory_wf_same_maps s); by rewrite ?E1.
  - by apply join_study_group_directory.
  - destruct (group_code_change_frame sid groupId code language s)
      as (_ & E1 & E2 & _ & E3).
    by apply (directory_wf_same_maps s).
  - destruct (send_message_frame sid groupId message username uuid now s)
      as (_ & E1 & E2 & _ & E3).
    by apply (directory_wf_same_maps s).
  - destruct (add_question_frame sid groupId question username uuid now s)
      as (_ & E1 & E2 & _ & E3).
    by apply (directory_wf_same_maps s).
  - by apply disconnect_directory.
  - by apply create_group_directory.
  - by destruct Hwf.
Qed.

Lemma execution_directory tr s : execution tr s → directory_wf s.
Proof.
  induction 1; [apply directory_wf_init | by apply handle_directory].
Qed.

Lemma list_groups_ids s id :
  id ∈ gi_id <$> list_groups s → id ∈ (globalStudyGroups s).*1.
Proof.
  intros (info & -> & Hin)%list_elem_of_fmap.
  apply list_elem_of_omap in Hin as ([k r] & Hin & Hinfo).
  destruct (groups s !! r); simpl in Hinfo; [|done].
  injection Hinfo as <-. simpl.
  apply list_elem_of_fmap. by exists (k, r).
Qed.

Lemma list_groups_entry s groupId ref group :
  (groupId, ref) ∈ globalStudyGroups s → groups s !! ref = Some group →
  {| gi_id := groupId; gi_name := g_name group;
     gi_userCount := length (g_users group);
     gi_createdAt := g_createdAt group |} ∈ list_groups s.
Proof.
  intros Hin Hgroup. apply list_elem_of_omap.
  exists (groupId, ref). split; [done |]. by rewrite Hgroup.
Qed.

Lemma disconnect_group_groups_other sid acc groupId ref ref' :
  ref ≠ ref' →
  groups (disconnect_group sid acc (groupId, ref)).1 !! ref'
  = groups acc.1 !! ref'.
Proof.
  intros Hne. destruct acc as [s out]. unfold disconnect_group.
  destruct (groups s !! ref) as [group|]; [|done].
  destruct (findIndex _ _) as [userIndex|]; [|done].
  destruct (g_users group !! userIndex) as [user|]; [|done].
  simpl. destruct (Nat.eqb _ 0); simpl; by rewrite list_lookup_insert_ne.
Qed.

Lemma disconnect_group_keeps_absent sid acc entry groupId :
  map_get groupId (studyGroups acc.1) = None
  ∧ map_get groupId (globalStudyGroups acc.1) = None →
  map_get groupId (studyGroups (disconnect_group sid acc entry).1) = None
  ∧ map_get groupId (globalStudyGroups (disconnect_group sid acc entry).1)
    = None.
Proof.
  destruct acc as [s out], entry as [k ref]. simpl. intros [H1 H2].
  unfold disconnect_group.
  destruct (groups s !! ref) as [group|]; [|done].
  destruct (findIndex _ _) as [userIndex|]; [|done].
  destruct (g_users group !! userIndex) as [user|]; [|done].
  simpl. destruct (Nat.eqb _ 0); simpl; [|done].
  split; by apply map_get_delete_None.
Qed.

(** The visit of a group whose only member is the leaving socket deletes
    the group from both maps. *)
Lemma disconnect_group_last_member sid s out groupId ref group user :
  directory_wf s →
  groups s !! ref = Some group → g_users group = [user] → u_id user = sid →
  let s' := (disconnect_group sid (s, out) (groupId, ref)).1 in
  map_get groupId (studyGroups s') = None
  ∧ map_get groupId (globalStudyGroups s') = None.
Proof.
  intros [Hsame Hkeys _ _] Hgroup Husers Hid. unfold disconnect_group.
  rewrite Hgroup, Husers. simpl. rewrite Hid, String.eqb_refl. simpl.
  rewrite <- Hsame. split; by apply map_get_delete_eq.
Qed.

Lemma disconnect_groups_remove_emptied sid groupId ref group user l :
  ∀ acc,
    NoDup l.*2 → (groupId, ref) ∈ l → directory_wf acc.1 →
    groups acc.1 !! ref = Some group → g_users group = [user] →
    u_id user = sid →
    let s' := (foldl (disconnect_group sid) acc l).1 in
    map_get groupId (studyGroups s') = None
    ∧ map_get groupId (globalStudyGroups s') = None.
Proof.
  induction l as [|[k0 r0] l IH]; intros acc Hnd Hin Hwf Hgroup Husers Hid.
  - by apply elem_of_nil in Hin.
  - rewrite fmap_cons in Hnd. apply NoDup_cons in Hnd as [Hr0 Hnd].
    simpl. apply elem_of_cons in Hin as [[= <- <-]|Hin].
    + apply (foldl_keeps
               (λ s', map_get groupId (studyGroups s') = None
                      ∧ map_get groupId (globalStudyGroups s') = None)).
      * intros acc' x. apply disconnect_group_keeps_absent.
      * destruct acc as [s out].
        by apply (disconnect_group_last_member sid s out groupId ref group
                    user).
    + assert (r0 ≠ ref) as Hne.
      { intros ->. apply Hr0. apply list_elem_of_fmap.
        by exists (groupId, ref). }
      apply IH; try done.
      * by apply disconnect_group_directory.
      * by rewrite disconnect_group_groups_other.
Qed.

(** C3.  In every state the server reaches, a study group of the live
    registry that has a member is in the global directory and in the
    listing, with its member count; and when the only member of a group
    disconnects, the group is gone from the live registry, from the global
    directory and from the listing. *)
Theorem study_group_in_directory_until_empty tr s :
  execution tr s →
  (∀ groupId group,
     live_group groupId s = Some group → g_users group ≠ [] →
     map_has groupId (globalStudyGroups s) = true
     ∧ {| gi_id := groupId; gi_name := g_name group;
          gi_userCount := length (g_users group);
          gi_createdAt := g_createdAt group |} ∈ list_groups s)
  ∧ (∀ sid groupId group user,
       live_group groupId s = Some group →
       g_users group = [user] → u_id user = sid →
       map_has groupId (studyGroups (disconnect sid s).1) = false
       ∧ map_has groupId (globalStudyGroups (disconnect sid s).1) = false
       ∧ groupId ∉ gi_id <$> list_groups (disconnect sid s).1).
Proof.
  intros Hexec. pose proof (execution_directory tr s Hexec) as Hwf.
  split.
  - intros groupId group Hlive _. unfold live_group in Hlive.
    destruct (map_get groupId (studyGroups s)) as [ref|] eqn:Hget;
      [|done].
    simpl in Hlive. destruct Hwf as [Hsame _ _ _]. split.
    + apply map_has_get. rewrite <- Hsame. by eexists.
    + apply (list_groups_entry s groupId ref); [|done].
      rewrite <- Hsame. by apply map_get_Some_elem.
  - intros sid groupId group user Hlive Husers Hid.
    unfold live_group in Hlive.
    destruct (map_get groupId (studyGroups s)) as [ref|] eqn:Hget;
      [|done].
    simpl in Hlive.
    assert (map_get groupId (studyGroups (disconnect sid s).1) = None
            ∧ map_get groupId (globalStudyGroups (disconnect sid s).1)
              = None) as [H1 H2].
    { unfold disconnect.
      set (acc := foldl (disconnect_session sid) _ _).
      assert (directory_wf acc.1 ∧ groups acc.1 = groups s
              ∧ studyGroups acc.1 = studyGroups s) as (Hwf' & Eg & Es).
      { apply (foldl_keeps
                 (λ s', directory_wf s' ∧ groups s' = groups s
                        ∧ studyGroups s' = studyGroups s)).
        - intros acc' x (Hwf' & Eg & Es).
          destruct (disconnect_session_frame sid acc' x)
            as (_ & E1 & E2 & E3 & _).
          split; [|by rewrite E1, E2].
          apply (directory_wf_same_maps acc'.1); by rewrite ?E1.
        - simpl. split; [by destruct Hwf | done]. }
      apply (disconnect_groups_remove_emptied sid groupId ref group user);
        try done.
      - rewrite Es. by destruct Hwf.
      - rewrite Es. by apply map_get_Some_elem.
      - by rewrite Eg. }
    repeat split; [by apply map_has_false.. |].
    intros Hin%list_groups_ids. by apply map_get_None_keys in H2.
Qed.

(** ** Members and socket.io rooms *)

Lemma elem_of_room_sockets room io r :
  r ∈ room_sockets room io ↔ (room, r) ∈ rooms io.
Proof.
  unfold room_sockets. rewrite list_elem_of_fmap. split.
  - intros ([room' r'] & -> & [Hroom Hin]%list_elem_of_filter).
    simpl in *. by subst.
  - intros Hin. exists (room, r). split; [done |].
    by apply list_elem_of_filter.
Qed.

Lemma elem_of_deliver e event payload to :
  e ∈ deliver event payload to
  ↔ e_event e = event ∧ e_payload e = payload ∧ e_to e ∈ to.
Proof.
  unfold deliver. rewrite list_elem_of_fmap. split.
  - by intros (r & -> & Hin).
  - intros (<- & <- & Hin). exists (e_to e). split; [by destruct e | done].
Qed.

Lemma socket_join_rooms sid room io k u :
  (k, u) ∈ rooms (socket_join sid room io)
  ↔ (k, u) ∈ rooms io ∨ (k = room ∧ u = sid).
Proof.
  unfold socket_join. simpl. case_bool_decide as Hin.
  - split; [by left | intros [?|[-> ->]]; done].
  - rewrite elem_of_app, list_elem_of_singleton. naive_solver.
Qed.

(** Every member of the new state is a member of the same room in the old
    state, or is shown to be well-formed on the spot. *)
Lemma members_wf_transfer s s' :
  members_wf s →
  (∀ sid, sid ∈ sockets (io s') → sid ∈ issued (io s')) →
  (∀ u, u ∈ issued (io s) → u ∈ issued (io s')) →
  (∀ u, u ∈ issued (io s) → u ∈ sockets (io s') → u ∈ sockets (io s)) →
  (∀ k u, u ∈ sockets (io s') → (k, u) ∈ rooms (io s) →
          (k, u) ∈ rooms (io s')) →
  (∀ k session' u,
     map_get k (pairSessions s') = Some session' → u ∈ s_users session' →
     (∃ session,
        map_get k (pairSessions s) = Some session ∧ u ∈ s_users session)
     ∨ (u ∈ issued (io s')
        ∧ (u ∈ sockets (io s') → (k, u) ∈ rooms (io s')))) →
  (∀ k r g' u,
     (k, r) ∈ studyGroups s' → groups s' !! r = Some g' → u ∈ g_users g' →
     (∃ g, (k, r) ∈ studyGroups s ∧ groups s !! r = Some g ∧ u ∈ g_users g)
     ∨ (u_id u ∈ issued (io s')
        ∧ (u_id u ∈ sockets (io s') → (k, u_id u) ∈ rooms (io s')))) →
  members_wf s'.
Proof.
  intros [Hsock Hsess Hgrp] Hsock' Hiss Hconn Hrooms Hsess' Hgrp'.
  split; [done | |].
  - intros k session' u Hget Hu.
    destruct (Hsess' k session' u Hget Hu) as [(session & Hget0 & Hu0)|?];
      [|done].
    destruct (Hsess k session u Hget0 Hu0) as [Hi Hr].
    split; [by apply Hiss |]. intros Hc.
    apply Hrooms; [done |]. apply Hr. by apply Hconn.
  - intros k r g' u Hin Hg Hu.
    destruct (Hgrp' k r g' u Hin Hg Hu) as [(g & Hin0 & Hg0 & Hu0)|?];
      [|done].
    destruct (Hgrp k r g u Hin0 Hg0 Hu0) as [Hi Hr].
    split; [by apply Hiss |]. intros Hc.
    apply Hrooms; [done |]. apply Hr. by apply Hconn.
Qed.

Lemma members_wf_init : members_wf init.
Proof.
  split; simpl.
  - intros sid Hin. by apply elem_of_nil in Hin.
  - done.
  - intros k r g u Hin. by apply elem_of_nil in Hin.
Qed.

Lemma connect_members sid s :
  sid ∉ issued (io s) → members_wf s →
  members_wf (with_io (io_connect sid (io s)) s).
Proof.
  intros Hfresh Hwf. apply (members_wf_transfer s); simpl; try done.
  - intros u [Hu| ->%list_elem_of_singleton]%elem_of_app;
      apply elem_of_app; [left; by apply Hwf | right; by left].
  - intros u Hu. apply elem_of_app. by left.
  - intros u Hu [?| ->%list_elem_of_singleton]%elem_of_app; done.
  - intros k u _ Hin. apply elem_of_app. by left.
  - intros k session' u Hget Hu. left. by exists session'.
  - intros k r g' u Hin Hg Hu. left. by exists g'.
Qed.

Lemma join_pair_session_members sid sessionId s :
  sid ∈ sockets (io s) → members_wf s →
  members_wf (join_pair_session sid sessionId s).1.
Proof.
  intros Hconn Hwf.
  destruct (join_pair_session_frame sid sessionId s) as (Eg & Es & _ & Eio).
  apply (members_wf_transfer s); rewrite ?Eio, ?Eg, ?Es; simpl; try done.
  - apply Hwf.
  - intros k u _ Hin. apply socket_join_rooms. by left.
  - intros k session' u Hget Hu.
    destruct (decide (sessionId = k)) as [->|Hne].
    + unfold join_pair_session in Hget. simpl in Hget.
      destruct (map_get k (pairSessions s)) as [session|] eqn:Hget0.
      * assert (map_has k (pairSessions s) = true) as Hhas
          by (apply map_has_get; by eexists).
        rewrite Hhas in Hget. simpl in Hget. rewrite Hget0 in Hget.
        simpl in Hget. rewrite map_get_set_eq in Hget.
        injection Hget as <-. simpl in Hu.
        apply elem_of_app in Hu as [Hu| ->%list_elem_of_singleton].
        -- left. by exists session.
        -- right. split; [by apply Hwf |]. intros _.
           apply socket_join_rooms. by right.
      * rewrite (proj2 (map_has_false _ _) Hget0) in Hget. simpl in Hget.
        rewrite map_get_set_eq in Hget. simpl in Hget.
        rewrite map_get_set_eq in Hget. injection Hget as <-. simpl in Hu.
        apply list_elem_of_singleton in Hu as ->.
        right. split; [by apply Hwf |]. intros _.
        apply socket_join_rooms. by right.
    + left. exists session'. split; [|done]. rewrite <- Hget.
      unfold join_pair_session. simpl.
      destruct (map_has sessionId (pairSessions s)); simpl;
        destruct (map_get sessionId _) eqn:Hget0; simpl;
        by rewrite ?map_get_set_ne by done.
  - intros k r g' u Hin Hg Hu. left. by exists g'.
Qed.

Lemma code_change_members sid sessionId code language s :
  members_wf s → members_wf (code_change sid sessionId code language s).1.
Proof.
  intros Hwf.
  destruct (code_change_frame sid sessionId code language s)
    as (Eg & Es & _ & Eio).
  apply (members_wf_transfer s); rewrite ?Eio, ?Eg, ?Es; try done.
  - apply Hwf.
  - intros k session' u Hget Hu. left.
    unfold code_change in Hget.
    destruct (map_get sessionId (pairSessions s)) as [session|] eqn:Hget0;
      [|by exists session'].
    simpl in Hget. destruct (decide (sessionId = k)) as [->|Hne].
    + rewrite map_get_set_eq in Hget. injection Hget as <-.
      by exists session.
    + rewrite map_get_set_ne in Hget by done. by exists session'.
  - intros k r g' u Hin Hg Hu. left. by exists g'.
Qed.

(** A step that may rewrite group objects but keeps their users. *)
Lemma members_wf_users_kept s s' :
  pairSessions s' = pairSessions s → studyGroups s' = studyGroups s →
  io s' = io s →
  (∀ r g', groups s' !! r = Some g' →
           ∃ g, groups s !! r = Some g ∧ g_users g' = g_users g) →
  members_wf s → members_wf s'.
Proof.
  intros Ep Es Eio Hkept Hwf.
  apply (members_wf_transfer s); rewrite ?Ep, ?Es, ?Eio; try done.
  - apply Hwf.
  - intros k session' u Hget Hu. left. by exists session'.
  - intros k r g' u Hin Hg Hu. left.
    destruct (Hkept r g' Hg) as (g & Hg0 & Eu). exists g.
    by rewrite <- Eu.
Qed.

Lemma insert_users_kept (l : list Group) ref g g' :
  l !! ref = Some g → g_users g' = g_users g →
  ∀ r g1, <[ref := g']> l !! r = Some g1 →
          ∃ g0, l !! r = Some g0 ∧ g_users g1 = g_users g0.
Proof.
  intros Hg Eu r g1 Hg1. destruct (decide (ref = r)) as [->|Hne].
  - rewrite list_lookup_insert_eq in Hg1 by by eapply lookup_lt_Some.
    injection Hg1 as <-. by exists g.
  - rewrite list_lookup_insert_ne in Hg1 by done. by exists g1.
Qed.

Lemma group_code_change_members sid groupId code language s :
  members_wf s →
  members_wf (group_code_change sid groupId code language s).1.
Proof.
  destruct (group_code_change_frame sid groupId code language s)
    as (Ep & Es & _ & Eio & _).
  apply members_wf_users_kept; try done.
  unfold group_code_change.
  destruct (map_get groupId (studyGroups s)) as [ref|]; [|by eauto].
  destruct (groups s !! ref) as [group|] eqn:Hg; [|by eauto].
  by apply (insert_users_kept _ ref group).
Qed.

Lemma send_message_members sid groupId text username uuid now s :
  members_wf s →
  members_wf (send_message sid groupId text username uuid now s).1.
Proof.
  destruct (send_message_frame sid groupId text username uuid now s)
    as (Ep & Es & _ & Eio & _).
  apply members_wf_users_kept; try done.
  unfold send_message.
  destruct (map_get groupId (studyGroups s)) as [ref|]; [|by eauto].
  destruct (groups s !! ref) as [group|] eqn:Hg; [|by eauto].
  by apply (insert_users_kept _ ref group).
Qed.

Lemma add_question_members sid groupId text username uuid now s :
  members_wf s →
  members_wf (add_question sid groupId text username uuid now s).1.
Proof.
  destruct (add_question_frame sid groupId text username uuid now s)
    as (Ep & Es & _ & Eio & _).
  apply members_wf_users_kept; try done.
  unfold add_question.
  destruct (map_get groupId (studyGroups s)) as [ref|]; [|by eauto].
  destruct (groups s !! ref) as [group|] eqn:Hg; [|by eauto].
  by apply (insert_users_kept _ ref group).
Qed.

Lemma NoDup_values_key {V} (m : list (string * V)) k k' v :
  NoDup m.*2 → (k, v) ∈ m → (k', v) ∈ m → k = k'.
Proof.
  induction m as [|[k0 v0] m IH]; intros Hnd Hin Hin'.
  - by apply elem_of_nil in Hin.
  - rewrite fmap_cons in Hnd. apply NoDup_cons in Hnd as [Hv0 Hnd].
    apply elem_of_cons in Hin as [Heq|Hin];
      apply elem_of_cons in Hin' as [Heq'|Hin']; simplify_eq; try done.
    + destruct Hv0. apply list_elem_of_fmap. by exists (k', v0).
    + destruct Hv0. apply list_elem_of_fmap. by exists (k, v0).
    + by apply IH.
Qed.

Lemma join_study_group_members sid groupId now s :
  sid ∈ sockets (io s) → directory_wf s → members_wf s →
  members_wf (join_study_group sid groupId now s).1.
Proof.
  intros Hconn Hdir Hwf.
  destruct (join_study_group_cases sid groupId now s Hdir)
    as (Ep & _ & Eio & Hcases).
  apply (members_wf_transfer s); rewrite ?Eio, ?Ep; simpl; try done.
  - apply Hwf.
  - intros k u _ Hin. apply socket_join_rooms. by left.
  - intros k session' u Hget Hu. left. by exists session'.
  - intros k r g' u Hin Hg Hu.
    destruct Hcases as [(ref & group & Hget & Hgroup & Es & _ & Eg)
                       |(Hget & Es & _ & Eg)];
      rewrite Es in Hin; rewrite Eg in Hg.
    + destruct (decide (ref = r)) as [->|Hne].
      * rewrite list_lookup_insert_eq in Hg by by eapply lookup_lt_Some.
        injection Hg as <-. simpl in Hu.
        assert (groupId = k) as ->.
        { eapply NoDup_values_key; [apply Hdir | | done].
          by apply map_get_Some_elem. }
        apply elem_of_app in Hu as [Hu| ->%list_elem_of_singleton].
        -- left. by exists group.
        -- right. simpl. split; [by apply Hwf |]. intros _.
           apply socket_join_rooms. by right.
      * rewrite list_lookup_insert_ne in Hg by done. left. by exists g'.
    + apply elem_of_map_set in Hin as [[-> ->]|Hin].
      * rewrite lookup_app_r, Nat.sub_diag in Hg by done.
        injection Hg as <-. simpl in Hu.
        apply list_elem_of_singleton in Hu as ->.
        right. simpl. split; [by apply Hwf |]. intros _.
        apply socket_join_rooms. by right.
      * pose proof (wf_bound s Hdir _ _ Hin) as Hlt.
        rewrite lookup_app_l in Hg by done. left. by exists g'.
Qed.

Lemma create_group_members name uuid now s :
  directory_wf s → members_wf s →
  members_wf (create_group name uuid now s).1.
Proof.
  intros Hdir Hwf. apply (members_wf_transfer s); simpl; try done.
  - apply Hwf.
  - intros k session' u Hget Hu. left. by exists session'.
  - intros k r g' u Hin Hg Hu.
    apply elem_of_map_set in Hin as [[-> ->]|Hin].
    + rewrite lookup_app_r, Nat.sub_diag in Hg by done.
      injection Hg as <-. by apply elem_of_nil in Hu.
    + pose proof (wf_bound s Hdir _ _ Hin) as Hlt.
      rewrite lookup_app_l in Hg by done. left. by exists g'.
Qed.

Lemma io_disconnect_members sid s :
  members_wf s → members_wf (with_io (io_disconnect sid (io s)) s).
Proof.
  intros Hwf. apply (members_wf_transfer s); simpl; try done.
  - intros u [_ Hu]%list_elem_of_filter. by apply Hwf.
  - by intros u _ [_ Hu]%list_elem_of_filter.
  - intros k u [Hne _]%list_elem_of_filter Hin.
    by apply list_elem_of_filter.
  - intros k session' u Hget Hu. left. by exists session'.
  - intros k r g' u Hin Hg Hu. left. by exists g'.
Qed.

Lemma elem_of_splice1 {A} (i : nat) (l : list A) x :
  x ∈ splice1 i l → x ∈ l.
Proof.
  unfold splice1. intros Hin.
  eapply elem_of_sublist; [done | apply sublist_delete].
Qed.

Lemma disconnect_session_members sid acc entry :
  members_wf acc.1 → members_wf (disconnect_session sid acc entry).1.
Proof.
  intros Hwf.
  destruct (disconnect_session_frame sid acc entry) as (_ & Eg & Es & _ & Eio).
  apply (members_wf_transfer acc.1); rewrite ?Eio, ?Eg, ?Es; try done.
  - apply Hwf.
  - intros k session' u Hget Hu. left.
    destruct acc as [s out], entry as [sessionId x].
    unfold disconnect_session in Hget. simpl in *.
    destruct (map_get sessionId (pairSessions s)) as [session|] eqn:Hget0;
      [|by exists session'].
    destruct (indexOf sid (s_users session)); [|by exists session'].
    simpl in Hget. destruct (decide (sessionId = k)) as [->|Hne].
    + rewrite map_get_set_eq in Hget. injection Hget as <-.
      exists session. split; [done |]. simpl in Hu.
      by eapply elem_of_splice1.
    + rewrite map_get_set_ne in Hget by done. by exists session'.
  - intros k r g' u Hin Hg Hu. left. by exists g'.
Qed.

Lemma disconnect_group_members sid acc entry :
  members_wf acc.1 → members_wf (disconnect_group sid acc entry).1.
Proof.
  intros Hwf.
  destruct (disconnect_group_frame sid acc entry) as (_ & Ep & Eio).
  apply (members_wf_transfer acc.1); rewrite ?Eio, ?Ep; try done.
  - apply Hwf.
  - intros k session' u Hget Hu. left. by exists session'.
  - intros k r g' u Hin Hg Hu. left.
    destruct acc as [s out], entry as [groupId ref].
    unfold disconnect_group in Hin, Hg. simpl in *.
    destruct (groups s !! ref) as [group|] eqn:Hgroup; [|by exists g'].
    destruct (findIndex _ _) as [userIndex|]; [|by exists g'].
    destruct (g_users group !! userIndex) as [user|]; [|by exists g'].
    simpl in Hin, Hg.
    assert ((k, r) ∈ studyGroups s) as Hin0.
    { destruct (Nat.eqb _ 0); simpl in Hin; [|done].
      eapply elem_of_sublist; [done | apply map_delete_sublist]. }
    assert (<[ref := group_with_users (splice1 userIndex (g_users group))
                       group]> (groups s) !! r = Some g') as Hg0
      by by destruct (Nat.eqb _ 0).
    destruct (decide (ref = r)) as [->|Hne].
    + rewrite list_lookup_insert_eq in Hg0 by by eapply lookup_lt_Some.
      injection Hg0 as <-. exists group. repeat split; [done.. |].
      simpl in Hu. by eapply elem_of_splice1.
    + rewrite list_lookup_insert_ne in Hg0 by done. by exists g'.
Qed.

Lemma disconnect_members sid s :
  members_wf s → members_wf (disconnect sid s).1.
Proof.
  intros Hwf. unfold disconnect.
  apply (foldl_keeps members_wf);
    [intros; by apply disconnect_group_members |].
  apply (foldl_keeps members_wf);
    [intros; by apply disconnect_session_members |].
  by apply io_disconnect_members.
Qed.

Lemma handle_members e s :
  enabled e s → directory_wf s → members_wf s → members_wf (handle e s).
Proof.
  intros Hen Hdir Hwf. destruct e; simpl in *.
  - by apply connect_members.
  - by apply join_pair_session_members.
  - by apply code_change_members.
  - by apply join_study_group_members.
  - by apply group_code_change_members.
  - by apply send_message_members.
  - by apply add_question_members.
  - by apply disconnect_members.
  - by apply create_group_members.
  - by destruct Hwf.
Qed.

Lemma execution_members tr s : execution tr s → members_wf s.
Proof.
  induction 1 as [|tr s e Hexec IH Hen]; [apply members_wf_init |].
  apply handle_members; [done | by eapply execution_directory | done].
Qed.

(** ** Room-scoped delivery *)

Lemma socket_to_emit_spec io sid room event payload e :
  e ∈ socket_to_emit io sid room event payload
  ↔ e_event e = event ∧ e_payload e = payload
    ∧ e_to e ∈ room_sockets room io ∧ e_to e ≠ sid.
Proof.
  unfold socket_to_emit. rewrite elem_of_deliver, list_elem_of_filter.
  naive_solver.
Qed.

Lemma io_to_emit_spec io room event payload e :
  e ∈ io_to_emit io room event payload
  ↔ e_event e = event ∧ e_payload e = payload
    ∧ e_to e ∈ room_sockets room io.
Proof. apply elem_of_deliver. Qed.

Lemma live_group_entry groupId s group :
  live_group groupId s = Some group →
  ∃ ref,
    map_get groupId (studyGroups s) = Some ref
    ∧ (groupId, ref) ∈ studyGroups s ∧ groups s !! ref = Some group.
Proof.
  unfold live_group. intros Hlive.
  destruct (map_get groupId (studyGroups s)) as [ref|] eqn:Hget; [|done].
  exists ref. repeat split; [by apply map_get_Some_elem | done].
Qed.

(** C6.  In a state the server reaches, a chat message or a question that
    a connected socket submits to a study group of the live registry is
    delivered to exactly the sockets of the room of the group, the
    sender's among them when it is in the room, and so to every connected
    member of the group, the sender included when it is a member.  A
    document edit ([group-code-change], [code-change]) is delivered to
    exactly the sockets of the room other than the sender's, so to every
    other connected member, and never to the sender. *)
Theorem chat_to_whole_room_edit_to_others tr s sid :
  execution tr s → sid ∈ sockets (io s) →
  (∀ groupId group,
     live_group groupId s = Some group →
     (∀ text username uuid now,
        let msg := {| m_id := uuid; m_text := text;
                      m_username := or_default username "Anonymous";
                      m_timestamp := now |} in
        (∀ r,
           {| e_to := r; e_event := "new-message"; e_payload := PMessage msg |}
           ∈ (send_message sid groupId text username uuid now s).2
           ↔ r ∈ room_sockets groupId (io s))
        ∧ (∀ r,
             {| e_to := r; e_event := "new-question";
                e_payload := PMessage msg |}
             ∈ (add_question sid groupId text username uuid now s).2
             ↔ r ∈ room_sockets groupId (io s))
        ∧ (∀ user,
             user ∈ g_users group → u_id user ∈ sockets (io s) →
             {| e_to := u_id user; e_event := "new-message";
                e_payload := PMessage msg |}
             ∈ (send_message sid groupId text username uuid now s).2
             ∧ {| e_to := u_id user; e_event := "new-question";
                  e_payload := PMessage msg |}
               ∈ (add_question sid groupId text username uuid now s).2))
     ∧ (∀ code language,
          (∀ r,
             {| e_to := r; e_event := "group-code-update";
                e_payload := PCodeUpdate code language |}
             ∈ (group_code_change sid groupId code language s).2
             ↔ r ∈ room_sockets groupId (io s) ∧ r ≠ sid)
          ∧ (∀ user,
               user ∈ g_users group → u_id user ∈ sockets (io s) →
               u_id user ≠ sid →
               {| e_to := u_id user; e_event := "group-code-update";
                  e_payload := PCodeUpdate code language |}
               ∈ (group_code_change sid groupId code language s).2)
          ∧ (∀ e, e ∈ (group_code_change sid groupId code language s).2 →
                  e_to e ≠ sid)))
  ∧ (∀ sessionId session,
       map_get sessionId (pairSessions s) = Some session →
       ∀ code language,
         (∀ r,
            {| e_to := r; e_event := "code-update";
               e_payload := PCodeUpdate code language |}
            ∈ (code_change sid sessionId code language s).2
            ↔ r ∈ room_sockets sessionId (io s) ∧ r ≠ sid)
         ∧ (∀ user,
              user ∈ s_users session → user ∈ sockets (io s) → user ≠ sid →
              {| e_to := user; e_event := "code-update";
                 e_payload := PCodeUpdate code language |}
              ∈ (code_change sid sessionId code language s).2)
         ∧ (∀ e, e ∈ (code_change sid sessionId code language s).2 →
                 e_to e ≠ sid)).
Proof.
  intros Hexec Hconn. pose proof (execution_members tr s Hexec) as Hwf.
  split.
  - intros groupId group Hlive.
    destruct (live_group_entry groupId s group Hlive)
      as (ref & Hget & Hin & Hgroup).
    assert (∀ user, user ∈ g_users group → u_id user ∈ sockets (io s) →
                    u_id user ∈ room_sockets groupId (io s)) as Hroom.
    { intros user Hu Hc. apply elem_of_room_sockets.
      by apply (wf_group_users s Hwf groupId ref group user). }
    split.
    + intros text username uuid now msg.
      unfold send_message, add_question. rewrite Hget, Hgroup. simpl.
      split; [|split].
      * intros r. rewrite io_to_emit_spec. simpl. naive_solver.
      * intros r. rewrite io_to_emit_spec. simpl. naive_solver.
      * intros user Hu Hc. rewrite !io_to_emit_spec. simpl.
        pose proof (Hroom user Hu Hc). naive_solver.
    + intros code language.
      unfold group_code_change. rewrite Hget, Hgroup. simpl.
      split; [|split].
      * intros r. rewrite socket_to_emit_spec. simpl. naive_solver.
      * intros user Hu Hc Hne. rewrite socket_to_emit_spec. simpl.
        pose proof (Hroom user Hu Hc). naive_solver.
      * intros e. rewrite socket_to_emit_spec. naive_solver.
  - intros sessionId session Hget code language.
    unfold code_change. rewrite Hget. simpl.
    split; [|split].
    + intros r. rewrite socket_to_emit_spec. simpl. naive_solver.
    + intros user Hu Hc Hne. rewrite socket_to_emit_spec. simpl.
      repeat split; [done.. | | done]. apply elem_of_room_sockets.
      by apply (wf_session_users s Hwf sessionId session user).
    + intros e. rewrite socket_to_emit_spec. naive_solver.
Qed.

(** ** Leaving *)

(** C4 at the input on which the code departs from it: a socket joins the
    same pair session twice and disconnects; the handler splices out the
    first of its two entries and the socket is still in the member list. *)
Theorem rejoined_socket_still_listed_after_disconnect :
  let tr := [EConnect "a"; EJoinPairSession "a" "room";
             EJoinPairSession "a" "room"; EDisconnect "a"] in
  execution tr (run_events tr init)
  ∧ s_users <$> map_get "room" (pairSessions (run_events tr init))
    = Some ["a"].
Proof.
  split; [apply execution_run_events; by vm_compute | by vm_compute].
Qed.

(** The same for a study group: the group keeps an entry of a socket that
    is gone, so it is never emptied and stays in the listing. *)
Example rejoined_socket_still_in_group_after_disconnect :
  let tr := [EConnect "a"; EJoinStudyGroup "a" "g" 1700000000000;
             EJoinStudyGroup "a" "g" 1700000000001; EDisconnect "a"] in
  execution tr (run_events tr init)
  ∧ g_users <$> live_group "g" (run_events tr init)
    = Some [{| u_id := "a"; u_name := "User2" |}]
  ∧ gi_userCount <$> list_groups (run_events tr init) = [1].
Proof.
  split; [apply execution_run_events; by vm_compute | by vm_compute].
Qed.

Lemma findIndex_None {A} (f : A → bool) (l : list A) :
  (∀ x, x ∈ l → f x = false) → findIndex f l = None.
Proof.
  induction l as [|x l IH]; intros Hf; [done |]. simpl.
  rewrite (Hf x) by (apply elem_of_cons; by left).
  rewrite IH; [done |]. intros y Hy. apply Hf, elem_of_cons. by right.
Qed.

Lemma foldl_fixed {A B} (f : A → B → A) (a : A) (l : list B) :
  (∀ x, x ∈ l → f a x = a) → foldl f a l = a.
Proof.
  induction l as [|x l IH]; intros Hf; [done |]. simpl.
  rewrite (Hf x) by (apply elem_of_cons; by left).
  apply IH. intros y Hy. apply Hf, elem_of_cons. by right.
Qed.

(** The part of C4 the code keeps: the disconnect of a socket that is in
    no member list emits nothing and changes no registry. *)
Lemma disconnect_non_member sid s :
  (∀ k session, (k, session) ∈ pairSessions s → sid ∉ s_users session) →
  (∀ k r g, (k, r) ∈ studyGroups s → groups s !! r = Some g →
            sid ∉ u_id <$> g_users g) →
  disconnect sid s = (with_io (io_disconnect sid (io s)) s, []).
Proof.
  intros Hsess Hgrp. unfold disconnect.
  rewrite (foldl_fixed (disconnect_session sid)).
  - simpl. apply foldl_fixed. intros [k r] Hin. unfold disconnect_group.
    simpl. destruct (groups s !! r) as [g|] eqn:Hg; [|done].
    rewrite findIndex_None; [done |].
    intros u Hu. apply String.eqb_neq. intros Heq.
    apply (Hgrp k r g Hin Hg). apply list_elem_of_fmap. by exists u.
  - simpl. intros [k x] Hin. unfold disconnect_session. simpl.
    destruct (map_get k (pairSessions s)) as [session|] eqn:Hget; [|done].
    unfold indexOf. rewrite findIndex_None; [done |].
    intros u Hu. apply String.eqb_neq. intros <-.
    by apply (Hsess k session (map_get_Some_elem _ _ _ Hget)).
Qed.

(** ** The theorems at concrete inputs *)

Lemma study_group_in_directory_until_empty_witness :
  let s := run_events [EConnect "a"; EJoinStudyGroup "a" "g" 1700000000000]
             init in
  (map_has "g" (globalStudyGroups s) = true
   ∧ {| gi_id := "g"; gi_name := "Study Group g"; gi_userCount := 1;
        gi_createdAt := 1700000000000 |} ∈ list_groups s)
  ∧ (map_has "g" (studyGroups (disconnect "a" s).1) = false
     ∧ map_has "g" (globalStudyGroups (disconnect "a" s).1) = false
     ∧ "g" ∉ gi_id <$> list_groups (disconnect "a" s).1).
Proof.
  set (tr := [EConnect "a"; EJoinStudyGroup "a" "g" 1700000000000]).
  set (group :=
         group_with_users [{| u_id := "a"; u_name := "User1" |}]
           (new_group "g" "Study Group g" 1700000000000)).
  destruct (study_group_in_directory_until_empty tr (run_events tr init))
    as [Hlisted Hremoved].
  { apply execution_run_events. vm_compute. reflexivity. }
  split.
  - apply (Hlisted "g" group); [reflexivity | discriminate].
  - apply (Hremoved "a" "g" group {| u_id := "a"; u_name := "User1" |});
      reflexivity.
Defined.

Example fresh_group_listed_then_gone :
  let s := run_events [EConnect "a"; EJoinStudyGroup "a" "g" 1700000000000]
             init in
  list_groups s
  = [{| gi_id := "g"; gi_name := "Study Group g"; gi_userCount := 1;
        gi_createdAt := 1700000000000 |}]
  ∧ list_groups (disconnect "a" s).1 = [].
Proof. by vm_compute. Qed.

Lemma pair_session_join_document_witness :
  let s := run_events [EConnect "a"; EConnect "b";
                       EJoinPairSession "a" "room"] init in
  received "b" "session-state" (join_pair_session "b" "fresh" s).2
  = [PSessionState
       (Some ("// Welcome to pair programming!" +:+ newline
              +:+ "// Start coding together..."))
       "javascript"]
  ∧ received "b" "session-state"
      (join_pair_session "b" "room"
         (run_events [EJoinStudyGroup "b" "g" 1700000000000;
                      ECodeChange "a" "elsewhere" (Some "y = 2") None]
            (code_change "a" "room" (Some "x = 1") (Some "python") s).1)).2
    = [PSessionState (Some "x = 1") "python"].
Proof.
  set (s := run_events [EConnect "a"; EConnect "b";
                        EJoinPairSession "a" "room"] init).
  split.
  - destruct (pair_session_join_document s "b" "fresh") as [Hnew _].
    destruct Hnew as [Hsent _]; [reflexivity | exact Hsent].
  - destruct (pair_session_join_document s "b" "room") as [_ Hknown].
    destruct (Hknown (session_with_users ["a"] default_session))
      as (_ & _ & Hlater); [reflexivity |].
    apply (Hlater "a" (Some "x = 1") (Some "python")
             [EJoinStudyGroup "b" "g" 1700000000000;
              ECodeChange "a" "elsewhere" (Some "y = 2") None]).
    reflexivity.
Defined.

Example late_joiner_sees_latest_code :
  let s := run_events [EConnect "a"; EConnect "b"; EConnect "c";
                       EJoinPairSession "a" "room";
                       EJoinPairSession "b" "room";
                       ECodeChange "a" "room" (Some "x = 1") (Some "python")]
             init in
  received "c" "session-state" (join_pair_session "c" "room" s).2
  = [PSessionState (Some "x = 1") "python"].
Proof. by vm_compute. Qed.

Lemma chat_to_whole_room_edit_to_others_witness :
  let s := run_events [EConnect "a"; EConnect "b";
                       EJoinStudyGroup "a" "g" 1700000000000;
                       EJoinStudyGroup "b" "g" 1700000000001;
                       EJoinPairSession "a" "room";
                       EJoinPairSession "b" "room"] init in
  let msg := {| m_id := "0b1f"; m_text := Some "hi";
                m_username := "Anonymous"; m_timestamp := 1700000000002 |} in
  {| e_to := "a"; e_event := "new-message"; e_payload := PMessage msg |}
  ∈ (send_message "a" "g" (Some "hi") None "0b1f" 1700000000002 s).2
  ∧ {| e_to := "b"; e_event := "new-question"; e_payload := PMessage msg |}
    ∈ (add_question "a" "g" (Some "hi") None "0b1f" 1700000000002 s).2
  ∧ {| e_to := "b"; e_event := "group-code-update";
       e_payload := PCodeUpdate (Some "x = 1") None |}
    ∈ (group_code_change "a" "g" (Some "x = 1") None s).2
  ∧ (∀ e, e ∈ (group_code_change "a" "g" (Some "x = 1") None s).2 →
          e_to e ≠ "a")
  ∧ {| e_to := "b"; e_event := "code-update";
       e_payload := PCodeUpdate (Some "x = 1") None |}
    ∈ (code_change "a" "room" (Some "x = 1") None s).2
  ∧ (∀ e, e ∈ (code_change "a" "room" (Some "x = 1") None s).2 →
          e_to e ≠ "a").
Proof.
  set (tr := [EConnect "a"; EConnect "b";
              EJoinStudyGroup "a" "g" 1700000000000;
              EJoinStudyGroup "b" "g" 1700000000001;
              EJoinPairSession "a" "room"; EJoinPairSession "b" "room"]).
  set (ann := {| u_id := "a"; u_name := "User1" |}).
  set (bob := {| u_id := "b"; u_name := "User2" |}).
  set (group :=
         group_with_users [ann; bob]
           (new_group "g" "Study Group g" 1700000000000)).
  destruct (chat_to_whole_room_edit_to_others tr (run_events tr init) "a")
    as [Hgroups Hsessions].
  { apply execution_run_events. vm_compute. reflexivity. }
  { vm_compute. apply elem_of_cons. left. reflexivity. }
  destruct (Hgroups "g" group) as [Hchat Hedit]; [reflexivity |].
  destruct (Hchat (Some "hi") None "0b1f" 1700000000002%N)
    as (_ & _ & Hmembers).
  destruct (Hedit (Some "x = 1") None) as (_ & Hothers & Hnot).
  destruct (Hsessions "room" (session_with_users ["a"; "b"] default_session))
    with (code := Some "x = 1") (language := @None string)
    as (_ & Hpeers & Hnot'); [reflexivity |].
  split.
  { apply (Hmembers ann); [| vm_compute]; apply elem_of_cons; left;
      reflexivity. }
  split.
  { apply (Hmembers bob); [| vm_compute]; apply elem_of_cons; right;
      apply elem_of_cons; left; reflexivity. }
  split.
  { apply (Hothers bob); [| vm_compute |discriminate]; apply elem_of_cons;
      right; apply elem_of_cons; left; reflexivity. }
  split; [exact Hnot |]. split; [|exact Hnot'].
  apply (Hpeers "b"); [| vm_compute |discriminate]; apply elem_of_cons;
    right; apply elem_of_cons; left; reflexivity.
Defined.

Example chat_and_edit_recipients :
  let s := run_events [EConnect "a"; EConnect "b";
                       EJoinStudyGroup "a" "g" 1700000000000;
                       EJoinStudyGroup "b" "g" 1700000000001] init in
  e_to <$> (send_message "a" "g" (Some "hi") None "0b1f" 1700000000002 s).2
  = ["a"; "b"]
  ∧ e_to <$> (group_code_change "a" "g" (Some "x = 1") None s).2 = ["b"].
Proof. by vm_compute. Qed.

(** * Further properties of the execution service *)

(** ** Temp files *)

(** X1.  Whatever the submitted code is, the class name taken from it is
    not empty and has only letters, digits and underscores: the file name
    and the argument of [java] built from it hold no separator, quote,
    space or shell character. *)
Theorem java_class_name_is_a_word code :
  extractJavaClassName code ≠ ""
  ∧ string_forall is_word (extractJavaClassName code) = true.
Proof.
  split; [apply extractJavaClassName_nonempty |].
  apply extractJavaClassName_word.
Qed.

(** X2.  What [createTempFile] does, for every code, language and time.
    In a language other than Java, and in Java when the host takes the
    name [C.java] of the class name [C], it writes a file and returns it:
    the name has no path separator and the file lies directly in the
    directory [temp], so that [path.dirname] of its path, where the Java
    and C++ commands [cd], is that directory.  In Java with a longer class
    name [writeFileSync] throws and no file is written. *)
Theorem temp_file_lies_in_temp_dir dirname win32 code language now fs :
  ((language = "java" →
    (byte_length (extractJavaClassName code +:+ ".java") ≤ NAME_MAX)%nat) →
   ∃ fs' tf,
     createTempFile dirname win32 code language now fs = (fs', Ok tf)
     ∧ plain_name win32 (fileName tf) = true
     ∧ filePath tf = path_join win32 (tempDir dirname win32) (fileName tf)
     ∧ path_dirname win32 (filePath tf) = tempDir dirname win32
     ∧ filePath tf ∈ fs')
  ∧ (language = "java" →
     (NAME_MAX < byte_length (extractJavaClassName code +:+ ".java"))%nat →
     createTempFile dirname win32 code language now fs
     = (with_tempDir dirname win32 fs, Throw "ENAMETOOLONG")).
Proof.
  split.
  - intros Hfits. destruct (decide (language = "java")) as [->|Hl].
    + rewrite createTempFile_java by auto. eexists _, _.
      split; [done |]. simpl.
      pose proof (java_file_name_plain win32 code) as Hplain.
      repeat split; [done | | set_solver].
      by apply path_dirname_temp.
    + rewrite createTempFile_other by done. eexists _, _. split; [done |].
      simpl. pose proof (temp_file_name_plain win32 language now) as Hplain.
      repeat split; [done | | set_solver].
      by apply path_dirname_temp.
  - intros -> Hlong. by apply createTempFile_java_long.
Qed.

Lemma temp_file_lies_in_temp_dir_witness :
  ∃ fs' tf,
    createTempFile "/" false "int main(){}" "constructor" 1700000000000 ∅
    = (fs', Ok tf)
    ∧ plain_name false (fileName tf) = true
    ∧ filePath tf = path_join false (tempDir "/" false) (fileName tf)
    ∧ path_dirname false (filePath tf) = tempDir "/" false
    ∧ filePath tf ∈ fs'.
Proof.
  destruct (temp_file_lies_in_temp_dir "/" false "int main(){}"
              "constructor" 1700000000000%N ∅) as [Hwritten _].
  apply Hwritten. discriminate.
Defined.

Example temp_file_of_inherited_language :
  (createTempFile "/" false "int main(){}" "constructor" 1700000000000 ∅).2
  = Ok {| filePath :=
            "/temp/temp_1700000000000function Object() { [native code] }";
          fileName :=
            "temp_1700000000000function Object() { [native code] }";
          className := None |}.
Proof. by vm_compute. Qed.

(** X3.  Two requests in languages other than Java that arrive at
    different milliseconds get different files, whatever their languages
    and codes are. *)
Theorem temp_files_of_distinct_times_differ dirname win32 code code'
    language language' now now' fs fs' :
  language ≠ "java" → language' ≠ "java" → now ≠ now' →
  ∃ fs1 fs1' tf tf',
    createTempFile dirname win32 code language now fs = (fs1, Ok tf)
    ∧ createTempFile dirname win32 code' language' now' fs' = (fs1', Ok tf')
    ∧ filePath tf ≠ filePath tf'.
Proof.
  intros Hl Hl' Hnow. rewrite !createTempFile_other by done.
  eexists _, _, _, _. split; [done |]. split; [done |]. simpl.
  intros Heq%path_join_inj. apply Hnow.
  apply String.app_inj in Heq.
  apply (inj pretty).
  destruct (extension_facts win32 language) as (_ & He & _).
  destruct (extension_facts win32 language') as (_ & He' & _).
  destruct (take_while_app is_digit (pretty now) _ (pretty_Time_digits now)
              He) as [<- _].
  destruct (take_while_app is_digit (pretty now') _
              (pretty_Time_digits now') He') as [<- _].
  by rewrite Heq.
Qed.

Lemma temp_files_of_distinct_times_differ_witness :
  ∃ fs1 fs1' tf tf',
    createTempFile "/app" false "print(1)" "python" 1700000000000 ∅
    = (fs1, Ok tf)
    ∧ createTempFile "/app" false "puts 1" "ruby" 1700000000001 ∅
      = (fs1', Ok tf')
    ∧ filePath tf ≠ filePath tf'.
Proof.
  apply (temp_files_of_distinct_times_differ "/app" false "print(1)"
           "puts 1" "python" "ruby" 1700000000000%N 1700000000001%N ∅ ∅);
    discriminate.
Defined.

(** ** Validation and cleanup *)

Lemma truthy_false x : truthy x = false ↔ x = None ∨ x = Some "".
Proof.
  destruct x as [s|]; simpl; [|naive_solver].
  destruct (String.eqb_spec s ""); simpl; naive_solver.
Qed.

Lemma run_missing_input dirname win32 code language now p toolchain fs :
  truthy code = false ∨ truthy language = false →
  run dirname win32 code language now p toolchain fs
  = (fs, Ok (res_status_json 400 (BError "Code and language are required"))).
Proof.
  intros H. unfold run, run_start, fs_bind.
  by destruct H as [-> | ->]; rewrite ?orb_true_r.
Qed.

Lemma analyze_missing_input dirname win32 code language now p toolchain fs :
  truthy code = false ∨ truthy language = false →
  analyze dirname win32 code language now p toolchain fs
  = (fs, Ok (AError 400 "Code and language are required")).
Proof.
  intros H. unfold analyze, analyze_start, fs_bind.
  by destruct H as [-> | ->]; rewrite ?orb_true_r.
Qed.

Lemma run_present_input dirname win32 code language now p toolchain fs :
  truthy code = true → truthy language = true →
  (run dirname win32 code language now p toolchain fs).2
  ≠ Ok (res_status_json 400 (BError "Code and language are required")).
Proof.
  intros Hc Hl. unfold run, run_start. rewrite Hc, Hl. simpl.
  unfold fs_bind at 1 2.
  destruct (createTempFile_cases dirname win32 (default "" code)
              (default "" language) now fs)
    as [(fs' & tf & E & _)|(fs' & e & E)]; rewrite E; [|done].
  destruct (commands win32 tf (default "" language)) as [[command|]|];
    simpl; [|done..].
  rewrite run_callback_response. by destruct (cb_error _).
Qed.

Lemma analyze_present_input dirname win32 code language now p toolchain fs :
  truthy code = true → truthy language = true →
  (analyze dirname win32 code language now p toolchain fs).2
  ≠ Ok (AError 400 "Code and language are required").
Proof.
  intros Hc Hl. unfold analyze, analyze_start. rewrite Hc, Hl. simpl.
  unfold fs_bind at 1 2.
  destruct (createTempFile_cases dirname win32 (default "" code)
              (default "" language) now fs)
    as [(fs' & tf & E & Hin)|(fs' & e & E)]; rewrite E; [|done].
  assert (∀ command,
            (analyze_callback tf (exec_callback command p) (toolchain fs')).2
            ≠ Ok (AError 400 "Code and language are required")) as Hcb.
  { intros command. unfold analyze_callback, fs_bind, try_catch.
    destruct (unlinkSync _ _). simpl. by repeat case_match. }
  destruct (String.eqb _ "javascript"); [apply Hcb |].
  destruct (String.eqb _ "python"); [apply Hcb |].
  unfold fs_bind, unlinkSync. by rewrite bool_decide_eq_true_2.
Qed.

(** X4.  [/api/run] and [/api/analyze] answer 400 "Code and language are
    required" exactly to the requests whose code or language is missing or
    empty, and for those they leave the files as they are. *)
Theorem missing_input_is_rejected_before_any_file dirname win32 code language
    now p toolchain fs :
  ((run dirname win32 code language now p toolchain fs).2
   = Ok (res_status_json 400 (BError "Code and language are required"))
   ↔ truthy code = false ∨ truthy language = false)
  ∧ ((analyze dirname win32 code language now p toolchain fs).2
     = Ok (AError 400 "Code and language are required")
     ↔ truthy code = false ∨ truthy language = false)
  ∧ (truthy code = false ∨ truthy language = false →
     (run dirname win32 code language now p toolchain fs).1 = fs
     ∧ (analyze dirname win32 code language now p toolchain fs).1 = fs).
Proof.
  split; [|split].
  - split; [|intros H; by rewrite run_missing_input].
    intros Hres. destruct (truthy code) eqn:Hc; [|by left].
    destruct (truthy language) eqn:Hl; [|by right].
    by destruct (run_present_input dirname win32 code language now p
                   toolchain fs).
  - split; [|intros H; by rewrite analyze_missing_input].
    intros Hres. destruct (truthy code) eqn:Hc; [|by left].
    destruct (truthy language) eqn:Hl; [|by right].
    by destruct (analyze_present_input dirname win32 code language now p
                   toolchain fs).
  - intros H. by rewrite run_missing_input, analyze_missing_input.
Qed.

Lemma missing_input_is_rejected_before_any_file_witness :
  (run "/app" false (Some "") (Some "python") 1700000000000
     {| exit_code := Some 0%Z; proc_stdout := ""; proc_stderr := "" |}
     id ∅).1 = ∅
  ∧ (analyze "/app" false (Some "print(1)") None 1700000000000
       {| exit_code := Some 0%Z; proc_stdout := ""; proc_stderr := "" |}
       id ∅).1 = ∅.
Proof.
  split.
  - destruct (missing_input_is_rejected_before_any_file "/app" false
                (Some "") (Some "python") 1700000000000%N
                {| exit_code := Some 0%Z; proc_stdout := "";
                   proc_stderr := "" |} id ∅) as (_ & _ & H).
    apply H. left. reflexivity.
  - destruct (missing_input_is_rejected_before_any_file "/app" false
                (Some "print(1)") None 1700000000000%N
                {| exit_code := Some 0%Z; proc_stdout := "";
                   proc_stderr := "" |} id ∅) as (_ & _ & H).
    apply H. right. reflexivity.
Defined.

(** X5.  What the callback of [/api/run] removes.  When the source file
    is there, it removes the source file, for C++ the file [output] next
    to it and for Java the class file of the class name, and nothing else.
    When the source file is gone already, [unlinkSync] throws at the first
    step and nothing is removed: a compiled artifact stays. *)
Theorem cleanup_effect win32 language tf fs :
  (filePath tf ∈ fs →
   (cleanup win32 language tf fs).1
   = fs ∖ {[filePath tf]}
       ∖ (if String.eqb language "cpp"
          then {[path_join win32 (path_dirname win32 (filePath tf)) "output"]}
          else ∅)
       ∖ (if String.eqb language "java"
          then {[path_join win32 (path_dirname win32 (filePath tf))
                   (interpolate (className tf) +:+ ".class")]}
          else ∅))
  ∧ (filePath tf ∉ fs → (cleanup win32 language tf fs).1 = fs).
Proof.
  unfold cleanup, try_catch, fs_bind, unlinkSync. split; intros Hin.
  - rewrite bool_decide_eq_true_2 by done. unfold fs_when.
    destruct (String.eqb language "cpp"), (String.eqb language "java");
      rewrite ?unlink_if_exists_eq; unfold fs_ret; simpl;
      rewrite ?unlink_if_exists_eq; simpl; set_solver.
  - by rewrite bool_decide_eq_false_2.
Qed.

Lemma cleanup_effect_witness :
  let tf := {| filePath := "/app/temp/temp_5.cpp"; fileName := "temp_5.cpp";
               className := None |} in
  (cleanup false "cpp" tf {["/app/temp/temp_5.cpp"; "/app/temp/output"]}).1
  = ({["/app/temp/temp_5.cpp"; "/app/temp/output"]} : Fs)
      ∖ {["/app/temp/temp_5.cpp"]} ∖ {["/app/temp/output"]} ∖ ∅
  ∧ (cleanup false "cpp" tf {["/app/temp/output"]}).1
    = {["/app/temp/output"]}.
Proof.
  set (tf := {| filePath := "/app/temp/temp_5.cpp";
                fileName := "temp_5.cpp"; className := None |}).
  split.
  - destruct (cleanup_effect false "cpp" tf
                {["/app/temp/temp_5.cpp"; "/app/temp/output"]}) as [H _].
    apply H. apply elem_of_union_l, elem_of_singleton. reflexivity.
  - destruct (cleanup_effect false "cpp" tf {["/app/temp/output"]})
      as [_ H].
    apply H. intros Hin%elem_of_singleton. discriminate.
Defined.

(** ** [/api/analyze] *)

Lemma drop_while_forall f s :
  string_forall f s = true ↔ drop_while f s = "".
Proof.
  induction s as [|c s IH]; [done |]. simpl.
  destruct (f c); simpl; [done | split; discriminate].
Qed.

Lemma trim_end_empty s :
  trim_end s = "" ↔ string_forall is_space s = true.
Proof.
  induction s as [|c s IH]; [done |]. simpl.
  destruct (trim_end s) as [|c' t] eqn:Ht.
  - destruct IH as [IH _]. rewrite (IH eq_refl), andb_true_r.
    destruct (is_space c); split; done.
  - split; [discriminate |]. intros [_ Hs]%andb_true_iff.
    by apply IH in Hs.
Qed.

(** A string trims to nothing exactly when it is all white space. *)
Lemma trim_empty s : trim s = "" ↔ string_forall is_space s = true.
Proof.
  unfold trim. rewrite trim_end_empty, (drop_while_forall is_space s).
  pose proof (drop_while_ends is_space s) as Hends.
  destruct (drop_while is_space s) as [|c r]; [done |]. simpl in *.
  apply negb_true_iff in Hends. rewrite Hends. split; discriminate.
Qed.

Lemma stderr_test s :
  negb (String.eqb s "") && negb (String.eqb (trim s) "")
  = negb (string_forall is_space s).
Proof.
  destruct (string_forall is_space s) eqn:Hs.
  - apply trim_empty in Hs. rewrite Hs. simpl. apply andb_false_r.
  - destruct (String.eqb_spec s "") as [->|_]; [done |].
    destruct (String.eqb_spec (trim s) "") as [Ht|_]; [|done].
    apply trim_empty in Ht. congruence.
Qed.

Lemma analyze_callback_removes_file tf a fs :
  filePath tf ∉ (analyze_callback tf a fs).1.
Proof.
  unfold analyze_callback, fs_bind, try_catch, unlinkSync, fs_ret.
  case_bool_decide; simpl; repeat case_match; simpl; set_solver.
Qed.

(** X6.  [/api/analyze] in a language other than JavaScript and Python
    answers 400 and removes the file it has just written: the file does
    not exist afterwards.  That is so in every such language but Java with
    a class name too long for a file name, where [createTempFile] throws
    before any file is written and the handler answers nothing. *)
Theorem analyze_other_language_removes_file dirname win32 code language now
    p toolchain fs :
  code ≠ "" → language ≠ "" →
  language ≠ "javascript" → language ≠ "python" →
  ((language = "java" →
    (byte_length (extractJavaClassName code +:+ ".java") ≤ NAME_MAX)%nat) →
   ∃ fs0 tf,
     createTempFile dirname win32 code language now fs = (fs0, Ok tf)
     ∧ analyze dirname win32 (Some code) (Some language) now p toolchain fs
       = (fs0 ∖ {[filePath tf]},
          Ok (AError 400
                "Analysis only supported for JavaScript and Python"))
     ∧ filePath tf ∉ fs0 ∖ {[filePath tf]})
  ∧ (language = "java" →
     (NAME_MAX < byte_length (extractJavaClassName code +:+ ".java"))%nat →
     analyze dirname win32 (Some code) (Some language) now p toolchain fs
     = (with_tempDir dirname win32 fs, Throw "ENAMETOOLONG")).
Proof.
  intros Hc Hl Hjs Hpy. apply truthy_Some in Hc, Hl. split.
  - intros Hfits.
    destruct (createTempFile_ok dirname win32 code language now fs Hfits)
      as (fs0 & tf & E & Hin).
    exists fs0, tf. split; [done |]. split; [|set_solver].
    unfold analyze, analyze_start. rewrite Hc, Hl. simpl.
    unfold fs_bind at 1 2. rewrite E.
    destruct (String.eqb_spec language "javascript"); [done |].
    destruct (String.eqb_spec language "python"); [done |].
    unfold fs_bind, unlinkSync. by rewrite bool_decide_eq_true_2.
  - intros -> Hlong. unfold analyze, analyze_start. rewrite Hc. simpl.
    unfold fs_bind at 1 2. by rewrite createTempFile_java_long.
Qed.

Lemma analyze_other_language_removes_file_witness :
  ∃ fs0 tf,
    createTempFile "/app" false "int main(){}" "cpp" 1700000000000 ∅
    = (fs0, Ok tf)
    ∧ analyze "/app" false (Some "int main(){}") (Some "cpp") 1700000000000
        {| exit_code := Some 0%Z; proc_stdout := ""; proc_stderr := "" |}
        id ∅
      = (fs0 ∖ {[filePath tf]},
         Ok (AError 400 "Analysis only supported for JavaScript and Python"))
    ∧ filePath tf ∉ fs0 ∖ {[filePath tf]}.
Proof.
  destruct (analyze_other_language_removes_file "/app" false "int main(){}"
              "cpp" 1700000000000%N
              (Ended {| exit_code := Some 0%Z; proc_stdout := "";
                        proc_stderr := "" |}) id ∅) as [Hremoved _];
    [discriminate.. |].
  apply Hremoved. discriminate.
Defined.

(** X7.  [/api/analyze] of JavaScript or Python code runs [node] or
    [python] (on every platform) on the temp file, and its verdict is
    "Code is valid!" exactly when [exec] reports no error (the exit code
    is 0 and no output passed [maxBuffer]) and standard error holds
    nothing but white space.  Otherwise the output is the text
    [Error(line info): message], the message being the standard-error text
    when that is not blank and the message of the error of [exec] when it
    is.  The temp file is gone afterwards. *)
Theorem analyze_verdict dirname win32 code language now o toolchain fs :
  code ≠ "" → language = "javascript" ∨ language = "python" →
  ∃ fs0 tf,
    createTempFile dirname win32 code language now fs = (fs0, Ok tf)
    ∧ (let command :=
         (if String.eqb language "python" then "python " else "node ")
         +:+ dquote +:+ filePath tf +:+ dquote in
       let report errMsg :=
         AResult false ("Error" +:+ line_info errMsg +:+ ": " +:+ errMsg) in
       (analyze dirname win32 (Some code) (Some language) now o toolchain
          fs).2
       = Ok match o with
            | Ended p =>
                if string_forall is_space (proc_stderr p) then
                  if decide (exit_code p = Some 0%Z)
                  then AResult true "Code is valid!"
                  else report ("Command failed: " +:+ command +:+ newline
                               +:+ proc_stderr p)
                else report (proc_stderr p)
            | Overflowed stream stdout stderr =>
                if string_forall is_space stderr
                then report (stream_name stream
                             +:+ " maxBuffer length exceeded")
                else report stderr
            | SpawnFailed message => report message
            end)
    ∧ filePath tf
      ∉ (analyze dirname win32 (Some code) (Some language) now o toolchain
           fs).1.
Proof.
  intros Hc Hl.
  assert (language ≠ "java") as Hjava by (destruct Hl; by subst).
  destruct (createTempFile_ok dirname win32 code language now fs)
    as (fs0 & tf & E & Hin); [done |].
  exists fs0, tf. split; [done |].
  unfold analyze, analyze_start.
  assert (language ≠ "") as Hl' by (destruct Hl; by subst).
  apply truthy_Some in Hc, Hl'. rewrite Hc, Hl'. simpl.
  unfold fs_bind at 1 2 4 5. rewrite E.
  assert (∀ command,
            (analyze_callback tf (exec_callback command o) (toolchain fs0)).2
            = Ok match o with
                 | Ended p =>
                     if string_forall is_space (proc_stderr p) then
                       if decide (exit_code p = Some 0%Z)
                       then AResult true "Code is valid!"
                       else AResult false
                              ("Error"
                               +:+ line_info ("Command failed: " +:+ command
                                              +:+ newline +:+ proc_stderr p)
                               +:+ ": " +:+ "Command failed: " +:+ command
                               +:+ newline +:+ proc_stderr p)
                     else AResult false
                            ("Error" +:+ line_info (proc_stderr p) +:+ ": "
                             +:+ proc_stderr p)
                 | Overflowed stream stdout stderr =>
                     if string_forall is_space stderr
                     then AResult false
                            ("Error"
                             +:+ line_info (stream_name stream
                                            +:+ " maxBuffer length exceeded")
                             +:+ ": " +:+ stream_name stream
                             +:+ " maxBuffer length exceeded")
                     else AResult false
                            ("Error" +:+ line_info stderr +:+ ": "
                             +:+ stderr)
                 | SpawnFailed message =>
                     AResult false
                       ("Error" +:+ line_info message +:+ ": " +:+ message)
                 end) as Hcb.
  { intros command. unfold analyze_callback, fs_bind, try_catch.
    destruct (unlinkSync (filePath tf) (toolchain fs0)) as [fs1 r].
    destruct o as [p|stream stdout stderr|message]; simpl.
    - rewrite stderr_test.
      destruct (string_forall is_space (proc_stderr p)); simpl; [|done].
      by destruct (exit_code p) as [[| |]|].
    - rewrite stderr_test.
      by destruct (string_forall is_space stderr).
    - done. }
  destruct Hl as [-> | ->]; simpl; (split; [apply Hcb |]);
    apply analyze_callback_removes_file.
Qed.

Lemma analyze_verdict_witness :
  ∃ fs0 tf,
    createTempFile "/app" false "print(" "python" 1700000000000 ∅
    = (fs0, Ok tf)
    ∧ (let command := "python " +:+ dquote +:+ filePath tf +:+ dquote in
       let report errMsg :=
         AResult false ("Error" +:+ line_info errMsg +:+ ": " +:+ errMsg) in
       (analyze "/app" false (Some "print(") (Some "python") 1700000000000
          {| exit_code := Some 1%Z; proc_stdout := "";
             proc_stderr := "  File x.py, line 1" |} id ∅).2
       = Ok (report "  File x.py, line 1"))
    ∧ filePath tf
      ∉ (analyze "/app" false (Some "print(") (Some "python") 1700000000000
           {| exit_code := Some 1%Z; proc_stdout := "";
              proc_stderr := "  File x.py, line 1" |} id ∅).1.
Proof.
  apply (analyze_verdict "/app" false "print(" "python" 1700000000000%N
           (Ended {| exit_code := Some 1%Z; proc_stdout := "";
                     proc_stderr := "  File x.py, line 1" |}) id ∅).
  - discriminate.
  - right. reflexivity.
Defined.

(** Valid code that prints more than [maxBuffer]: [exec] reports an error
    and the verdict is a failure. *)
Example analyze_output_beyond_maxBuffer :
  (analyze "/app" false (Some "print('x' * 2000000)") (Some "python")
     1700000000000 (Overflowed Stdout "xxxx" "") id ∅).2
  = Ok (AResult false "Error: stdout maxBuffer length exceeded").
Proof. by vm_compute. Qed.

(** ** The line number of a diagnostic *)

Lemma search_first_unfold here s :
  search_first here s =
  match here s with
  | Some w => Some w
  | None =>
      match s with
      | EmptyString => None
      | String _ s' => search_first here s'
      end
  end.
Proof. by destruct s. Qed.

Section Search.
Variable here : string → option string.
Variable mark : string → string → Prop.
Hypothesis here_spec : ∀ s d, here s = Some d ↔ mark s d.

Lemma search_first_None s : search_first here s = None → nowhere mark s.
Proof.
  induction s as [|c s IH]; rewrite search_first_unfold;
    destruct (here _) as [w0|] eqn:Hhere; try discriminate;
    intros Hm before from d Heq Hmark; apply here_spec in Hmark.
  - destruct before; [|discriminate]. rewrite append_nil in Heq.
    congruence.
  - destruct before as [|c' before].
    + rewrite append_nil in Heq. congruence.
    + rewrite append_cons in Heq. injection Heq as -> ->.
      apply (IH Hm before from d); [done | by apply here_spec].
Qed.

Lemma search_first_Some s d : search_first here s = Some d → leftmost mark s d.
Proof.
  revert d. induction s as [|c s IH]; intros d; rewrite search_first_unfold;
    destruct (here _) as [w0|] eqn:Hhere; try discriminate.
  - intros [= ->]. exists "", "". repeat split.
    + by apply here_spec.
    + simpl. lia.
  - intros [= ->]. exists "", (String c s). repeat split.
    + by apply here_spec.
    + simpl. lia.
  - intros Hm. destruct (IH d Hm) as (before & from & -> & Hmark & Hmin).
    exists (String c before), from. repeat split; [done |].
    intros before' from' d' Heq Hlen Hd.
    destruct before' as [|c' before'].
    + rewrite append_nil in Heq. subst from'.
      apply here_spec in Hd. congruence.
    + rewrite !append_cons in Heq. injection Heq as <- Heq.
      apply (Hmin before' from' d' Heq); [simpl in Hlen; lia | done].
Qed.
End Search.

Lemma strip_prefix_ci_Some p s r :
  strip_prefix_ci p s = Some r
  ↔ ∃ word, s = word +:+ r ∧ string_upper word = string_upper p.
Proof.
  revert s. induction p as [|a p IH]; intros s; simpl.
  - split.
    + intros [= ->]. by exists "".
    + intros ([|??] & -> & Hw); [done | discriminate].
  - destruct s as [|b s].
    + split; [discriminate |]. by intros ([|??] & ? & ?).
    + destruct (Ascii.eqb_spec (ascii_upper a) (ascii_upper b)) as [Hab|Hab].
      * rewrite IH. split.
        -- intros (word & -> & Hw). exists (String b word).
           split; [done |]. simpl. by rewrite Hw, Hab.
        -- intros ([|b' word] & Heq & Hw); [discriminate |].
           rewrite append_cons in Heq. injection Heq as <- ->.
           simpl in Hw. injection Hw as _ Hw. by exists word.
      * split; [discriminate |].
        intros ([|b' word] & Heq & Hw); [discriminate |].
        rewrite append_cons in Heq. injection Heq as <- ->.
        simpl in Hw. injection Hw as Hb _. congruence.
Qed.

Lemma line_here_spec s d : line_here s = Some d ↔ line_mark s d.
Proof.
  unfold line_here, line_mark. split.
  - intros H.
    apply bind_Some in H as (r & H1 & H).
    apply bind_Some in H as ([d' rest] & H2 & H).
    injection H as ->.
    apply strip_prefix_ci_Some in H1 as (word & -> & Hw).
    apply class_plus_Some in H2 as (-> & ? & ? & ?).
    by exists word, rest.
  - intros (word & rest & -> & Hw & Hne & Hd & Hend).
    apply bind_Some. exists (d +:+ rest). split.
    { apply strip_prefix_ci_Some. by exists word. }
    apply bind_Some. exists (d, rest).
    split; [by apply class_plus_Some | done].
Qed.

Lemma colon_here_spec s d : colon_here s = Some d ↔ colon_mark s d.
Proof.
  unfold colon_here, colon_mark. split.
  - intros H.
    apply bind_Some in H as (r & H1 & H).
    apply bind_Some in H as ([d' r'] & H2 & H).
    apply bind_Some in H as (rest & H3 & H).
    injection H as ->.
    apply strip_prefix_Some in H1, H3.
    apply class_plus_Some in H2 as (E2 & ? & ? & _).
    exists rest. by subst.
  - intros (rest & -> & Hne & Hd).
    apply bind_Some. exists (d +:+ ":" +:+ rest).
    split; [by apply strip_prefix_Some |].
    apply bind_Some. exists (d, ":" +:+ rest).
    split; [by apply class_plus_Some |].
    apply bind_Some. exists rest.
    split; [by apply strip_prefix_Some | done].
Qed.

(** X8.  The line info of a diagnostic.  If the text has [line N] in any
    letter case, the info shows the number of the leftmost one, even when
    a [:N:] stands further left; else if it has [:N:], the number of the
    leftmost one; else there is no info. *)
Theorem line_info_shows_first_mark errMsg :
  (∃ d, leftmost line_mark errMsg d
        ∧ line_info errMsg = " (line " +:+ d +:+ ")")
  ∨ (nowhere line_mark errMsg
     ∧ ∃ d, leftmost colon_mark errMsg d
            ∧ line_info errMsg = " (line " +:+ d +:+ ")")
  ∨ (nowhere line_mark errMsg ∧ nowhere colon_mark errMsg
     ∧ line_info errMsg = "").
Proof.
  unfold line_info, line_number.
  destruct (search_first line_here errMsg) as [d|] eqn:Hline.
  - left. exists d. split; [|done].
    by apply (search_first_Some line_here line_mark line_here_spec).
  - right.
    apply (search_first_None line_here line_mark line_here_spec) in Hline.
    destruct (search_first colon_here errMsg) as [d|] eqn:Hcolon.
    + left. split; [done |]. exists d. split; [|done].
      by apply (search_first_Some colon_here colon_mark colon_here_spec).
    + right. split; [done |]. split; [|done].
      by apply (search_first_None colon_here colon_mark colon_here_spec).
Qed.

Example line_info_of_python_trace :
  line_info ("  File " +:+ dquote +:+ "/app/temp/temp_5.py" +:+ dquote
             +:+ ", line 12" +:+ newline +:+ "SyntaxError: invalid syntax")
  = " (line 12)".
Proof. by vm_compute. Qed.

Example line_info_of_node_trace :
  line_info ("/app/temp/temp_5.js:3:7" +:+ newline
             +:+ "SyntaxError: Unexpected token")
  = " (line 3)".
Proof. by vm_compute. Qed.

(** * Further properties of the presence registry *)

(** ** Pair sessions *)

Lemma handle_keeps_session e s id :
  is_Some (map_get id (pairSessions s)) →
  is_Some (map_get id (pairSessions (handle e s))).
Proof.
  intros Hsome.
  destruct (changes_session id e) eqn:Hch.
  - destruct e; try discriminate. simpl in *.
    apply String.eqb_eq in Hch as ->. unfold code_change.
    destruct Hsome as [session ->]. simpl. rewrite map_get_set_eq.
    by eexists.
  - assert (is_Some (session_document id s)) as Hdoc.
    { unfold session_document. destruct Hsome as [session ->]. by eexists. }
    pose proof (handle_session_document e s id Hch Hdoc) as Heq.
    rewrite <- Heq in Hdoc. unfold session_document in Hdoc.
    destruct (map_get id (pairSessions (handle e s))); [by eexists |].
    by destruct Hdoc.
Qed.

(** X9.  A pair session is never removed: once its id is in the registry
    it is there after every sequence of events, the disconnect of all its
    members included. *)
Theorem pair_session_is_never_removed tr s id :
  map_has id (pairSessions s) = true →
  map_has id (pairSessions (run_events tr s)) = true.
Proof.
  rewrite !map_has_get. revert s.
  induction tr as [|e tr IH]; intros s Hsome; [done |].
  simpl. by apply IH, handle_keeps_session.
Qed.

Lemma pair_session_is_never_removed_witness :
  let s := run_events [EConnect "a"; EJoinPairSession "a" "room"] init in
  map_has "room"
    (pairSessions
       (run_events [EDisconnect "a"; EConnect "b";
                    ECodeChange "b" "room" (Some "x = 1") None] s))
  = true.
Proof.
  apply (pair_session_is_never_removed
           [EDisconnect "a"; EConnect "b";
            ECodeChange "b" "room" (Some "x = 1") None]).
  reflexivity.
Defined.

(** X10.  An edit overwrites the document: after two [code-change]s on a
    pair session its code is the second one's, whoever wrote them, and
    its language is the last one that was given, an edit without a
    language leaving the language as it was. *)
Theorem later_edit_wins s sessionId session writer writer' code code'
    language language' :
  map_get sessionId (pairSessions s) = Some session →
  session_document sessionId
    (code_change writer' sessionId code' language'
       (code_change writer sessionId code language s).1).1
  = Some (code',
          or_default language'
            (or_default language (s_language session))).
Proof.
  intros Hget. unfold code_change at 2. rewrite Hget. simpl.
  unfold code_change, session_document. simpl.
  rewrite map_get_set_eq. simpl. by rewrite map_get_set_eq.
Qed.

Lemma later_edit_wins_witness :
  let s := run_events [EConnect "a"; EConnect "b";
                       EJoinPairSession "a" "room";
                       EJoinPairSession "b" "room"] init in
  session_document "room"
    (code_change "b" "room" (Some "y = 2") None
       (code_change "a" "room" (Some "x = 1") (Some "python") s).1).1
  = Some (Some "y = 2",
          or_default None (or_default (Some "python") "javascript")).
Proof.
  apply (later_edit_wins
           (run_events [EConnect "a"; EConnect "b";
                        EJoinPairSession "a" "room";
                        EJoinPairSession "b" "room"] init)
           "room" (session_with_users ["a"; "b"] default_session)).
  reflexivity.
Defined.

(** ** The listing *)

Lemma elem_map_get_key {V} (m : list (string * V)) k v :
  NoDup m.*1 → (k, v) ∈ m → map_get k m = Some v.
Proof.
  induction m as [|[k' v'] m IH]; simpl; intros Hnd Hin.
  - by apply elem_of_nil in Hin.
  - apply NoDup_cons in Hnd as [Hk' Hnd].
    apply elem_of_cons in Hin as [Heq|Hin]; simplify_eq.
    + by rewrite String.eqb_refl.
    + destruct (String.eqb_spec k k') as [->|Hne]; [|by apply IH].
      destruct Hk'. apply list_elem_of_fmap. by exists (k', v).
Qed.



Lemma list_groups_all_valid (hp : list Group) (l : list (string * nat)) :
  (∀ k r, (k, r) ∈ l → r < length hp) →
  gi_id <$> omap (λ '(id, ref),
                    group ← hp !! ref;
                    Some {| gi_id := id; gi_name := g_name group;
                            gi_userCount := length (g_users group);
                            gi_createdAt := g_createdAt group |}) l
  = l.*1.
Proof.
  induction l as [|[k r] l IH]; intros Hvalid; [done |].
  assert (r < length hp) as Hlt by (apply (Hvalid k), elem_of_cons; by left).
  destruct (lookup_lt_is_Some_2 _ _ Hlt) as [g Hg].
  rewrite fmap_cons. unfold omap at 1. simpl. rewrite Hg. simpl.
  f_equal. apply IH.
  intros k' r' Hin. apply (Hvalid k'), elem_of_cons. by right.
Qed.

(** X11.  In every state the server reaches, [GET /api/groups] lists the
    groups of the live registry, each once and in the order of the
    registry, and every entry carries the name, creation time and member
    count of the live group of its id. *)
Theorem listing_is_the_live_registry tr s :
  execution tr s →
  gi_id <$> list_groups s = (studyGroups s).*1
  ∧ NoDup (gi_id <$> list_groups s)
  ∧ ∀ info, info ∈ list_groups s →
      ∃ group,
        live_group (gi_id info) s = Some group
        ∧ gi_name info = g_name group
        ∧ gi_userCount info = length (g_users group)
        ∧ gi_createdAt info = g_createdAt group.
Proof.
  intros Hexec. destruct (execution_directory tr s Hexec)
    as [Hsame Hkeys Hrefs Hbound].
  assert (gi_id <$> list_groups s = (studyGroups s).*1) as Hids.
  { unfold list_groups. rewrite <- Hsame.
    by apply list_groups_all_valid. }
  split; [done |]. split; [by rewrite Hids |].
  intros info Hin. unfold list_groups in Hin.
  apply list_elem_of_omap in Hin as ([k r] & Hin & Hinfo).
  rewrite <- Hsame in Hin.
  destruct (groups s !! r) as [g|] eqn:Hg; simpl in Hinfo; [|done].
  injection Hinfo as <-. simpl. exists g. split; [|done].
  unfold live_group. by rewrite (elem_map_get_key _ _ _ Hkeys Hin).
Qed.

Lemma listing_is_the_live_registry_witness :
  let s := run_events [EConnect "a"; ECreateGroup (Some "Algo Club")
                         "0b1f22aa-9c" 1700000000000;
                       EJoinStudyGroup "a" "g" 1700000000001] init in
  gi_id <$> list_groups s = (studyGroups s).*1
  ∧ NoDup (gi_id <$> list_groups s)
  ∧ ∀ info, info ∈ list_groups s →
      ∃ group,
        live_group (gi_id info) s = Some group
        ∧ gi_name info = g_name group
        ∧ gi_userCount info = length (g_users group)
        ∧ gi_createdAt info = g_createdAt group.
Proof.
  apply (listing_is_the_live_registry
           [EConnect "a";
            ECreateGroup (Some "Algo Club") "0b1f22aa-9c" 1700000000000;
            EJoinStudyGroup "a" "g" 1700000000001]).
  apply execution_run_events. vm_compute. reflexivity.
Defined.

(** ** Group objects and their logs *)

Lemma group_kept_refl g : group_kept g g.
Proof. by repeat split. Qed.

Lemma group_kept_trans g1 g2 g3 :
  group_kept g1 g2 → group_kept g2 g3 → group_kept g1 g3.
Proof.
  intros (? & ? & ? & ? & ?) (? & ? & ? & ? & ?).
  repeat split; try congruence; by etrans.
Qed.

Lemma objects_kept_refl s : objects_kept s s.
Proof. intros ref g Hg. exists g. split; [done | apply group_kept_refl]. Qed.

Lemma objects_kept_trans s1 s2 s3 :
  objects_kept s1 s2 → objects_kept s2 s3 → objects_kept s1 s3.
Proof.
  intros H12 H23 ref g Hg.
  destruct (H12 ref g Hg) as (g2 & Hg2 & K12).
  destruct (H23 ref g2 Hg2) as (g3 & Hg3 & K23).
  exists g3. split; [done | by eapply group_kept_trans].
Qed.

Lemma objects_kept_same s s' : groups s' = groups s → objects_kept s s'.
Proof. intros E ref g Hg. rewrite E. by apply objects_kept_refl. Qed.

Lemma objects_kept_insert s s' ref g0 g1 :
  groups s !! ref = Some g0 → group_kept g0 g1 →
  groups s' = <[ref := g1]> (groups s) → objects_kept s s'.
Proof.
  intros Hg0 Hkept E r g Hg. rewrite E.
  destruct (decide (ref = r)) as [->|Hne].
  - rewrite list_lookup_insert_eq by by eapply lookup_lt_Some.
    exists g1. split; [done | congruence].
  - rewrite list_lookup_insert_ne by done.
    exists g. split; [done | apply group_kept_refl].
Qed.

Lemma objects_kept_append s s' l :
  groups s' = groups s ++ l → objects_kept s s'.
Proof.
  intros E r g Hg. rewrite E. exists g.
  split; [|apply group_kept_refl].
  rewrite lookup_app_l; [done | by eapply lookup_lt_Some].
Qed.

Lemma foldl_objects_kept {A} (f : State * list Emit → A → State * list Emit) :
  (∀ acc x, objects_kept acc.1 (f acc x).1) →
  ∀ l acc, objects_kept acc.1 (foldl f acc l).1.
Proof.
  intros Hf l. induction l as [|x l IH]; intros acc; simpl.
  - apply objects_kept_refl.
  - eapply objects_kept_trans; [apply Hf | apply IH].
Qed.

Lemma disconnect_group_objects_kept sid acc entry :
  objects_kept acc.1 (disconnect_group sid acc entry).1.
Proof.
  destruct acc as [s out], entry as [groupId ref]. unfold disconnect_group.
  simpl. destruct (groups s !! ref) as [group|] eqn:Hg;
    [|apply objects_kept_refl].
  destruct (findIndex _ _) as [userIndex|]; [|apply objects_kept_refl].
  destruct (g_users group !! userIndex) as [user|];
    [|apply objects_kept_refl].
  simpl.
  apply (objects_kept_insert s _ ref group
           (group_with_users (splice1 userIndex (g_users group)) group));
    [done | by repeat split |].
  by destruct (Nat.eqb _ 0).
Qed.

Lemma handle_objects_kept e s : objects_kept s (handle e s).
Proof.
  destruct e; simpl; try by apply objects_kept_same.
  - apply objects_kept_same. apply join_pair_session_frame.
  - apply objects_kept_same. apply code_change_frame.
  - unfold join_study_group.
    destruct (match map_get groupId
                      (globalStudyGroups
                         (with_io (socket_join sid groupId (io s)) s)) with
              | Some ref => _
              | None => _
              end) as [s1 ref] eqn:Hfirst.
    assert (objects_kept s s1) as Hkept.
    { simpl in Hfirst.
      destruct (map_get groupId (globalStudyGroups s)).
      - injection Hfirst as <- <-.
        apply objects_kept_same. by destruct (map_has _ _).
      - injection Hfirst as <- <-. by eapply objects_kept_append. }
    destruct (groups s1 !! ref) as [group|] eqn:Hg; simpl; [|done].
    eapply objects_kept_trans; [exact Hkept |].
    eapply (objects_kept_insert s1 _ ref group); [done | | done].
    by repeat split.
  - unfold group_code_change.
    destruct (map_get groupId (studyGroups s)) as [ref|];
      [|apply objects_kept_refl].
    destruct (groups s !! ref) as [group|] eqn:Hg; [|apply objects_kept_refl].
    simpl. eapply (objects_kept_insert s _ ref group); [done | | done].
    by repeat split.
  - unfold send_message.
    destruct (map_get groupId (studyGroups s)) as [ref|];
      [|apply objects_kept_refl].
    destruct (groups s !! ref) as [group|] eqn:Hg; [|apply objects_kept_refl].
    simpl. eapply (objects_kept_insert s _ ref group); [done | | done].
    repeat split; [by apply prefix_app_r | done].
  - unfold add_question.
    destruct (map_get groupId (studyGroups s)) as [ref|];
      [|apply objects_kept_refl].
    destruct (groups s !! ref) as [group|] eqn:Hg; [|apply objects_kept_refl].
    simpl. eapply (objects_kept_insert s _ ref group); [done | | done].
    repeat split; [done | by apply prefix_app_r].
  - unfold disconnect.
    eapply objects_kept_trans;
      [|apply (foldl_objects_kept (disconnect_group sid)),
          disconnect_group_objects_kept].
    eapply objects_kept_trans;
      [|apply (foldl_objects_kept (disconnect_session sid))].
    + by apply objects_kept_same.
    + intros acc x. apply objects_kept_same.
      apply disconnect_session_frame.
  - unfold create_group. simpl. by eapply objects_kept_append.
Qed.

(** X12.  No event removes a group object or rewrites what identifies it
    or what was said in it: through every sequence of events each group
    object keeps its id, name and creation time, and its message and
    question logs only grow at the end. *)
Theorem group_logs_only_grow tr s ref g :
  groups s !! ref = Some g →
  ∃ g',
    groups (run_events tr s) !! ref = Some g'
    ∧ g_id g' = g_id g ∧ g_name g' = g_name g
    ∧ g_createdAt g' = g_createdAt g
    ∧ g_messages g `prefix_of` g_messages g'
    ∧ g_questions g `prefix_of` g_questions g'.
Proof.
  assert (objects_kept s (run_events tr s)) as Hkept.
  { revert s. induction tr as [|e tr IH]; intros s;
      [apply objects_kept_refl |].
    simpl. eapply objects_kept_trans; [apply handle_objects_kept | apply IH]. }
  intros Hg. destruct (Hkept ref g Hg) as (g' & Hg' & K).
  exists g'. split; [done | exact K].
Qed.

Lemma group_logs_only_grow_witness :
  let s := run_events [EConnect "a"; EJoinStudyGroup "a" "g" 1700000000000;
                       ESendMessage "a" "g" (Some "hi") None "0b1f"
                         1700000000001] init in
  let g := {| g_id := "g"; g_name := "Study Group g";
              g_createdAt := 1700000000000;
              g_users := [{| u_id := "a"; u_name := "User1" |}];
              g_code := Some ("// Welcome to the study group!" +:+ newline
                              +:+ "// Collaborate and learn together...");
              g_language := "javascript";
              g_messages := [{| m_id := "0b1f"; m_text := Some "hi";
                                m_username := "Anonymous";
                                m_timestamp := 1700000000001 |}];
              g_questions := [] |} in
  ∃ g',
    groups (run_events [ESendMessage "a" "g" (Some "again") None "77aa"
                          1700000000002;
                        EDisconnect "a"] s) !! 0 = Some g'
    ∧ g_id g' = g_id g ∧ g_name g' = g_name g
    ∧ g_createdAt g' = g_createdAt g
    ∧ g_messages g `prefix_of` g_messages g'
    ∧ g_questions g `prefix_of` g_questions g'.
Proof.
  apply (group_logs_only_grow
           [ESendMessage "a" "g" (Some "again") None "77aa" 1700000000002;
            EDisconnect "a"]).
  reflexivity.
Defined.

(** ** Joining a study group *)

Lemma received_app sid event out1 out2 :
  received sid event (out1 ++ out2)
  = received sid event out1 ++ received sid event out2.
Proof. unfold received. by rewrite filter_app, fmap_app. Qed.

(** What [join-study-group] emits in a well-formed state, in terms of the
    group the id stands for afterwards. *)
Lemma join_study_group_emits sid groupId now s :
  directory_wf s →
  ∃ group',
    live_group groupId (join_study_group sid groupId now s).1 = Some group'
    ∧ group'
      = match live_group groupId s with
        | Some group =>
            group_with_users
              (g_users group
               ++ [{| u_id := sid;
                      u_name :=
                        "User" +:+ pretty (length (g_users group) + 1) |}])
              group
        | None =>
            group_with_users [{| u_id := sid; u_name := "User1" |}]
              (new_group groupId ("Study Group " +:+ groupId) now)
        end
    ∧ (join_study_group sid groupId now s).2
      = socket_emit sid "group-state"
          (PGroupState (g_code group') (g_language group')
             (g_messages group') (g_questions group') (g_users group')
             (g_name group'))
        ++ socket_to_emit (socket_join sid groupId (io s)) sid groupId
             "user-joined-group"
             (PUser {| u_id := sid;
                       u_name :=
                         "User" +:+ pretty (length (g_users group')) |})
        ++ io_emit (socket_join sid groupId (io s)) "group-updated"
             (PGroupUpdated groupId (length (g_users group'))).
Proof.
  intros [Hsame Hkeys Hrefs Hbound].
  unfold join_study_group, live_group. simpl. rewrite <- Hsame.
  destruct (map_get groupId (studyGroups s)) as [ref|] eqn:Hget.
  - assert (map_has groupId (studyGroups s) = true) as ->
      by (apply map_has_get; by eexists).
    simpl.
    assert (ref < length (groups s)) as Hlt
      by by apply (Hbound groupId), map_get_Some_elem.
    destruct (lookup_lt_is_Some_2 _ _ Hlt) as [group Hgroup].
    rewrite Hgroup. simpl. rewrite Hget. simpl.
    rewrite list_lookup_insert_eq by done.
    eexists. split; [done |]. split; done.
  - simpl. rewrite lookup_app_r, Nat.sub_diag by done. simpl.
    rewrite map_get_set_eq. simpl.
    rewrite insert_app_r_alt, Nat.sub_diag by done. simpl.
    rewrite lookup_app_r, Nat.sub_diag by done. simpl.
    eexists. split; [done |]. split; done.
Qed.

Lemma join_study_group_state_received sid groupId now s group' out2 out3 :
  (join_study_group sid groupId now s).2
  = socket_emit sid "group-state"
      (PGroupState (g_code group') (g_language group') (g_messages group')
         (g_questions group') (g_users group') (g_name group'))
    ++ deliver "user-joined-group" out2.1 out2.2
    ++ deliver "group-updated" out3.1 out3.2 →
  received sid "group-state" (join_study_group sid groupId now s).2
  = [PGroupState (g_code group') (g_language group') (g_messages group')
       (g_questions group') (g_users group') (g_name group')].
Proof.
  intros ->. unfold socket_emit. simpl. rewrite received_cons_hit.
  by rewrite received_app, !received_deliver_other.
Qed.

(** X13.  A message sent to a group of the live registry is in the log
    the next joiner is sent: its [group-state] carries the document, the
    questions and the name of the group as they were, the messages with
    the new one at the end, and the members with the joiner at the end. *)
Theorem message_is_in_the_state_sent_to_the_next_joiner tr s sender joiner
    groupId group text username uuid now now' :
  execution tr s → live_group groupId s = Some group →
  received joiner "group-state"
    (join_study_group joiner groupId now'
       (send_message sender groupId text username uuid now s).1).2
  = [PGroupState (g_code group) (g_language group)
       (g_messages group
        ++ [{| m_id := uuid; m_text := text;
               m_username := or_default username "Anonymous";
               m_timestamp := now |}])
       (g_questions group)
       (g_users group
        ++ [{| u_id := joiner;
               u_name := "User" +:+ pretty (length (g_users group) + 1) |}])
       (g_name group)].
Proof.
  intros Hexec Hlive.
  pose proof (execution_directory tr s Hexec) as Hwf.
  set (s1 := (send_message sender groupId text username uuid now s).1).
  assert (directory_wf s1) as Hwf1
    by apply (handle_directory
                (ESendMessage sender groupId text username uuid now) s Hwf).
  assert (live_group groupId s1
          = Some (group_with_messages
                    (g_messages group
                     ++ [{| m_id := uuid; m_text := text;
                            m_username := or_default username "Anonymous";
                            m_timestamp := now |}]) group)) as Hlive1.
  { unfold s1, send_message.
    destruct (live_group_entry groupId s group Hlive)
      as (ref & Hget & _ & Hgroup).
    rewrite Hget, Hgroup. unfold live_group. simpl. rewrite Hget. simpl.
    apply list_lookup_insert_eq. by eapply lookup_lt_Some. }
  destruct (join_study_group_emits joiner groupId now' s1 Hwf1)
    as (group' & _ & Hgroup' & Hout).
  rewrite Hlive1 in Hgroup'.
  rewrite (join_study_group_state_received joiner groupId now' s1 group'
             (_, _) (_, _) Hout).
  by subst group'.
Qed.

Lemma message_is_in_the_state_sent_to_the_next_joiner_witness :
  let s := run_events [EConnect "a"; EConnect "b";
                       EJoinStudyGroup "a" "g" 1700000000000] init in
  received "b" "group-state"
    (join_study_group "b" "g" 1700000000002
       (send_message "a" "g" (Some "hi") (Some "ann") "0b1f" 1700000000001
          s).1).2
  = [PGroupState
       (Some ("// Welcome to the study group!" +:+ newline
              +:+ "// Collaborate and learn together..."))
       "javascript"
       ([] ++ [{| m_id := "0b1f"; m_text := Some "hi";
                  m_username := or_default (Some "ann") "Anonymous";
                  m_timestamp := 1700000000001 |}])
       []
       ([{| u_id := "a"; u_name := "User1" |}]
        ++ [{| u_id := "b"; u_name := "User" +:+ pretty (1 + 1) |}])
       "Study Group g"].
Proof.
  apply (message_is_in_the_state_sent_to_the_next_joiner
           [EConnect "a"; EConnect "b";
            EJoinStudyGroup "a" "g" 1700000000000] _ "a" "b" "g"
           (group_with_users [{| u_id := "a"; u_name := "User1" |}]
              (new_group "g" "Study Group g" 1700000000000))).
  - apply execution_run_events. vm_compute. reflexivity.
  - reflexivity.
Defined.

(** X14.  A group created through [POST /api/groups] is bound to the
    first eight characters of the uuid, whatever that id stood for before;
    it is listed with its name (the given one, or [Study Group <id>]) and
    no member, and who joins that id joins this group: the [group-state]
    carries its name and the joiner as [User1]. *)
Theorem created_group_is_listed_and_joined tr s name uuid now sid now' :
  execution tr s →
  let groupId := String.substring 0 8 uuid in
  let name' := or_default name ("Study Group " +:+ groupId) in
  let s1 := (create_group name uuid now s).1 in
  (create_group name uuid now s).2 = res_json (BGroupCreated groupId name')
  ∧ live_group groupId s1 = Some (new_group groupId name' now)
  ∧ {| gi_id := groupId; gi_name := name'; gi_userCount := 0;
       gi_createdAt := now |} ∈ list_groups s1
  ∧ received sid "group-state" (join_study_group sid groupId now' s1).2
    = [PGroupState
         (Some ("// Welcome to the study group!" +:+ newline
                +:+ "// Collaborate and learn together..."))
         "javascript" [] [] [{| u_id := sid; u_name := "User1" |}] name'].
Proof.
  intros Hexec groupId name' s1.
  pose proof (execution_directory tr s Hexec) as Hwf.
  assert (directory_wf s1) as Hwf1 by by apply create_group_directory.
  assert (map_get groupId (studyGroups s1) = Some (length (groups s)))
    as Hget by apply map_get_set_eq.
  assert (groups s1 !! length (groups s) = Some (new_group groupId name' now))
    as Hgroup.
  { unfold s1, create_group. simpl.
    by rewrite lookup_app_r, Nat.sub_diag. }
  assert (live_group groupId s1 = Some (new_group groupId name' now))
    as Hlive by (unfold live_group; by rewrite Hget).
  split; [done |]. split; [done |]. split.
  - apply (list_groups_entry s1 groupId (length (groups s))
             (new_group groupId name' now)); [|done].
    destruct Hwf1 as [<- _ _ _]. by apply map_get_Some_elem.
  - destruct (join_study_group_emits sid groupId now' s1 Hwf1)
      as (group' & _ & Hgroup' & Hout).
    rewrite Hlive in Hgroup'.
    rewrite (join_study_group_state_received sid groupId now' s1 group'
               (_, _) (_, _) Hout).
    by subst group'.
Qed.

Lemma created_group_is_listed_and_joined_witness :
  let s := run_events [EConnect "a"] init in
  let s1 := (create_group (Some "Algo Club") "0b1f22aa-9c" 1700000000000
               s).1 in
  (create_group (Some "Algo Club") "0b1f22aa-9c" 1700000000000 s).2
  = res_json (BGroupCreated "0b1f22aa" "Algo Club")
  ∧ live_group "0b1f22aa" s1
    = Some (new_group "0b1f22aa" "Algo Club" 1700000000000)
  ∧ {| gi_id := "0b1f22aa"; gi_name := "Algo Club"; gi_userCount := 0;
       gi_createdAt := 1700000000000 |} ∈ list_groups s1
  ∧ received "a" "group-state"
      (join_study_group "a" "0b1f22aa" 1700000000001 s1).2
    = [PGroupState
         (Some ("// Welcome to the study group!" +:+ newline
                +:+ "// Collaborate and learn together..."))
         "javascript" [] [] [{| u_id := "a"; u_name := "User1" |}]
         "Algo Club"].
Proof.
  apply (created_group_is_listed_and_joined [EConnect "a"]
           (run_events [EConnect "a"] init) (Some "Algo Club") "0b1f22aa-9c"
           1700000000000%N "a" 1700000000001%N).
  apply execution_run_events. vm_compute. reflexivity.
Defined.

(** X15.  The member count [join-study-group] announces is the count of
    the listing: after a join in a reachable state every connected socket
    is sent [group-updated] with the count [GET /api/groups] then shows for
    the group, which is at least 1. *)
Theorem join_announces_the_listed_count tr s sid groupId now :
  execution tr s →
  ∃ info,
    info ∈ list_groups (join_study_group sid groupId now s).1
    ∧ gi_id info = groupId ∧ (1 ≤ gi_userCount info)%nat
    ∧ ∀ r, r ∈ sockets (io (join_study_group sid groupId now s).1) →
           {| e_to := r; e_event := "group-updated";
              e_payload := PGroupUpdated groupId (gi_userCount info) |}
           ∈ (join_study_group sid groupId now s).2.
Proof.
  intros Hexec. pose proof (execution_directory tr s Hexec) as Hwf.
  pose proof (join_study_group_directory sid groupId now s Hwf) as Hwf'.
  destruct (join_study_group_cases sid groupId now s Hwf) as (_ & _ & Eio & _).
  destruct (join_study_group_emits sid groupId now s Hwf)
    as (group' & Hlive & Hgroup' & Hout).
  destruct (live_group_entry _ _ _ Hlive) as (ref & _ & Hin & Hg).
  exists {| gi_id := groupId; gi_name := g_name group';
            gi_userCount := length (g_users group');
            gi_createdAt := g_createdAt group' |}.
  split; [|split; [done |split]].
  - apply (list_groups_entry _ groupId ref); [|done].
    by destruct Hwf' as [<- _ _ _].
  - simpl. subst group'. destruct (live_group groupId s); simpl;
      rewrite ?length_app; simpl; lia.
  - intros r Hr. rewrite Hout, Eio in *. simpl.
    apply elem_of_cons. right. apply elem_of_app. right.
    apply elem_of_deliver. by repeat split.
Qed.

Lemma join_announces_the_listed_count_witness :
  let s := run_events [EConnect "a"; EConnect "b";
                       EJoinStudyGroup "a" "g" 1700000000000] init in
  ∃ info,
    info ∈ list_groups (join_study_group "b" "g" 1700000000001 s).1
    ∧ gi_id info = "g" ∧ (1 ≤ gi_userCount info)%nat
    ∧ ∀ r, r ∈ sockets (io (join_study_group "b" "g" 1700000000001 s).1) →
           {| e_to := r; e_event := "group-updated";
              e_payload := PGroupUpdated "g" (gi_userCount info) |}
           ∈ (join_study_group "b" "g" 1700000000001 s).2.
Proof.
  apply (join_announces_the_listed_count
           [EConnect "a"; EConnect "b";
            EJoinStudyGroup "a" "g" 1700000000000]).
  apply execution_run_events. vm_compute. reflexivity.
Defined.

(** ** Deliveries go to connected sockets *)

Lemma foldl_invariant {A B} (P : A → Prop) (f : A → B → A) :
  (∀ a x, P a → P (f a x)) → ∀ l a, P a → P (foldl f a l).
Proof.
  intros Hf l. induction l as [|x l IH]; intros a Ha; simpl; [done |].
  apply IH, Hf, Ha.
Qed.

Lemma io_wf_init : io_wf (io init).
Proof. split; simpl; intros *; by intros ?%elem_of_nil. Qed.

Lemma io_wf_connect sid io : io_wf io → io_wf (io_connect sid io).
Proof.
  intros [Hown Hconn]. split; simpl.
  - intros r [Hr| ->%list_elem_of_singleton]%elem_of_app;
      apply elem_of_app; [left; by apply Hown | right; by left].
  - intros room r [Hin|[= -> ->]%list_elem_of_singleton]%elem_of_app;
      apply elem_of_app; [left; by eapply Hconn | right; by left].
Qed.

Lemma io_wf_join sid room io :
  sid ∈ sockets io → io_wf io → io_wf (socket_join sid room io).
Proof.
  intros Hsid [Hown Hconn]. split.
  - intros r Hr. apply socket_join_rooms. left. by apply Hown.
  - intros k r [Hin|[-> ->]]%socket_join_rooms; [by eapply Hconn | done].
Qed.

Lemma io_wf_disconnect sid io : io_wf io → io_wf (io_disconnect sid io).
Proof.
  intros [Hown Hconn]. split; simpl.
  - intros r [Hne Hr]%list_elem_of_filter. apply list_elem_of_filter.
    split; [done | by apply Hown].
  - intros room r [Hne Hin]%list_elem_of_filter. apply list_elem_of_filter.
    split; [done | by eapply Hconn].
Qed.

Lemma disconnect_io sid s :
  io (disconnect sid s).1 = io_disconnect sid (io s).
Proof.
  unfold disconnect.
  apply (foldl_keeps (λ s', io s' = io_disconnect sid (io s))).
  { intros acc x <-. apply disconnect_group_frame. }
  apply (foldl_keeps (λ s', io s' = io_disconnect sid (io s)));
    [|reflexivity].
  intros acc x <-. apply disconnect_session_frame.
Qed.

Lemma handle_io e s :
  directory_wf s →
  io (handle e s) =
  match e with
  | EConnect sid => io_connect sid (io s)
  | EJoinPairSession sid room | EJoinStudyGroup sid room _ =>
      socket_join sid room (io s)
  | EDisconnect sid => io_disconnect sid (io s)
  | _ => io s
  end.
Proof.
  intros Hwf. destruct e; simpl; try done.
  - apply join_pair_session_frame.
  - apply code_change_frame.
  - by apply join_study_group_cases.
  - apply group_code_change_frame.
  - apply send_message_frame.
  - apply add_question_frame.
  - apply disconnect_io.
Qed.

Lemma execution_io_wf tr s : execution tr s → io_wf (io s).
Proof.
  induction 1 as [|tr s e Hexec IH Hen]; [apply io_wf_init |].
  rewrite handle_io by by eapply execution_directory.
  destruct e; simpl in *; try done.
  - by apply io_wf_connect.
  - by apply io_wf_join.
  - by apply io_wf_join.
  - by apply io_wf_disconnect.
Qed.

Lemma deliver_connected (io : Io) event payload to m :
  (∀ r, r ∈ to → r ∈ sockets io) →
  m ∈ deliver event payload to → e_to m ∈ sockets io.
Proof. intros Hto (_ & _ & Hin)%elem_of_deliver. by apply Hto. Qed.

Lemma room_connected io room r :
  io_wf io → r ∈ room_sockets room io → r ∈ sockets io.
Proof.
  intros Hwf Hin%elem_of_room_sockets. by eapply wf_rooms_connected.
Qed.

(** Every way of emitting reaches connected sockets only. *)
Lemma emit_connected io sid room event payload m :
  io_wf io →
  (m ∈ socket_to_emit io sid room event payload
   ∨ m ∈ io_to_emit io room event payload
   ∨ m ∈ io_emit io event payload) →
  e_to m ∈ sockets io.
Proof.
  intros Hwf [Hin|[Hin|Hin]].
  - apply socket_to_emit_spec in Hin as (_ & _ & Hin & _).
    by eapply room_connected.
  - apply io_to_emit_spec in Hin as (_ & _ & Hin).
    by eapply room_connected.
  - by apply elem_of_deliver in Hin as (_ & _ & Hin).
Qed.

Lemma socket_to_emit_connected io sid room event payload m :
  io_wf io → m ∈ socket_to_emit io sid room event payload →
  e_to m ∈ sockets io.
Proof. intros ? ?. eapply emit_connected; eauto. Qed.

Lemma io_to_emit_connected io room event payload m :
  io_wf io → m ∈ io_to_emit io room event payload → e_to m ∈ sockets io.
Proof. intros ? ?. eapply (emit_connected _ "" room); eauto. Qed.

Lemma io_emit_connected io event payload m :
  io_wf io → m ∈ io_emit io event payload → e_to m ∈ sockets io.
Proof. intros ? ?. eapply (emit_connected _ "" ""); eauto. Qed.

Ltac connected :=
  first [ by eapply socket_to_emit_connected
        | by eapply io_to_emit_connected
        | by eapply io_emit_connected ].

Ltac connected_by W H :=
  first [ exact (socket_to_emit_connected _ _ _ _ _ _ W H)
        | exact (io_to_emit_connected _ _ _ _ _ W H)
        | exact (io_emit_connected _ _ _ _ W H) ].

Lemma disconnect_emits_connected sid s m :
  io_wf (io_disconnect sid (io s)) →
  m ∈ (disconnect sid s).2 → e_to m ∈ sockets (io_disconnect sid (io s)).
Proof.
  intros Hwf. unfold disconnect.
  set (P := λ acc : State * list Emit,
              io acc.1 = io_disconnect sid (io s)
              ∧ ∀ m, m ∈ acc.2 → e_to m ∈ sockets (io_disconnect sid (io s))).
  assert (P (foldl (disconnect_group sid)
               (foldl (disconnect_session sid)
                  (with_io (io_disconnect sid (io s)) s, [])
                  (pairSessions (with_io (io_disconnect sid (io s)) s)))
               (studyGroups
                  (foldl (disconnect_session sid)
                     (with_io (io_disconnect sid (io s)) s, [])
                     (pairSessions (with_io (io_disconnect sid (io s)) s))).1)))
    as [_ H]; [|by apply H].
  apply foldl_invariant.
  { intros [s' out] [groupId ref] [Eio Hout]. simpl in Eio.
    unfold disconnect_group.
    destruct (groups s' !! ref) as [group|]; [|done].
    destruct (findIndex _ _) as [userIndex|]; [|done].
    destruct (g_users group !! userIndex) as [user|]; [|done].
    simpl. destruct (Nat.eqb _ 0); (split; [done |]); simpl;
      intros m'; rewrite !elem_of_app, Eio;
      change (filter (λ r, r ≠ sid) (sockets (io s)))
        with (sockets (io_disconnect sid (io s))).
    - intros [[Hin|[Hin|Hin]]|Hin]; first [by apply Hout | connected].
    - intros [Hin|[Hin|Hin]]; first [by apply Hout | connected]. }
  apply foldl_invariant.
  { intros [s' out] [sessionId x] [Eio Hout]. simpl in Eio.
    unfold disconnect_session.
    destruct (map_get sessionId (pairSessions s')) as [session|]; [|done].
    destruct (indexOf sid (s_users session)); [|done].
    split; [done |]. simpl. intros m'. rewrite elem_of_app, Eio.
    change (filter (λ r, r ≠ sid) (sockets (io s)))
      with (sockets (io_disconnect sid (io s))).
    intros [Hin|Hin]; [by apply Hout | connected]. }
  split; [done |]. intros m' Hin. by apply elem_of_nil in Hin.
Qed.

(** X16.  Nothing is ever sent to a socket that is not connected: in a
    state the server reaches, every event a handler emits goes to a socket
    that is connected once the handler has run. *)
Theorem emits_reach_connected_sockets_only tr s e m :
  execution tr s → enabled e s →
  m ∈ emits e s → e_to m ∈ sockets (io (handle e s)).
Proof.
  intros Hexec Hen Hin.
  pose proof (execution_directory tr s Hexec) as Hdir.
  pose proof (execution_io_wf tr s Hexec) as Hwf.
  rewrite handle_io by done.
  destruct e; simpl in Hen, Hin; try by apply elem_of_nil in Hin.
  - pose proof (io_wf_join sid sessionId (io s) Hen Hwf) as Hwf'.
    unfold join_pair_session in Hin. simpl in Hin.
    repeat case_match; simpl in Hin; try by apply elem_of_nil in Hin.
    all: apply elem_of_cons in Hin as [->|Hin]; [done |].
    all: connected_by Hwf' Hin.
  - unfold code_change in Hin. case_match; simpl in Hin;
      [|by apply elem_of_nil in Hin].
    connected_by Hwf Hin.
  - pose proof (io_wf_join sid groupId (io s) Hen Hwf) as Hwf'.
    destruct (join_study_group_emits sid groupId now s Hdir)
      as (group' & _ & _ & Hout).
    rewrite Hout in Hin.
    apply elem_of_cons in Hin as [->|Hin]; [done |].
    apply elem_of_app in Hin as [Hin|Hin]; connected_by Hwf' Hin.
  - unfold group_code_change in Hin. repeat case_match; simpl in Hin;
      try by apply elem_of_nil in Hin.
    connected_by Hwf Hin.
  - unfold send_message in Hin. repeat case_match; simpl in Hin;
      try by apply elem_of_nil in Hin.
    connected_by Hwf Hin.
  - unfold add_question in Hin. repeat case_match; simpl in Hin;
      try by apply elem_of_nil in Hin.
    connected_by Hwf Hin.
  - apply disconnect_emits_connected; [by apply io_wf_disconnect | done].
Qed.

Lemma emits_reach_connected_sockets_only_witness :
  let s := run_events [EConnect "a"; EConnect "b";
                       EJoinStudyGroup "a" "g" 1700000000000;
                       EJoinStudyGroup "b" "g" 1700000000001] init in
  e_to {| e_to := "a"; e_event := "user-left-group";
          e_payload := PUser {| u_id := "b"; u_name := "User2" |} |}
  ∈ sockets (io (handle (EDisconnect "b") s)).
Proof.
  apply (emits_reach_connected_sockets_only
           [EConnect "a"; EConnect "b";
            EJoinStudyGroup "a" "g" 1700000000000;
            EJoinStudyGroup "b" "g" 1700000000001] _ (EDisconnect "b")).
  - apply execution_run_events. vm_compute. reflexivity.
  - vm_compute. apply elem_of_cons. right. apply elem_of_cons. left.
    reflexivity.
  - vm_compute. apply elem_of_cons. left. reflexivity.
Defined.

(** ** What a disconnect does to the member lists *)

Lemma map_get_app_notin {V} (l m : list (string * V)) k :
  k ∉ l.*1 → map_get k (l ++ m) = map_get k m.
Proof.
  induction l as [|[k' v'] l IH]; [done |]. rewrite fmap_cons. simpl.
  intros [Hne Hk]%not_elem_of_cons.
  destruct (String.eqb_spec k k'); [done | by apply IH].
Qed.

Lemma map_set_app_notin {V} (l m : list (string * V)) k v :
  k ∉ l.*1 → map_set k v (l ++ m) = l ++ map_set k v m.
Proof.
  induction l as [|[k' v'] l IH]; [done |]. rewrite fmap_cons. simpl.
  intros [Hne Hk]%not_elem_of_cons.
  destruct (String.eqb_spec k k'); [done | by rewrite IH].
Qed.

Lemma map_get_fmap {V} (f : V → V) (m : list (string * V)) k :
  map_get k (prod_map id f <$> m) = f <$> map_get k m.
Proof.
  induction m as [|[k' v'] m IH]; [done |]. rewrite fmap_cons. simpl.
  by destruct (String.eqb k k').
Qed.

Lemma fmap_keys {V} (f : V → V) (m : list (string * V)) :
  (prod_map id f <$> m).*1 = m.*1.
Proof.
  induction m as [|[k' v'] m IH]; [done |]. rewrite !fmap_cons. simpl.
  by rewrite IH.
Qed.

Lemma pairSessions_NoDup tr s : execution tr s → NoDup (pairSessions s).*1.
Proof.
  induction 1 as [|tr s e Hexec IH Hen]; [apply NoDup_nil_2 |].
  destruct e; simpl; try done.
  - unfold join_pair_session. simpl.
    destruct (map_has sessionId (pairSessions s)); simpl;
      destruct (map_get sessionId _); simpl;
      repeat apply map_set_NoDup; done.
  - unfold code_change. destruct (map_get sessionId _); simpl; [|done].
    by apply map_set_NoDup.
  - by rewrite (proj1 (join_study_group_cases sid groupId now s
                         (execution_directory tr s Hexec))).
  - by rewrite (proj1 (group_code_change_frame sid groupId code language s)).
  - by rewrite (proj1 (send_message_frame sid groupId message username uuid
                         now s)).
  - by rewrite (proj1 (add_question_frame sid groupId question username uuid
                         now s)).
  - unfold disconnect.
    apply (foldl_keeps (λ s', NoDup (pairSessions s').*1)).
    { intros acc x Hacc.
      by rewrite (proj1 (proj2 (disconnect_group_frame sid acc x))). }
    apply (foldl_keeps (λ s', NoDup (pairSessions s').*1)); [|done].
    intros [s' out] [k x] Hacc. unfold disconnect_session. simpl in *.
    destruct (map_get k (pairSessions s')); [|done].
    destruct (indexOf sid _); [|done]. simpl. by apply map_set_NoDup.
Qed.

Lemma disconnect_session_step sid l1 k x l2 s out :
  k ∉ l1.*1 →
  pairSessions s = (prod_map id (leave_session sid) <$> l1) ++ (k, x) :: l2 →
  pairSessions (disconnect_session sid (s, out) (k, x)).1
  = (prod_map id (leave_session sid) <$> (l1 ++ [(k, x)])) ++ l2.
Proof.
  intros Hk Hps.
  assert (k ∉ (prod_map id (leave_session sid) <$> l1).*1) as Hk'
    by by rewrite fmap_keys.
  unfold disconnect_session. rewrite Hps, map_get_app_notin by done.
  simpl. rewrite String.eqb_refl.
  rewrite fmap_app, <- app_assoc. simpl.
  destruct (indexOf sid (s_users x)) as [userIndex|] eqn:Hindex; simpl.
  - assert (leave_session sid x
            = session_with_users (splice1 userIndex (s_users x)) x) as ->
      by (unfold leave_session, leave_session_users; by rewrite Hindex).
    rewrite map_set_app_notin by done. simpl.
    by rewrite String.eqb_refl.
  - assert (leave_session sid x = x) as ->
      by (unfold leave_session, leave_session_users; rewrite Hindex;
          by destruct x).
    done.
Qed.

Lemma NoDup_keys_middle {V} (l1 l2 : list (string * V)) k x :
  NoDup (l1 ++ (k, x) :: l2).*1 → k ∉ l1.*1.
Proof.
  rewrite fmap_app, fmap_cons. intros (_ & Hdisj & _)%NoDup_app Hin.
  apply (Hdisj k Hin). apply elem_of_cons. by left.
Qed.

Lemma disconnect_sessions_fold sid l2 :
  ∀ l1 acc,
    NoDup (l1 ++ l2).*1 →
    pairSessions acc.1 = (prod_map id (leave_session sid) <$> l1) ++ l2 →
    pairSessions (foldl (disconnect_session sid) acc l2).1
    = prod_map id (leave_session sid) <$> (l1 ++ l2).
Proof.
  induction l2 as [|[k x] l2 IH]; intros l1 [s out] Hnd Hps; simpl in Hps.
  - by rewrite app_nil_r in *.
  - pose proof (NoDup_keys_middle l1 l2 k x Hnd) as Hk.
    cbn [foldl].
    replace (l1 ++ (k, x) :: l2) with ((l1 ++ [(k, x)]) ++ l2) in *
      by by rewrite <- app_assoc.
    apply IH; [done |]. by apply disconnect_session_step.
Qed.

Lemma NoDup_leave_session_users sid users :
  NoDup users → sid ∉ leave_session_users sid users.
Proof.
  unfold leave_session_users, indexOf, splice1.
  induction users as [|u users IH]; intros Hnd; simpl.
  - apply not_elem_of_nil.
  - apply NoDup_cons in Hnd as [Hu Hnd].
    destruct (String.eqb_spec sid u) as [->|Hne]; simpl; [done |].
    specialize (IH Hnd).
    destruct (findIndex (String.eqb sid) users); simpl in *;
      apply not_elem_of_cons; by split.
Qed.

(** X17.  What a disconnect does to a pair session, in every state the
    server reaches: the session stays, its document stays, and its member
    list loses the first entry of the socket and no other.  So a socket
    that was in the list once is in it no more. *)
Theorem disconnect_removes_first_entry tr s sid sessionId session :
  execution tr s →
  map_get sessionId (pairSessions s) = Some session →
  map_get sessionId (pairSessions (disconnect sid s).1)
  = Some {| s_code := s_code session; s_language := s_language session;
            s_users := leave_session_users sid (s_users session) |}
  ∧ (NoDup (s_users session) →
     sid ∉ leave_session_users sid (s_users session)).
Proof.
  intros Hexec Hget. split; [|apply NoDup_leave_session_users].
  assert (pairSessions (disconnect sid s).1
          = prod_map id (leave_session sid) <$> pairSessions s) as ->.
  { unfold disconnect.
    set (acc := foldl (disconnect_session sid) _ _).
    assert (pairSessions acc.1
            = prod_map id (leave_session sid) <$> pairSessions s) as <-.
    { apply (disconnect_sessions_fold sid (pairSessions s) []); [|done].
      by eapply pairSessions_NoDup. }
    apply (foldl_keeps (λ s', pairSessions s' = pairSessions acc.1));
      [|done].
    intros acc' x <-. apply disconnect_group_frame. }
  by rewrite map_get_fmap, Hget.
Qed.

Lemma disconnect_removes_first_entry_witness :
  let s := run_events [EConnect "a"; EConnect "b";
                       EJoinPairSession "a" "room";
                       EJoinPairSession "b" "room"] init in
  map_get "room" (pairSessions (disconnect "a" s).1)
  = Some {| s_code := s_code default_session;
            s_language := s_language default_session;
            s_users := leave_session_users "a" ["a"; "b"] |}
  ∧ "a" ∉ leave_session_users "a" ["a"; "b"].
Proof.
  destruct (disconnect_removes_first_entry
              [EConnect "a"; EConnect "b"; EJoinPairSession "a" "room";
               EJoinPairSession "b" "room"]
              (run_events [EConnect "a"; EConnect "b";
                           EJoinPairSession "a" "room";
                           EJoinPairSession "b" "room"] init)
              "a" "room" (session_with_users ["a"; "b"] default_session))
    as [Hafter Hgone].
  - apply execution_run_events. vm_compute. reflexivity.
  - reflexivity.
  - split; [exact Hafter |]. apply Hgone.
    apply NoDup_cons. split.
    + intros Hin%list_elem_of_singleton. discriminate.
    + apply NoDup_singleton.
Defined.

Lemma map_get_delete_ne {V} k k' (m : list (string * V)) :
  k ≠ k' → map_get k' (map_delete k m) = map_get k' m.
Proof.
  intros Hne. induction m as [|[k0 v0] m IH]; simpl; [done |].
  destruct (String.eqb_spec k k0) as [->|Hk]; simpl.
  - destruct (String.eqb_spec k' k0); [by subst | done].
  - by rewrite IH.
Qed.

Lemma findIndex_Some {A} (f : A → bool) (l : list A) i :
  findIndex f l = Some i → ∃ x, l !! i = Some x ∧ f x = true.
Proof.
  revert i. induction l as [|x l IH]; intros i; simpl; [done |].
  destruct (f x) eqn:Hfx.
  - intros [= <-]. by exists x.
  - destruct (findIndex f l) as [j|]; simpl; [|done].
    intros [= <-]. by apply IH.
Qed.

Lemma NoDup_keys_value {V} (m : list (string * V)) k v v' :
  NoDup m.*1 → (k, v) ∈ m → (k, v') ∈ m → v = v'.
Proof.
  induction m as [|[k0 v0] m IH]; intros Hnd Hin Hin'.
  - by apply elem_of_nil in Hin.
  - rewrite fmap_cons in Hnd. apply NoDup_cons in Hnd as [Hk0 Hnd].
    apply elem_of_cons in Hin as [Heq|Hin];
      apply elem_of_cons in Hin' as [Heq'|Hin']; simplify_eq; try done.
    + destruct Hk0. apply list_elem_of_fmap. by exists (k0, v').
    + destruct Hk0. apply list_elem_of_fmap. by exists (k0, v).
    + by apply IH.
Qed.

Lemma disconnect_group_visit sid s out groupId ref group :
  groups s !! ref = Some group →
  leave_group_users sid (g_users group) ≠ [] →
  studyGroups (disconnect_group sid (s, out) (groupId, ref)).1
  = studyGroups s
  ∧ groups (disconnect_group sid (s, out) (groupId, ref)).1 !! ref
    = Some (leave_group sid group).
Proof.
  intros Hgroup Hleft.
  unfold disconnect_group, leave_group, leave_group_users in *.
  rewrite Hgroup.
  destruct (findIndex _ _) as [userIndex|] eqn:Hindex.
  - apply findIndex_Some in Hindex as (user & -> & _). simpl.
    destruct (splice1 userIndex (g_users group)) eqn:Hsplice; [done |].
    simpl. split; [done |]. apply list_lookup_insert_eq.
    by eapply lookup_lt_Some.
  - simpl. split; [done |]. rewrite Hgroup. by destruct group.
Qed.

Lemma disconnect_groups_fold sid groupId ref :
  ∀ l acc group,
    NoDup l.*2 →
    (∀ k r, (k, r) ∈ l → k = groupId ↔ r = ref) →
    map_get groupId (studyGroups acc.1) = Some ref →
    groups acc.1 !! ref = Some group →
    (ref ∈ l.*2 → leave_group_users sid (g_users group) ≠ []) →
    map_get groupId (studyGroups (foldl (disconnect_group sid) acc l).1)
    = Some ref
    ∧ groups (foldl (disconnect_group sid) acc l).1 !! ref
      = Some (if decide (ref ∈ l.*2) then leave_group sid group else group).
Proof.
  induction l as [|[k r] l IH]; intros [s out] group Hnd Hkr Hget Hgroup Hne;
    simpl in Hget, Hgroup.
  - split; [done |].
    destruct (decide _) as [Hin|]; [by apply elem_of_nil in Hin | done].
  - change (((k, r) :: l).*2) with (r :: l.*2) in *. cbn [foldl].
    apply NoDup_cons in Hnd as [Hr Hnd].
    assert (∀ k' r', (k', r') ∈ l → k' = groupId ↔ r' = ref) as Hkr'.
    { intros k' r' Hin. apply Hkr, elem_of_cons. by right. }
    destruct (decide (r = ref)) as [->|Hother].
    + assert (k = groupId) as ->.
      { apply (Hkr k ref); [apply elem_of_cons; by left | done]. }
      rewrite decide_True by (apply elem_of_cons; by left).
      assert (leave_group_users sid (g_users group) ≠ []) as Hleft
        by (apply Hne, elem_of_cons; by left).
      destruct (disconnect_group_visit sid s out groupId ref group Hgroup
                  Hleft) as [Esg Egroup].
      destruct (IH (disconnect_group sid (s, out) (groupId, ref))
                  (leave_group sid group) Hnd Hkr') as [Hget' Hgroup'];
        [by rewrite Esg | done | done |].
      split; [done |]. by rewrite Hgroup', decide_False.
    + assert (k ≠ groupId) as Hk.
      { intros ->. apply Hother, (Hkr groupId r); [|done].
        apply elem_of_cons. by left. }
      destruct (IH (disconnect_group sid (s, out) (k, r)) group Hnd Hkr')
        as [Hget' Hgroup'].
      * unfold disconnect_group.
        destruct (groups s !! r) as [g|]; [|done].
        destruct (findIndex _ _) as [userIndex|]; [|done].
        destruct (g_users g !! userIndex); [|done].
        simpl. destruct (Nat.eqb _ 0); simpl; [|done].
        by rewrite map_get_delete_ne.
      * by rewrite disconnect_group_groups_other.
      * intros Hin. apply Hne, elem_of_cons. by right.
      * split; [done |]. rewrite Hgroup'.
        destruct (decide (ref ∈ l.*2)) as [Hin|Hin].
        -- rewrite decide_True; [done |]. apply elem_of_cons. by right.
        -- rewrite decide_False; [done |].
           intros [?|?]%elem_of_cons; by simplify_eq.
Qed.

(** X18.  What a disconnect does to a study group that keeps a member, in
    every state the server reaches: the group stays in the live registry
    with the same document and logs, its member list loses the first entry
    of the socket and no other, and the listing shows it with the new
    count. *)
Theorem disconnect_keeps_group_with_other_members tr s sid groupId group :
  execution tr s →
  live_group groupId s = Some group →
  leave_group_users sid (g_users group) ≠ [] →
  live_group groupId (disconnect sid s).1 = Some (leave_group sid group)
  ∧ {| gi_id := groupId; gi_name := g_name group;
       gi_userCount := length (leave_group_users sid (g_users group));
       gi_createdAt := g_createdAt group |}
    ∈ list_groups (disconnect sid s).1.
Proof.
  intros Hexec Hlive Hleft.
  pose proof (execution_directory tr s Hexec) as Hwf.
  apply live_group_entry in Hlive as (ref & Hget & Hin & Hgroup).
  assert (map_get groupId (studyGroups (disconnect sid s).1) = Some ref
          ∧ groups (disconnect sid s).1 !! ref
            = Some (leave_group sid group)) as [Hget' Hgroup'].
  { unfold disconnect.
    set (acc := foldl (disconnect_session sid) _ _).
    assert (studyGroups acc.1 = studyGroups s ∧ groups acc.1 = groups s)
      as [Esg Eg].
    { apply (foldl_keeps
               (λ s', studyGroups s' = studyGroups s
                      ∧ groups s' = groups s)); [|done].
      intros acc' x [<- <-].
      destruct (disconnect_session_frame sid acc' x) as (_ & ? & ? & _).
      done. }
    destruct (disconnect_groups_fold sid groupId ref (studyGroups acc.1)
                acc group) as [Hget' Hgroup'].
    - rewrite Esg. by destruct Hwf.
    - rewrite Esg. intros k r Hkr. split.
      + intros Heq. subst k. apply map_get_Some_elem in Hget.
        destruct Hwf as [_ Hkeys _ _].
        by apply (NoDup_keys_value (studyGroups s) groupId r ref).
      + intros Heq. subst r. destruct Hwf as [_ _ Hrefs _].
        by apply (NoDup_values_key (studyGroups s) k groupId ref).
    - by rewrite Esg.
    - by rewrite Eg.
    - done.
    - split; [done |]. rewrite Hgroup', decide_True; [done |].
      rewrite Esg. apply list_elem_of_fmap. by exists (groupId, ref). }
  split.
  - unfold live_group. by rewrite Hget'.
  - pose proof (disconnect_directory sid s Hwf) as [Hsame _ _ _].
    apply (list_groups_entry _ groupId ref (leave_group sid group));
      [|done].
    rewrite <- Hsame. by apply map_get_Some_elem.
Qed.

Lemma disconnect_keeps_group_with_other_members_witness :
  let s := run_events [EConnect "a"; EConnect "b";
                       EJoinStudyGroup "a" "g" 1700000000000;
                       EJoinStudyGroup "b" "g" 1700000000001] init in
  g_users <$> live_group "g" (disconnect "a" s).1
  = Some [{| u_id := "b"; u_name := "User2" |}]
  ∧ {| gi_id := "g"; gi_name := "Study Group g"; gi_userCount := 1;
       gi_createdAt := 1700000000000 |} ∈ list_groups (disconnect "a" s).1.
Proof.
  set (tr := [EConnect "a"; EConnect "b";
              EJoinStudyGroup "a" "g" 1700000000000;
              EJoinStudyGroup "b" "g" 1700000000001]).
  set (group :=
         group_with_users [{| u_id := "a"; u_name := "User1" |};
                           {| u_id := "b"; u_name := "User2" |}]
           (new_group "g" "Study Group g" 1700000000000)).
  destruct (disconnect_keeps_group_with_other_members tr (run_events tr init)
              "a" "g" group) as [Hlive Hlisted].
  - apply execution_run_events. vm_compute. reflexivity.
  - reflexivity.
  - discriminate.
  - split; [by rewrite Hlive | exact Hlisted].
Defined.

(** * Properties of the call signalling *)

Lemma strip_prefix_app p r : strip_prefix p (p +:+ r) = Some r.
Proof. by apply strip_prefix_Some. Qed.

Lemma includes_prefix needle rest : includes needle (needle +:+ rest) = true.
Proof.
  destruct (needle +:+ rest) eqn:Hhay; simpl;
    by rewrite <- Hhay, strip_prefix_app.
Qed.

Lemma includes_app before needle rest :
  includes needle (before +:+ needle +:+ rest) = true.
Proof.
  induction before as [|c before IH].
  - rewrite append_nil. apply includes_prefix.
  - rewrite append_cons.
    change (includes needle (String c (before +:+ needle +:+ rest)))
      with (match strip_prefix needle
                    (String c (before +:+ needle +:+ rest)) with
            | Some _ => true
            | None => includes needle (before +:+ needle +:+ rest)
            end).
    by destruct (strip_prefix _ _).
Qed.

Lemma find_first_app {A} (f : A → bool) (l l' : list A) :
  (∀ x, x ∈ l → f x = false) → find_first f (l ++ l') = find_first f l'.
Proof.
  induction l as [|x l IH]; intros Hf; [done |]. simpl.
  rewrite (Hf x) by (apply elem_of_cons; by left).
  apply IH. intros y Hy. apply Hf, elem_of_cons. by right.
Qed.

Lemma map_delete_app_notin {V} (l m : list (string * V)) k :
  k ∉ l.*1 → map_delete k (l ++ m) = l ++ map_delete k m.
Proof.
  induction l as [|[k' v'] l IH]; [done |]. rewrite fmap_cons. simpl.
  intros [Hne Hk]%not_elem_of_cons.
  destruct (String.eqb_spec k k'); [done | by rewrite IH].
Qed.

Lemma append_inj_l (a b c : string) : a +:+ b = a +:+ c → b = c.
Proof.
  induction a as [|x a IH]; [done |].
  rewrite !append_cons. intros [= H]. by apply IH.
Qed.

Lemma append_empty (a : string) : a +:+ "" = a.
Proof.
  induction a as [|x a IH]; [done |]. rewrite append_cons. by f_equal.
Qed.

Lemma call_id_not_empty caller recipientId :
  String.eqb (caller +:+ "-" +:+ recipientId) "" = false.
Proof. by destruct caller. Qed.

Lemma call_id_includes caller recipientId party :
  party = caller ∨ party = recipientId →
  includes party (caller +:+ "-" +:+ recipientId) = true.
Proof.
  intros [->| ->].
  - apply includes_prefix.
  - rewrite <- append_assoc.
    rewrite <- (append_empty recipientId) at 2.
    apply includes_app.
Qed.

(** X19.  A call that either party ends is forgotten: when no earlier call
    id contains the id of the party, [end-call] from the caller or from
    the recipient leaves the call table as it was before [initiate-call]. *)
Theorem either_party_ends_the_call caller recipientId party calls io io' :
  party = caller ∨ party = recipientId →
  (∀ callId, callId ∈ calls.*1 → includes party callId = false) →
  (end_call party (initiate_call caller recipientId calls io).1 io').1
  = calls.
Proof.
  intros Hparty Hfree. unfold initiate_call, end_call. simpl.
  set (callId := caller +:+ "-" +:+ recipientId).
  set (call := {| c_caller := caller; c_recipient := recipientId;
                  c_status := "pending" |}).
  pose proof (call_id_includes caller recipientId party Hparty) as Hinc.
  fold callId in Hinc.
  assert (callId ∉ calls.*1) as Hnew.
  { intros Hin. apply Hfree in Hin. congruence. }
  assert (map_set callId call calls = calls ++ [(callId, call)]) as ->.
  { rewrite <- (app_nil_r calls) at 1. by rewrite map_set_app_notin. }
  rewrite fmap_app, find_first_app by done. simpl. rewrite Hinc.
  unfold callId at 1. rewrite call_id_not_empty. simpl.
  rewrite map_delete_app_notin by done. simpl.
  by rewrite String.eqb_refl, app_nil_r.
Qed.

Lemma either_party_ends_the_call_witness :
  let calls := [("c-d", {| c_caller := "c"; c_recipient := "d";
                           c_status := "pending" |})] in
  let io := io_connect "b" (io_connect "a" (io init)) in
  (end_call "b" (initiate_call "a" "b" calls io).1 io).1 = calls.
Proof.
  apply (either_party_ends_the_call "a" "b" "b").
  - by right.
  - intros callId Hin%list_elem_of_singleton. by subst.
Defined.

(** X20.  One [end-call] removes one record: of two calls that a socket has
    started, the first is removed and the second stays in the call table. *)
Theorem end_call_leaves_the_second_call caller first second calls
    io1 io2 io3 :
  first ≠ second →
  (∀ callId, callId ∈ calls.*1 → includes caller callId = false) →
  (end_call caller
     (initiate_call caller second
        (initiate_call caller first calls io1).1 io2).1 io3).1
  = calls ++ [(caller +:+ "-" +:+ second,
               {| c_caller := caller; c_recipient := second;
                  c_status := "pending" |})].
Proof.
  intros Hne Hfree. unfold initiate_call, end_call. simpl.
  set (id1 := caller +:+ "-" +:+ first).
  set (id2 := caller +:+ "-" +:+ second).
  set (call1 := {| c_caller := caller; c_recipient := first;
                   c_status := "pending" |}).
  set (call2 := {| c_caller := caller; c_recipient := second;
                   c_status := "pending" |}).
  assert (includes caller id1 = true) as Hinc1
    by (apply call_id_includes; by left).
  assert (includes caller id2 = true) as Hinc2
    by (apply call_id_includes; by left).
  assert (id1 ∉ calls.*1) as Hnew1.
  { intros Hin. apply Hfree in Hin. congruence. }
  assert (id2 ∉ calls.*1) as Hnew2.
  { intros Hin. apply Hfree in Hin. congruence. }
  assert (id2 ≠ id1) as Hids.
  { unfold id1, id2. intros Heq%append_inj_l%append_inj_l. done. }
  assert (map_set id1 call1 calls = calls ++ [(id1, call1)]) as ->.
  { rewrite <- (app_nil_r calls) at 1. by rewrite map_set_app_notin. }
  assert (map_set id2 call2 (calls ++ [(id1, call1)])
          = calls ++ [(id1, call1); (id2, call2)]) as ->.
  { rewrite map_set_app_notin by done. simpl.
    by destruct (String.eqb_spec id2 id1). }
  rewrite fmap_app, find_first_app by done. simpl. rewrite Hinc1.
  unfold id1 at 1. rewrite call_id_not_empty. simpl.
  rewrite map_delete_app_notin by done. simpl.
  by rewrite String.eqb_refl.
Qed.

Lemma end_call_leaves_the_second_call_witness :
  let io := io_connect "a" (io init) in
  (end_call "a"
     (initiate_call "a" "c" (initiate_call "a" "b" [] io).1 io).1 io).1
  = [("a-c", {| c_caller := "a"; c_recipient := "c";
                c_status := "pending" |})].
Proof.
  apply (end_call_leaves_the_second_call "a" "b" "c" []).
  - discriminate.
  - intros callId Hin. by apply elem_of_nil in Hin.
Defined.

Lemma elem_of_call_deliver m event payload to :
  m ∈ call_deliver event payload to
  ↔ ce_event m = event ∧ ce_payload m = payload ∧ ce_to m ∈ to.
Proof.
  unfold call_deliver. rewrite list_elem_of_fmap. split.
  - by intros (r & -> & Hin).
  - intros (<- & <- & Hin). exists (ce_to m). split; [by destruct m | done].
Qed.

(** X21.  In every state the server reaches, the notice of a call goes to
    the recipient if it is connected, to connected sockets only, and also
    to every socket that has joined a pair session named by the
    recipient's id. *)
Theorem call_notice_goes_to_the_recipients_room tr s caller recipientId
    calls :
  execution tr s →
  let notice r := {| ce_to := r; ce_event := "call-initiated";
                     ce_payload := PCallInitiated caller |} in
  (recipientId ∈ sockets (io s) →
   notice recipientId ∈ (initiate_call caller recipientId calls (io s)).2)
  ∧ (∀ m, m ∈ (initiate_call caller recipientId calls (io s)).2 →
          ce_to m ∈ sockets (io s))
  ∧ (∀ other,
       other ∈ sockets (io s) →
       notice other
       ∈ (initiate_call caller recipientId calls
            (io (handle (EJoinPairSession other recipientId) s))).2).
Proof.
  intros Hexec notice.
  pose proof (execution_io_wf tr s Hexec) as Hwf.
  unfold initiate_call. cbn [snd]. split; [|split].
  - intros Hin. apply elem_of_call_deliver. repeat split.
    apply elem_of_room_sockets. by apply (wf_own_room _ Hwf).
  - intros m (_ & _ & Hin)%elem_of_call_deliver.
    by apply (room_connected _ recipientId).
  - intros other _.
    rewrite (handle_io (EJoinPairSession other recipientId) s)
      by by eapply execution_directory.
    apply elem_of_call_deliver. repeat split.
    apply elem_of_room_sockets, socket_join_rooms. by right.
Qed.

Lemma call_notice_goes_to_the_recipients_room_witness :
  let s := run_events [EConnect "a"; EConnect "b"; EConnect "c"] init in
  let notice r := {| ce_to := r; ce_event := "call-initiated";
                     ce_payload := PCallInitiated "a" |} in
  notice "b" ∈ (initiate_call "a" "b" [] (io s)).2
  ∧ notice "c"
    ∈ (initiate_call "a" "b" []
         (io (handle (EJoinPairSession "c" "b") s))).2.
Proof.
  destruct (call_notice_goes_to_the_recipients_room
              [EConnect "a"; EConnect "b"; EConnect "c"]
              (run_events [EConnect "a"; EConnect "b"; EConnect "c"] init)
              "a" "b" []) as (Hrecipient & _ & Hother).
  - apply execution_run_events. vm_compute. reflexivity.
  - split; [apply Hrecipient | apply Hother].
    + apply elem_of_cons. right. apply elem_of_cons. by left.
    + do 2 (apply elem_of_cons; right). apply elem_of_cons. by left.
Defined.

(** X22.  The reply to a call notice finds the caller: in every state the
    server reaches, whoever receives the notice of a connected caller and
    answers or rejects with the caller id of the notice has the reply
    delivered to the caller, the answer with the id of the answerer. *)
Theorem call_reply_returns_to_the_caller tr s caller recipientId calls m :
  execution tr s → caller ∈ sockets (io s) →
  m ∈ (initiate_call caller recipientId calls (io s)).2 →
  ∃ callerId,
    ce_payload m = PCallInitiated callerId
    ∧ {| ce_to := caller; ce_event := "call-answered";
         ce_payload := PCallAnswered (ce_to m) |}
      ∈ call_answered (ce_to m) callerId (io s)
    ∧ {| ce_to := caller; ce_event := "call-rejected";
         ce_payload := PCallRejected "Call was rejected" |}
      ∈ call_rejected callerId (io s).
Proof.
  intros Hexec Hcaller (_ & Hpayload & _)%elem_of_call_deliver.
  pose proof (execution_io_wf tr s Hexec) as Hwf.
  exists caller. split; [done |].
  unfold call_answered, call_rejected.
  split; apply elem_of_call_deliver; repeat split;
    apply elem_of_room_sockets; by apply (wf_own_room _ Hwf).
Qed.

Lemma call_reply_returns_to_the_caller_witness :
  let s := run_events [EConnect "a"; EConnect "b"] init in
  ∃ callerId,
    PCallInitiated "a" = PCallInitiated callerId
    ∧ {| ce_to := "a"; ce_event := "call-answered";
         ce_payload := PCallAnswered "b" |}
      ∈ call_answered "b" callerId (io s)
    ∧ {| ce_to := "a"; ce_event := "call-rejected";
         ce_payload := PCallRejected "Call was rejected" |}
      ∈ call_rejected callerId (io s).
Proof.
  apply (call_reply_returns_to_the_caller
           [EConnect "a"; EConnect "b"]
           (run_events [EConnect "a"; EConnect "b"] init) "a" "b" []
           {| ce_to := "b"; ce_event := "call-initiated";
              ce_payload := PCallInitiated "a" |}).
  - apply execution_run_events. vm_compute. reflexivity.
  - apply elem_of_cons. by left.
  - apply elem_of_call_deliver. repeat split.
    apply elem_of_room_sockets. vm_compute.
    apply elem_of_cons. right. apply elem_of_cons. by left.
Defined.

(** * The C++ binary on Windows *)

Lemma cleanup_keeps win32 language tf fs p :
  p ≠ filePath tf →
  p ≠ path_join win32 (path_dirname win32 (filePath tf)) "output" →
  p ≠ path_join win32 (path_dirname win32 (filePath tf))
        (interpolate (className tf) +:+ ".class") →
  p ∈ fs → p ∈ (cleanup win32 language tf fs).1.
Proof.
  intros Hsource Houtput Hclass Hin.
  unfold cleanup, try_catch, fs_bind, unlinkSync.
  case_bool_decide; [|done]. unfold fs_when.
  destruct (String.eqb language "cpp"), (String.eqb language "java");
    rewrite ?unlink_if_exists_eq; unfold fs_ret; simpl;
    rewrite ?unlink_if_exists_eq; simpl; set_solver.
Qed.

(** X23.  On Windows the command of a C++ request builds and runs
    [output.exe], and the callback removes the source file and a file
    [output]: whatever the compiler and the program do, a binary
    [output.exe] that is in [temp] when the command ends is still there
    when the request has been answered. *)
Theorem windows_cpp_binary_is_left_behind dirname code now p toolchain fs :
  code ≠ "" →
  path_join true (tempDir dirname true) "output.exe"
  ∈ toolchain (run_start dirname true (Some code) (Some "cpp") now fs).1 →
  (∃ tf,
     (run_start dirname true (Some code) (Some "cpp") now fs).2
     = Ok (Exec ("cd " +:+ dquote +:+ tempDir dirname true +:+ dquote
                 +:+ " && g++ " +:+ dquote +:+ fileName tf +:+ dquote
                 +:+ " -o output.exe && output.exe") tf))
  ∧ path_join true (tempDir dirname true) "output.exe"
    ∈ (run dirname true (Some code) (Some "cpp") now p toolchain fs).1.
Proof.
  intros Hcode Hexe. apply truthy_Some in Hcode.
  unfold run. revert Hexe. unfold run_start. rewrite Hcode. simpl.
  unfold fs_bind at 1 2 3 4.
  rewrite createTempFile_other by done.
  set (name := "temp_" +:+ pretty now +:+ or_default (extensions "cpp") ".txt").
  assert (path_dirname true (path_join true (tempDir dirname true) name)
          = tempDir dirname true) as Hdir.
  { apply path_dirname_temp, temp_file_name_plain. }
  unfold commands, fs_ret. simpl. rewrite Hdir. intros Hexe. split.
  - exists {| filePath := path_join true (tempDir dirname true) name;
              fileName := name; className := None |}.
    simpl. rewrite !append_assoc. reflexivity.
  - unfold run_callback, fs_bind.
    destruct (cleanup _ _ _ _) as [fs' r] eqn:Hclean.
    assert (fs' = (cleanup true "cpp"
                     {| filePath := path_join true (tempDir dirname true) name;
                        fileName := name; className := None |}
                     (toolchain ({[path_join true (tempDir dirname true) name]}
                                 ∪ with_tempDir dirname true fs))).1) as Hfs
      by by rewrite Hclean.
    assert (path_join true (tempDir dirname true) "output.exe" ∈ fs') as Hin.
    { rewrite Hfs. apply cleanup_keeps; simpl; rewrite ?Hdir; [| | |done].
      - intros Heq%path_join_inj. discriminate.
      - intros Heq%path_join_inj. discriminate.
      - intros Heq%path_join_inj. discriminate. }
    destruct r; [|done]. by destruct (cb_error _).
Qed.

Lemma windows_cpp_binary_is_left_behind_witness :
  "C:\app\temp\output.exe"
  ∈ (run "C:\app" true (Some "int main() { return 0; }") (Some "cpp")
       1700000000000
       {| exit_code := Some 0%Z; proc_stdout := ""; proc_stderr := "" |}
       (λ fs, {["C:\app\temp\output.exe"]} ∪ fs) ∅).1.
Proof.
  apply (windows_cpp_binary_is_left_behind "C:\app"
           "int main() { return 0; }" 1700000000000%N).
  - discriminate.
  - apply elem_of_union. left. by apply elem_of_singleton.
Defined.

(** * Who is told of a disconnect *)

Lemma disconnect_session_out sid acc entry m :
  m ∈ acc.2 → m ∈ (disconnect_session sid acc entry).2.
Proof.
  destruct acc as [s out], entry as [k x]. unfold disconnect_session.
  simpl. intros Hin.
  destruct (map_get k (pairSessions s)); [|done].
  destruct (indexOf sid _); [|done]. simpl. apply elem_of_app. by left.
Qed.

Lemma disconnect_group_out sid acc entry m :
  m ∈ acc.2 → m ∈ (disconnect_group sid acc entry).2.
Proof.
  destruct acc as [s out], entry as [k r]. unfold disconnect_group.
  simpl. intros Hin.
  destruct (groups s !! r) as [g|]; [|done].
  destruct (findIndex _ _) as [userIndex|]; [|done].
  destruct (g_users g !! userIndex); [|done].
  destruct (Nat.eqb _ 0); simpl; rewrite !elem_of_app; auto.
Qed.

Lemma indexOf_elem x l : x ∈ l → is_Some (indexOf x l).
Proof.
  unfold indexOf. induction l as [|y l IH]; [by intros ?%elem_of_nil |].
  simpl. destruct (String.eqb_spec x y) as [->|Hne]; [by eexists |].
  intros [?|Hin]%elem_of_cons; [done |].
  destruct (IH Hin) as [i ->]. by eexists.
Qed.

Lemma disconnect_sessions_tell sid k x m io0 :
  sid ∈ s_users x →
  m ∈ socket_to_emit io0 sid k "user-left" (PSocketId sid) →
  ∀ l2 l1 acc,
    NoDup (l1 ++ l2).*1 →
    pairSessions acc.1 = (prod_map id (leave_session sid) <$> l1) ++ l2 →
    io acc.1 = io0 →
    (k, x) ∈ l2 →
    m ∈ (foldl (disconnect_session sid) acc l2).2.
Proof.
  intros Hsid Hm. induction l2 as [|[k' x'] l2 IH];
    intros l1 [s out] Hnd Hps Hio Hin; [by apply elem_of_nil in Hin |].
  simpl in Hps, Hio. cbn [foldl].
  pose proof (NoDup_keys_middle l1 l2 k' x' Hnd) as Hk.
  apply elem_of_cons in Hin as [Heq|Hin].
  - injection Heq as <- <-.
    apply (foldl_invariant (λ acc, m ∈ acc.2));
      [intros; by apply disconnect_session_out |].
    unfold disconnect_session.
    rewrite Hps, map_get_app_notin by by rewrite fmap_keys.
    simpl. rewrite String.eqb_refl.
    destruct (indexOf_elem sid (s_users x) Hsid) as [userIndex ->].
    simpl. apply elem_of_app. right. by subst io0.
  - apply (IH (l1 ++ [(k', x')])).
    + by rewrite <- app_assoc.
    + by apply disconnect_session_step.
    + by destruct (disconnect_session_frame sid (s, out) (k', x'))
        as (_ & _ & _ & _ & ->).
    + done.
Qed.

(** X24.  When a member of a pair session disconnects, every other
    connected member of the session is sent [user-left] with the id of the
    socket that has gone. *)
Theorem disconnect_tells_the_session tr s sid sessionId session other :
  execution tr s →
  map_get sessionId (pairSessions s) = Some session →
  sid ∈ s_users session →
  other ∈ s_users session → other ≠ sid → other ∈ sockets (io s) →
  {| e_to := other; e_event := "user-left"; e_payload := PSocketId sid |}
  ∈ (disconnect sid s).2.
Proof.
  intros Hexec Hget Hsid Hother Hne Hconn.
  pose proof (execution_members tr s Hexec) as Hwf.
  destruct (wf_session_users s Hwf sessionId session other Hget Hother)
    as [_ Hroom].
  unfold disconnect.
  apply (foldl_invariant (λ acc, _ ∈ acc.2));
    [intros; by apply disconnect_group_out |].
  apply (disconnect_sessions_tell sid sessionId session _
           (io_disconnect sid (io s)) Hsid) with (l1 := []).
  - apply socket_to_emit_spec. repeat split; [|done].
    apply elem_of_room_sockets. simpl. apply list_elem_of_filter.
    split; [done | by apply Hroom].
  - simpl. by eapply pairSessions_NoDup.
  - done.
  - done.
  - simpl. by apply map_get_Some_elem.
Qed.

Lemma disconnect_tells_the_session_witness :
  let s := run_events [EConnect "a"; EConnect "b";
                       EJoinPairSession "a" "room";
                       EJoinPairSession "b" "room"] init in
  {| e_to := "b"; e_event := "user-left"; e_payload := PSocketId "a" |}
  ∈ (disconnect "a" s).2.
Proof.
  apply (disconnect_tells_the_session
           [EConnect "a"; EConnect "b"; EJoinPairSession "a" "room";
            EJoinPairSession "b" "room"]
           (run_events [EConnect "a"; EConnect "b";
                        EJoinPairSession "a" "room";
                        EJoinPairSession "b" "room"] init)
           "a" "room" (session_with_users ["a"; "b"] default_session) "b").
  - apply execution_run_events. vm_compute. reflexivity.
  - reflexivity.
  - apply elem_of_cons. by left.
  - apply elem_of_cons. right. apply elem_of_cons. by left.
  - discriminate.
  - apply elem_of_cons. right. apply elem_of_cons. by left.
Defined.

Lemma findIndex_elem {A} (f : A → bool) (l : list A) x :
  x ∈ l → f x = true → is_Some (findIndex f l).
Proof.
  induction l as [|y l IH]; [by intros ?%elem_of_nil |]. simpl.
  destruct (f y) eqn:Hy; [by eexists |].
  intros [->|Hin]%elem_of_cons Hx; [congruence |].
  destruct (IH Hin Hx) as [i ->]. by eexists.
Qed.

Lemma disconnect_group_tell sid s out groupId ref group userIndex user m :
  groups s !! ref = Some group →
  findIndex (λ user, String.eqb (u_id user) sid) (g_users group)
  = Some userIndex →
  g_users group !! userIndex = Some user →
  m ∈ socket_to_emit (io s) sid groupId "user-left-group" (PUser user)
  ∨ m ∈ io_emit (io s) "group-updated"
          (PGroupUpdated groupId
             (length (splice1 userIndex (g_users group)))) →
  m ∈ (disconnect_group sid (s, out) (groupId, ref)).2.
Proof.
  intros Hgroup Hindex Huser Hm. unfold disconnect_group.
  rewrite Hgroup, Hindex, Huser. simpl.
  destruct (Nat.eqb _ 0); simpl; rewrite !elem_of_app; tauto.
Qed.

Lemma disconnect_groups_tell sid groupId ref group io0 m :
  (∀ s out, groups s !! ref = Some group → io s = io0 →
            m ∈ (disconnect_group sid (s, out) (groupId, ref)).2) →
  ∀ l acc,
    NoDup l.*2 → (groupId, ref) ∈ l →
    groups acc.1 !! ref = Some group → io acc.1 = io0 →
    m ∈ (foldl (disconnect_group sid) acc l).2.
Proof.
  intros Hstep. induction l as [|[k r] l IH];
    intros [s out] Hnd Hin Hgroup Hio; [by apply elem_of_nil in Hin |].
  simpl in Hgroup, Hio. cbn [foldl].
  rewrite fmap_cons in Hnd. apply NoDup_cons in Hnd as [Hr Hnd].
  apply elem_of_cons in Hin as [Heq|Hin].
  - injection Heq as <- <-.
    apply (foldl_invariant (λ acc, m ∈ acc.2));
      [intros; by apply disconnect_group_out |].
    by apply Hstep.
  - apply IH; [done | done | |].
    + rewrite disconnect_group_groups_other; [done |].
      intros ->. apply Hr. apply list_elem_of_fmap. by exists (groupId, ref).
    + by destruct (disconnect_group_frame sid (s, out) (k, r))
        as (_ & _ & ->).
Qed.

(** X25.  When a member of a study group disconnects, every other
    connected member of the group is sent [user-left-group] with the
    member record of the socket that has gone, and every socket that
    stays connected is sent [group-updated] with the member count less
    one. *)
Theorem disconnect_tells_the_group tr s sid groupId group :
  execution tr s →
  live_group groupId s = Some group →
  sid ∈ u_id <$> g_users group →
  ∃ user,
    user ∈ g_users group ∧ u_id user = sid
    ∧ (∀ other,
         other ∈ g_users group → u_id other ≠ sid →
         u_id other ∈ sockets (io s) →
         {| e_to := u_id other; e_event := "user-left-group";
            e_payload := PUser user |} ∈ (disconnect sid s).2)
    ∧ (∀ r,
         r ∈ sockets (io s) → r ≠ sid →
         {| e_to := r; e_event := "group-updated";
            e_payload :=
              PGroupUpdated groupId (length (g_users group) - 1) |}
         ∈ (disconnect sid s).2).
Proof.
  intros Hexec Hlive (member & Hid & Hmember)%list_elem_of_fmap.
  pose proof (execution_members tr s Hexec) as Hwf.
  pose proof (execution_directory tr s Hexec) as Hdir.
  apply live_group_entry in Hlive as (ref & Hget & Hin & Hgroup).
  destruct (findIndex_elem (λ user, String.eqb (u_id user) sid)
              (g_users group) member Hmember) as [userIndex Hindex].
  { apply String.eqb_eq. by symmetry. }
  destruct (findIndex_Some _ _ _ Hindex) as (user & Huser & Hsid).
  apply String.eqb_eq in Hsid.
  exists user. split; [by eapply list_elem_of_lookup_2 |]. split; [done |].
  assert (length (splice1 userIndex (g_users group))
          = length (g_users group) - 1) as Hlen.
  { unfold splice1. apply length_delete. by eexists. }
  assert (∀ m,
            m ∈ socket_to_emit (io_disconnect sid (io s)) sid groupId
                  "user-left-group" (PUser user)
            ∨ m ∈ io_emit (io_disconnect sid (io s)) "group-updated"
                    (PGroupUpdated groupId (length (g_users group) - 1)) →
            m ∈ (disconnect sid s).2) as Htell.
  { intros m Hm. unfold disconnect.
    set (acc := foldl (disconnect_session sid) _ _).
    assert (studyGroups acc.1 = studyGroups s ∧ groups acc.1 = groups s
            ∧ io acc.1 = io_disconnect sid (io s)) as (Esg & Eg & Eio).
    { apply (foldl_keeps
               (λ s', studyGroups s' = studyGroups s
                      ∧ groups s' = groups s
                      ∧ io s' = io_disconnect sid (io s))); [|done].
      intros acc' x (<- & <- & <-).
      destruct (disconnect_session_frame sid acc' x)
        as (_ & ? & ? & _ & ?).
      done. }
    apply (disconnect_groups_tell sid groupId ref group
             (io_disconnect sid (io s))).
    - intros s' out Hgroup' Hio.
      apply (disconnect_group_tell sid s' out groupId ref group userIndex
               user); [done.. |].
      by rewrite Hio, Hlen.
    - rewrite Esg. by destruct Hdir.
    - by rewrite Esg.
    - by rewrite Eg.
    - done. }
  split.
  - intros other Hother Hne Hconn. apply Htell. left.
    apply socket_to_emit_spec. repeat split; [|done].
    apply elem_of_room_sockets. simpl. apply list_elem_of_filter.
    split; [done |].
    by apply (wf_group_users s Hwf groupId ref group other).
  - intros r Hr Hne. apply Htell. right.
    apply elem_of_deliver. repeat split. simpl.
    by apply list_elem_of_filter.
Qed.

Lemma disconnect_tells_the_group_witness :
  let s := run_events [EConnect "a"; EConnect "b";
                       EJoinStudyGroup "a" "g" 1700000000000;
                       EJoinStudyGroup "b" "g" 1700000000001] init in
  ∃ user,
    user ∈ [{| u_id := "a"; u_name := "User1" |};
            {| u_id := "b"; u_name := "User2" |}]
    ∧ u_id user = "a"
    ∧ {| e_to := "b"; e_event := "user-left-group";
         e_payload := PUser user |} ∈ (disconnect "a" s).2
    ∧ {| e_to := "b"; e_event := "group-updated";
         e_payload := PGroupUpdated "g" 1 |} ∈ (disconnect "a" s).2.
Proof.
  set (tr := [EConnect "a"; EConnect "b";
              EJoinStudyGroup "a" "g" 1700000000000;
              EJoinStudyGroup "b" "g" 1700000000001]).
  set (group :=
         group_with_users [{| u_id := "a"; u_name := "User1" |};
                           {| u_id := "b"; u_name := "User2" |}]
           (new_group "g" "Study Group g" 1700000000000)).
  destruct (disconnect_tells_the_group tr (run_events tr init) "a" "g" group)
    as (user & Hin & Hid & Hleft & Hupdated).
  - apply execution_run_events. vm_compute. reflexivity.
  - reflexivity.
  - apply elem_of_cons. by left.
  - exists user. split; [exact Hin |]. split; [exact Hid |]. split.
    + apply (Hleft {| u_id := "b"; u_name := "User2" |}).
      * apply elem_of_cons. right. apply elem_of_cons. by left.
      * discriminate.
      * apply elem_of_cons. right. apply elem_of_cons. by left.
    + apply (Hupdated "b"); [|discriminate].
      apply elem_of_cons. right. apply elem_of_cons. by left.
Defined.
